(** * Spoke editor core: a shallow embedding of [src/client/editor/Editor.js]

    The editor is a JavaScript object whose methods mutate a shared scene
    graph.  The embedding keeps that shape: every [THREE.Object3D] lives in a
    store indexed by its numeric [id], the editor's fields are the fields of
    the record [Editor], and each method is a computation in a state monad
    whose outcomes are a normal return, a JavaScript exception (the state
    reached when it was thrown is kept), or exhaustion of the fuel that bounds
    loops and recursion. *)

From stdpp Require Import gmap strings list fin_maps pretty.

(** ** JavaScript values *)

(** Primitive values as they occur in component properties, in resource
    identifiers and as keys of the dependency [Map]. *)
Inductive Value :=
| VUndefined
| VNull
| VBool (b : bool)
| VNum (z : Z)
| VStr (s : string).

#[global] Instance Value_eq_dec : EqDecision Value.
Proof. solve_decision. Defined.

Definition Value_encode (v : Value) : unit + unit + bool + Z + string :=
  match v with
  | VUndefined => inl (inl (inl (inl tt)))
  | VNull => inl (inl (inl (inr tt)))
  | VBool b => inl (inl (inr b))
  | VNum z => inl (inr z)
  | VStr s => inr s
  end.

Definition Value_decode (x : unit + unit + bool + Z + string) : Value :=
  match x with
  | inl (inl (inl (inl _))) => VUndefined
  | inl (inl (inl (inr _))) => VNull
  | inl (inl (inr b)) => VBool b
  | inl (inr z) => VNum z
  | inr s => VStr s
  end.

#[global] Instance Value_countable : Countable Value.
Proof. apply (inj_countable' Value_encode Value_decode). by intros []. Defined.

(** JavaScript truthiness, as tested by [if (props.src)]. *)
Definition truthy (v : Value) : bool :=
  match v with
  | VUndefined | VNull => false
  | VBool b => b
  | VNum z => negb (z =? 0)%Z
  | VStr s => negb (bool_decide (s = ""))
  end.

(** A plain property bag such as a component's [props]. *)
Abbreviation Props := (gmap string Value).

(** Reading a property of an object: a missing key reads as [undefined]. *)
Definition prop (p : Props) (key : string) : Value := default VUndefined (p !! key).

(** [JSON.parse(JSON.stringify(props))]: keys whose value is [undefined] are
    dropped, every other primitive value survives unchanged. *)
Definition json_props (p : Props) : Props := filter (λ kv, kv.2 ≠ VUndefined) p.

(** ** Arrays *)

(** [Array.prototype.findIndex]: the first index satisfying the predicate,
    [-1] when there is none. *)
Fixpoint findIndex {A} (p : A → bool) (l : list A) : Z :=
  match l with
  | [] => (-1)%Z
  | x :: l' => if p x then 0%Z
               else let i := findIndex p l' in
                    if (i <? 0)%Z then (-1)%Z else (i + 1)%Z
  end.

(** [Array.prototype.find]: the first element satisfying the predicate. *)
Fixpoint find {A} (p : A → bool) (l : list A) : option A :=
  match l with
  | [] => None
  | x :: l' => if p x then Some x else find p l'
  end.

(** [Array.prototype.indexOf] for object identity. *)
Definition indexOf {A} `{EqDecision A} (x : A) (l : list A) : Z :=
  findIndex (λ y, bool_decide (y = x)) l.

(** [array.splice(start, deleteCount)] without inserted items: a negative
    [start] counts from the end of the array, as ECMAScript specifies. *)
Definition splice {A} (l : list A) (start : Z) (deleteCount : nat) : list A :=
  let len := Z.of_nat (length l) in
  let actualStart :=
    if (start <? 0)%Z then Z.max (len + start) 0 else Z.min start len in
  let k := Z.to_nat actualStart in
  take k l ++ drop (k + deleteCount) l.

(** ** Sets of objects *)

(** A JavaScript [Set] of objects, as ECMAScript specifies it: the entries in
    insertion order, where deleting an entry leaves a hole, so that a running
    iterator keeps its position. *)
Abbreviation JsSet := (list (option nat)).

Definition set_members (D : JsSet) : list nat := omap id D.

Definition set_has (x : nat) (D : JsSet) : bool := bool_decide (Some x ∈ D).

Definition set_add (x : nat) (D : JsSet) : JsSet :=
  if set_has x D then D else D ++ [Some x].

Definition set_delete (x : nat) (D : JsSet) : JsSet :=
  (λ e, if decide (e = Some x) then None else e) <$> D.

(** ** The scene graph *)

(** The classes [addHelper] tells apart with [instanceof]; they are pairwise
    unrelated in three.js, every other class is [PlainObject]. *)
Inductive Kind :=
| Camera
| PointLight
| DirectionalLight
| SpotLight
| HemisphereLight
| SkinnedMesh
| SceneKind
| PlainObject.

#[global] Instance Kind_eq_dec : EqDecision Kind.
Proof. solve_decision. Defined.

Record Geometry := mkGeometry { geometry_uuid : string; geometry_name : string }.
Record Material := mkMaterial { material_uuid : string; material_name : string }.
Record Texture := mkTexture { texture_uuid : string; texture_name : string }.

#[global] Instance Geometry_eq_dec : EqDecision Geometry.
Proof. solve_decision. Defined.
#[global] Instance Material_eq_dec : EqDecision Material.
Proof. solve_decision. Defined.
#[global] Instance Texture_eq_dec : EqDecision Texture.
Proof. solve_decision. Defined.

(** [object.material] is one material or an array of materials
    (see [getObjectMaterial]). *)
Inductive MaterialSlot :=
| OneMaterial (m : Material)
| MaterialArray (ms : list Material).

#[global] Instance MaterialSlot_eq_dec : EqDecision MaterialSlot.
Proof. solve_decision. Defined.

(** A generic component, the [{ name, props }] record [addComponent] pushes on
    [userData._components]; [shouldSave] is assigned right after. *)
Record GenericComponent := mkGenericComponent {
  gc_name : string;
  gc_props : option Props;
  gc_shouldSave : bool
}.

(** The keys of [userData] this file reads or writes.  [_selectionRoot] is
    defined non-enumerable by [_cloneAndInflate]. *)
Record UserData := mkUserData {
  ud_components : option (list GenericComponent);
  ud_inflated : bool;
  ud_selectionRoot : option nat;
  ud_url : Value;
  ud_dontShowInHierarchy : bool;
  ud_sceneReference : Value
}.

Definition empty_userData : UserData :=
  mkUserData None false None VUndefined false VUndefined.

Definition json_component (c : GenericComponent) : GenericComponent :=
  mkGenericComponent (gc_name c) (json_props <$> gc_props c) (gc_shouldSave c).

(** [JSON.parse(JSON.stringify(userData))]: a deep copy of the enumerable
    keys; the non-enumerable [_selectionRoot] is not copied. *)
Definition json_userData (u : UserData) : UserData :=
  mkUserData ((λ l : list GenericComponent, json_component <$> l) <$> ud_components u)
             (ud_inflated u) None
             (ud_url u) (ud_dontShowInHierarchy u) (ud_sceneReference u).

(** Modelled from the spec: an instance of a registered component class (the
    classes of [./components] are absent).  The spec gives an instance
    [props], [shouldSave], [getProperty] and [updateProperty]. *)
Record ComponentInstance := mkComponentInstance {
  ci_props : Props;
  ci_shouldSave : bool
}.

Definition getProperty (c : ComponentInstance) (key : string) : Value :=
  prop (ci_props c) key.

Definition updateProperty (c : ComponentInstance) (key : string) (v : Value)
  : ComponentInstance :=
  mkComponentInstance (<[key := v]> (ci_props c)) (ci_shouldSave c).

(** A [THREE.Object3D].  Transforms are outside this file's concern and are
    left out; [background] and [fog] are the two [THREE.Scene] fields the
    editor touches, [None] being [null].  [parent] and [children] hold
    references, that is ids, into the store of the editor.
    [registered] is modelled from the spec: the instances of
    registered component classes attached to the object, at most one per type
    name, reached only through the class's [inflate], [deflate] and
    [getComponent]. *)
Record Object3D := mkObject3D {
  uuid : string;
  name : string;
  kind : Kind;
  parent : option nat;
  children : list nat;
  geometry : option Geometry;
  material : option MaterialSlot;
  userData : UserData;
  background : option Z;
  fog : option (Z * Z * Z);
  registered : gmap string ComponentInstance
}.

Definition set_uuid (v : string) (o : Object3D) : Object3D :=
  mkObject3D v (name o) (kind o) (parent o) (children o) (geometry o) (material o) (userData o) (background o) (fog o) (registered o).
Definition set_name (v : string) (o : Object3D) : Object3D :=
  mkObject3D (uuid o) v (kind o) (parent o) (children o) (geometry o) (material o) (userData o) (background o) (fog o) (registered o).
Definition set_parent (v : option nat) (o : Object3D) : Object3D :=
  mkObject3D (uuid o) (name o) (kind o) v (children o) (geometry o) (material o) (userData o) (background o) (fog o) (registered o).
Definition set_children (v : list nat) (o : Object3D) : Object3D :=
  mkObject3D (uuid o) (name o) (kind o) (parent o) v (geometry o) (material o) (userData o) (background o) (fog o) (registered o).
Definition set_userData (v : UserData) (o : Object3D) : Object3D :=
  mkObject3D (uuid o) (name o) (kind o) (parent o) (children o) (geometry o) (material o) v (background o) (fog o) (registered o).
Definition set_background (v : option Z) (o : Object3D) : Object3D :=
  mkObject3D (uuid o) (name o) (kind o) (parent o) (children o) (geometry o) (material o) (userData o) v (fog o) (registered o).
Definition set_fog (v : option (Z * Z * Z)) (o : Object3D) : Object3D :=
  mkObject3D (uuid o) (name o) (kind o) (parent o) (children o) (geometry o) (material o) (userData o) (background o) v (registered o).
Definition set_registered (v : gmap string ComponentInstance) (o : Object3D) : Object3D :=
  mkObject3D (uuid o) (name o) (kind o) (parent o) (children o) (geometry o) (material o) (userData o) (background o) (fog o) v.

Definition set_ud_components (v : option (list GenericComponent)) (u : UserData) : UserData :=
  mkUserData v (ud_inflated u) (ud_selectionRoot u) (ud_url u) (ud_dontShowInHierarchy u) (ud_sceneReference u).
Definition set_ud_selectionRoot (v : option nat) (u : UserData) : UserData :=
  mkUserData (ud_components u) (ud_inflated u) v (ud_url u) (ud_dontShowInHierarchy u) (ud_sceneReference u).
Definition set_ud_url (v : Value) (u : UserData) : UserData :=
  mkUserData (ud_components u) (ud_inflated u) (ud_selectionRoot u) v (ud_dontShowInHierarchy u) (ud_sceneReference u).
Definition set_ud_dontShowInHierarchy (v : bool) (u : UserData) : UserData :=
  mkUserData (ud_components u) (ud_inflated u) (ud_selectionRoot u) (ud_url u) v (ud_sceneReference u).
Definition set_ud_sceneReference (v : Value) (u : UserData) : UserData :=
  mkUserData (ud_components u) (ud_inflated u) (ud_selectionRoot u) (ud_url u) (ud_dontShowInHierarchy u) v.

(** ** Helpers *)

Inductive HelperKind :=
| CameraHelper
| PointLightHelper
| DirectionalLightHelper
| SpotLightHelper
| HemisphereLightHelper
| SkeletonHelper.

#[global] Instance HelperKind_eq_dec : EqDecision HelperKind.
Proof. solve_decision. Defined.

(** A helper of the overlay scene with its ["picker"] child mesh.
    [helper_object] is the object the helper draws, [picker_selectionRoot]
    is [picker.userData._selectionRoot]. *)
Record Helper := mkHelper {
  helper_id : nat;
  helper_kind : HelperKind;
  helper_object : nat;
  picker_id : nat;
  picker_selectionRoot : nat
}.

#[global] Instance Helper_eq_dec : EqDecision Helper.
Proof. solve_decision. Defined.

(** ** Notifications, tasks and collaborators *)

(** The signals this part of the editor dispatches, with their argument. *)
Inductive Signal :=
| editorCleared
| sceneGraphChanged
| sceneSet
| objectSelected (o : option nat)
| objectAdded (o : nat)
| objectRemoved (o : nat)
| helperAdded (h : Helper)
| helperRemoved (h : Helper).

#[global] Instance Signal_eq_dec : EqDecision Signal.
Proof. solve_decision. Defined.

(** One call of [signal.dispatch(...)].  A [Signal] whose [active] flag is
    false returns from [dispatch] without calling its listeners:
    [delivered] records whether the listeners were reached. *)
Record Notification := mkNotification {
  signal : Signal;
  delivered : bool
}.

#[global] Instance Notification_eq_dec : EqDecision Notification.
Proof. solve_decision. Defined.

(** An [async] method that has run up to its [await] on the scene loader. *)
Inductive Task :=
| LoadSceneTask (url : Value)
| LoadSceneReferenceTask (url : Value) (parentNode : nat)
| ReloadSceneTask.

#[global] Instance Task_eq_dec : EqDecision Task.
Proof. solve_decision. Defined.

Inductive JsError :=
| TypeError
| Error (message : string).

#[global] Instance JsError_eq_dec : EqDecision JsError.
Proof. solve_decision. Defined.

(** A promise returned by an [async] method: pending on the loader, or
    rejected by an exception thrown before the [await]. *)
Inductive TaskStatus :=
| Pending
| Rejected (e : JsError).

#[global] Instance TaskStatus_eq_dec : EqDecision TaskStatus.
Proof. solve_decision. Defined.

(** Calls into the collaborators [History] and [Storage], which are not part
    of this file. *)
Inductive CollaboratorCall :=
| HistoryClear
| StorageClear
| HistoryExecuteAddObject (object : nat) (parentNode : option nat).

(** A component class as the registry sees it: its static [componentName];
    [class_tag] tells apart two classes that carry the same name. *)
Record ComponentClass := mkComponentClass {
  componentName : string;
  class_tag : nat
}.

#[global] Instance ComponentClass_eq_dec : EqDecision ComponentClass.
Proof. solve_decision. Defined.

(** Modelled from the spec: [SceneReferenceComponent.componentName] and
    [DirectionalLightComponent.componentName]; the two classes are absent and
    the spec's scenario names the first ["SceneReference"]. *)
Definition SceneReferenceComponent_componentName : string := "SceneReference".
Definition DirectionalLightComponent_componentName : string := "DirectionalLight".

(** ** The editor *)

Record Editor := mkEditor {
  objects : gmap nat Object3D;        (* every Object3D, by [object.id] *)
  nextId : nat;                       (* three.js's id counter *)
  DEFAULT_CAMERA : nat;
  camera : nat;
  scene : nat;
  sceneHelpers : list Helper;         (* children of the overlay scene *)
  geometries : gmap string Geometry;
  materials : gmap string MaterialSlot;
  textures : gmap string Texture;
  scripts : gmap string (list string);
  selected : option nat;
  helpers : gmap nat Helper;
  components : gmap string ComponentClass;
  fileDependencies : gmap Value JsSet;
  sceneGraphChanged_active : bool;    (* signals.sceneGraphChanged.active *)
  dispatched : list Notification;     (* oldest first *)
  tasks : list (Task * TaskStatus);   (* oldest first *)
  calls : list CollaboratorCall       (* oldest first *)
}.

(** Field updates ([this.x = v]). *)
Definition set_objects (v : gmap nat Object3D) (s : Editor) : Editor :=
  mkEditor v (nextId s) (DEFAULT_CAMERA s) (camera s) (scene s) (sceneHelpers s) (geometries s) (materials s) (textures s) (scripts s) (selected s) (helpers s) (components s) (fileDependencies s) (sceneGraphChanged_active s) (dispatched s) (tasks s) (calls s).
Definition set_nextId (v : nat) (s : Editor) : Editor :=
  mkEditor (objects s) v (DEFAULT_CAMERA s) (camera s) (scene s) (sceneHelpers s) (geometries s) (materials s) (textures s) (scripts s) (selected s) (helpers s) (components s) (fileDependencies s) (sceneGraphChanged_active s) (dispatched s) (tasks s) (calls s).
Definition set_sceneHelpers (v : list Helper) (s : Editor) : Editor :=
  mkEditor (objects s) (nextId s) (DEFAULT_CAMERA s) (camera s) (scene s) v (geometries s) (materials s) (textures s) (scripts s) (selected s) (helpers s) (components s) (fileDependencies s) (sceneGraphChanged_active s) (dispatched s) (tasks s) (calls s).
Definition set_geometries (v : gmap string Geometry) (s : Editor) : Editor :=
  mkEditor (objects s) (nextId s) (DEFAULT_CAMERA s) (camera s) (scene s) (sceneHelpers s) v (materials s) (textures s) (scripts s) (selected s) (helpers s) (components s) (fileDependencies s) (sceneGraphChanged_active s) (dispatched s) (tasks s) (calls s).
Definition set_materials (v : gmap string MaterialSlot) (s : Editor) : Editor :=
  mkEditor (objects s) (nextId s) (DEFAULT_CAMERA s) (camera s) (scene s) (sceneHelpers s) (geometries s) v (textures s) (scripts s) (selected s) (helpers s) (components s) (fileDependencies s) (sceneGraphChanged_active s) (dispatched s) (tasks s) (calls s).
Definition set_textures (v : gmap string Texture) (s : Editor) : Editor :=
  mkEditor (objects s) (nextId s) (DEFAULT_CAMERA s) (camera s) (scene s) (sceneHelpers s) (geometries s) (materials s) v (scripts s) (selected s) (helpers s) (components s) (fileDependencies s) (sceneGraphChanged_active s) (dispatched s) (tasks s) (calls s).
Definition set_scripts (v : gmap string (list string)) (s : Editor) : Editor :=
  mkEditor (objects s) (nextId s) (DEFAULT_CAMERA s) (camera s) (scene s) (sceneHelpers s) (geometries s) (materials s) (textures s) v (selected s) (helpers s) (components s) (fileDependencies s) (sceneGraphChanged_active s) (dispatched s) (tasks s) (calls s).
Definition set_selected (v : option nat) (s : Editor) : Editor :=
  mkEditor (objects s) (nextId s) (DEFAULT_CAMERA s) (camera s) (scene s) (sceneHelpers s) (geometries s) (materials s) (textures s) (scripts s) v (helpers s) (components s) (fileDependencies s) (sceneGraphChanged_active s) (dispatched s) (tasks s) (calls s).
Definition set_helpers (v : gmap nat Helper) (s : Editor) : Editor :=
  mkEditor (objects s) (nextId s) (DEFAULT_CAMERA s) (camera s) (scene s) (sceneHelpers s) (geometries s) (materials s) (textures s) (scripts s) (selected s) v (components s) (fileDependencies s) (sceneGraphChanged_active s) (dispatched s) (tasks s) (calls s).
Definition set_components (v : gmap string ComponentClass) (s : Editor) : Editor :=
  mkEditor (objects s) (nextId s) (DEFAULT_CAMERA s) (camera s) (scene s) (sceneHelpers s) (geometries s) (materials s) (textures s) (scripts s) (selected s) (helpers s) v (fileDependencies s) (sceneGraphChanged_active s) (dispatched s) (tasks s) (calls s).
Definition set_fileDependencies (v : gmap Value JsSet) (s : Editor) : Editor :=
  mkEditor (objects s) (nextId s) (DEFAULT_CAMERA s) (camera s) (scene s) (sceneHelpers s) (geometries s) (materials s) (textures s) (scripts s) (selected s) (helpers s) (components s) v (sceneGraphChanged_active s) (dispatched s) (tasks s) (calls s).
Definition set_sceneGraphChanged_active (v : bool) (s : Editor) : Editor :=
  mkEditor (objects s) (nextId s) (DEFAULT_CAMERA s) (camera s) (scene s) (sceneHelpers s) (geometries s) (materials s) (textures s) (scripts s) (selected s) (helpers s) (components s) (fileDependencies s) v (dispatched s) (tasks s) (calls s).
Definition set_dispatched (v : list Notification) (s : Editor) : Editor :=
  mkEditor (objects s) (nextId s) (DEFAULT_CAMERA s) (camera s) (scene s) (sceneHelpers s) (geometries s) (materials s) (textures s) (scripts s) (selected s) (helpers s) (components s) (fileDependencies s) (sceneGraphChanged_active s) v (tasks s) (calls s).
Definition set_tasks (v : list (Task * TaskStatus)) (s : Editor) : Editor :=
  mkEditor (objects s) (nextId s) (DEFAULT_CAMERA s) (camera s) (scene s) (sceneHelpers s) (geometries s) (materials s) (textures s) (scripts s) (selected s) (helpers s) (components s) (fileDependencies s) (sceneGraphChanged_active s) (dispatched s) v (calls s).
Definition set_calls (v : list CollaboratorCall) (s : Editor) : Editor :=
  mkEditor (objects s) (nextId s) (DEFAULT_CAMERA s) (camera s) (scene s) (sceneHelpers s) (geometries s) (materials s) (textures s) (scripts s) (selected s) (helpers s) (components s) (fileDependencies s) (sceneGraphChanged_active s) (dispatched s) (tasks s) v.

(** ** The monad of editor methods *)

(** What running a method can lead to.  [Throw] keeps the state reached when
    the exception was raised: JavaScript undoes nothing.  [OutOfFuel] means
    the bound on loop iterations and recursion depth was hit.  [Stuck] means
    a reference pointed outside the object store, which no JavaScript
    execution does. *)
Inductive Outcome (A : Type) : Type :=
| Ok (a : A) (s : Editor)
| Throw (e : JsError) (s : Editor)
| OutOfFuel
| Stuck.

Arguments Ok {A} a s.
Arguments Throw {A} e s.
Arguments OutOfFuel {A}.
Arguments Stuck {A}.

Definition M (A : Type) : Type := Editor → Outcome A.

#[global] Instance M_ret : MRet M := λ A a s, Ok a s.

#[global] Instance M_bind : MBind M := λ A B k m s,
  match m s with
  | Ok a s' => k a s'
  | Throw e s' => Throw e s'
  | OutOfFuel => OutOfFuel
  | Stuck => Stuck
  end.

Definition gets {A} (f : Editor → A) : M A := λ s, Ok (f s) s.
Definition modify (f : Editor → Editor) : M unit := λ s, Ok tt (f s).
Definition throw {A} (e : JsError) : M A := λ s, Throw e s.
Definition out_of_fuel {A} : M A := λ _, OutOfFuel.
Definition stuck {A} : M A := λ _, Stuck.

(** Dereferencing an object, and assigning to its fields. *)
Definition get_object (o : nat) : M Object3D := λ s,
  match objects s !! o with
  | Some x => Ok x s
  | None => Stuck
  end.

Definition modify_object (o : nat) (f : Object3D → Object3D) : M unit := λ s,
  match objects s !! o with
  | Some x => Ok tt (set_objects (<[o := f x]> (objects s)) s)
  | None => Stuck
  end.

(** [new THREE.Object3D()] takes the next id of three.js's counter. *)
Definition fresh_id : M nat := λ s, Ok (nextId s) (set_nextId (S (nextId s)) s).

(** [for (const x of list) body(x)] over a list nobody mutates. *)
Fixpoint forM_ {A} (l : list A) (body : A → M unit) : M unit :=
  match l with
  | [] => mret tt
  | x :: l' => body x;; forM_ l' body
  end.

(** [for (const x of array) body(x)]: the array iterator reads the array at
    every step, so elements pushed by [body] are visited too.  [array] reads
    the current contents of the array being iterated. *)
Fixpoint for_of {A} (fuel : nat) (array : M (list A)) (i : nat) (body : A → M unit)
  : M unit :=
  match fuel with
  | 0 => out_of_fuel
  | S fuel' =>
      l ← array;
      match l !! i with
      | Some x => body x;; for_of fuel' array (S i) body
      | None => mret tt
      end
  end.

(** [signal.dispatch(...)]; only [sceneGraphChanged.active] is ever written. *)
Definition dispatch (sig : Signal) : M unit :=
  modify (λ s, set_dispatched
                 (dispatched s ++
                  [mkNotification sig
                     (if decide (sig = sceneGraphChanged)
                      then sceneGraphChanged_active s else true)]) s).

(** An [async] method called without [await].  Its body runs up to the first
    [await]; an exception thrown there rejects the returned promise instead of
    reaching the caller. *)
Definition async (t : Task) (prefix : M unit) : M unit := λ s,
  match prefix s with
  | Ok _ s' => Ok tt (set_tasks (tasks s' ++ [(t, Pending)]) s')
  | Throw e s' => Ok tt (set_tasks (tasks s' ++ [(t, Rejected e)]) s')
  | OutOfFuel => OutOfFuel
  | Stuck => Stuck
  end.

(** ** three.js: [Object3D.add], [remove], [traverse], [clone], [copy]

    The library is imported from [../vendor/three]; these definitions follow
    the methods of its [Object3D]. *)

(** [children.splice(children.indexOf(x), 1)] guarded by [index !== -1]. *)
Definition remove_child {A} `{EqDecision A} (x : A) (l : list A) : list A :=
  let index := indexOf x l in
  if (index =? -1)%Z then l else splice l index 1.

(** [parentNode.remove(object)]. *)
Definition Object3D_remove (parentNode object : nat) : M unit :=
  p ← get_object parentNode;
  let index := indexOf object (children p) in
  if (index =? -1)%Z then mret tt
  else
    modify_object object (set_parent None);;
    modify_object parentNode (λ x, set_children (splice (children x) index 1) x).

(** [parentNode.add(object)]: adding an object to itself is refused with a
    console message; an object that has a parent is first removed from it. *)
Definition Object3D_add (parentNode object : nat) : M unit :=
  if decide (object = parentNode) then mret tt
  else
    obj ← get_object object;
    match parent obj with
    | Some q => Object3D_remove q object
    | None => mret tt
    end;;
    modify_object object (set_parent (Some parentNode));;
    modify_object parentNode (λ x, set_children (children x ++ [object]) x).

(** [object.traverse(callback)]: the callback on the object, then on each
    child's subtree; the number of children is read once, each child when its
    turn comes. *)
Fixpoint traverse (fuel : nat) (callback : nat → M unit) (object : nat) : M unit :=
  match fuel with
  | 0 => out_of_fuel
  | S fuel' =>
      callback object;;
      obj ← get_object object;
      forM_ (seq 0 (length (children obj))) (λ i,
        obj' ← get_object object;
        match children obj' !! i with
        | Some child => traverse fuel' callback child
        | None => throw TypeError
        end)
  end.

(** [THREE.Math.generateUUID()], made deterministic. *)
Definition generateUUID (id : nat) : string := "uuid-" +:+ pretty id.

(** [object.clone(false)]: a new object with the fields of [object], a deep
    copy of its [userData], no parent and no children.  This is [clone] as
    [Object3D], [Group], [Scene] and the cameras have it.  The lights and
    the meshes of three.js do not pass the flag on to [Object3D.copy] and
    come back with copies of their children as well; those copies are not
    modelled, so for a light or a mesh the model is that of an object
    without children. *)
Definition Object3D_clone_shallow (object : nat) : M nat :=
  obj ← get_object object;
  id ← fresh_id;
  modify (λ s, set_objects
     (<[id := mkObject3D (generateUUID id) (name obj) (kind obj) None []
                (geometry obj) (material obj) (json_userData (userData obj))
                (background obj) (fog obj) ∅]> (objects s)) s);;
  mret id.

(** [target.copy(source)] for a [source] without children, which is all
    [clear] needs: [DEFAULT_CAMERA] is never given any. *)
Definition Object3D_copy (target source : nat) : M unit :=
  src ← get_object source;
  modify_object target (λ x, set_userData (json_userData (userData src))
                                (set_name (name src) x)).

(** The pre-order listing of a subtree of the store [h], [None] when the
    fuel does not reach its leaves. *)
Fixpoint subtree (fuel : nat) (h : gmap nat Object3D) (o : nat) : option (list nat) :=
  match fuel with
  | 0 => None
  | S fuel' =>
      obj ← h !! o;
      rest ← mapM (subtree fuel' h) (children obj);
      Some (o :: concat rest)
  end.

(** ** Editor methods *)

(** [while (o.children.length > 0) body(o.children[0])]. *)
Fixpoint while_first_child (fuel : nat) (o : nat) (body : nat → M unit) : M unit :=
  match fuel with
  | 0 => out_of_fuel
  | S fuel' =>
      obj ← get_object o;
      match children obj with
      | [] => mret tt
      | c :: _ => body c;; while_first_child fuel' o body
      end
  end.

Definition addGeometry (g : Geometry) : M unit :=
  modify (λ s, set_geometries (<[geometry_uuid g := g]> (geometries s)) s).

(** [this.materials[material.uuid] = material]; an array of materials has
    no [uuid], so the key is the string ["undefined"]. *)
Definition addMaterial (m : MaterialSlot) : M unit :=
  let key := match m with
             | OneMaterial x => material_uuid x
             | MaterialArray _ => "undefined"
             end in
  modify (λ s, set_materials (<[key := m]> (materials s)) s).

Definition addTexture (t : Texture) : M unit :=
  modify (λ s, set_textures (<[texture_uuid t := t]> (textures s)) s).

(** The [instanceof] chain of [addHelper]. *)
Definition helper_for (k : Kind) : option HelperKind :=
  match k with
  | Camera => Some CameraHelper
  | PointLight => Some PointLightHelper
  | DirectionalLight => Some DirectionalLightHelper
  | SpotLight => Some SpotLightHelper
  | HemisphereLight => Some HemisphereLightHelper
  | SkinnedMesh => Some SkeletonHelper
  | SceneKind | PlainObject => None
  end.

Definition addHelper (object selectionRoot : nat) : M unit :=
  hs ← gets helpers;
  match hs !! object with
  | Some _ => mret tt
  | None =>
      obj ← get_object object;
      match helper_for (kind obj) with
      | None => mret tt
      | Some hk =>
          hid ← fresh_id;
          pid ← fresh_id;
          let helper := mkHelper hid hk object pid selectionRoot in
          modify (λ s, set_sceneHelpers (sceneHelpers s ++ [helper]) s);;
          modify (λ s, set_helpers (<[selectionRoot := helper]> (helpers s)) s);;
          dispatch (helperAdded helper)
      end
  end.

(** [helper.parent] is the overlay scene: [addHelper], the only writer of
    [helpers], attaches every helper it stores there. *)
Definition removeHelper (object : nat) : M unit :=
  hs ← gets helpers;
  match hs !! object with
  | Some helper =>
      modify (λ s, set_sceneHelpers (remove_child helper (sceneHelpers s)) s);;
      modify (λ s, set_helpers (delete object (helpers s)) s);;
      dispatch (helperRemoved helper)
  | None => mret tt
  end.

(** The static [componentName] of a class, where a method's parameter of
    that name hides the field. *)
Definition ComponentClass_name (cls : ComponentClass) : string := componentName cls.

Definition registerComponent (componentClass : ComponentClass) : M unit :=
  let componentName := componentName componentClass in
  cs ← gets components;
  match cs !! componentName with
  | Some _ => throw (Error (componentName +:+ " already registered"))
  | None =>
      modify (λ s, set_components (<[componentName := componentClass]> (components s)) s)
  end.

(** What [addComponent] and [getComponent] return. *)
Inductive Component :=
| RegisteredComponent (c : ComponentInstance)
| GenericComponentRef (c : GenericComponent).

(** Modelled from the spec: the static methods [inflate], [deflate] and
    [getComponent] of a component class (the classes are absent).  [inflate]
    constructs an instance and attaches it to the node, [deflate] detaches
    it, [getComponent] returns it or nothing; a node holds at most one
    instance per type name. *)
Definition inflate (cls : ComponentClass) (object : nat) (props : option Props)
  : M ComponentInstance :=
  let c := mkComponentInstance (default ∅ props) false in
  modify_object object
    (λ x, set_registered (<[componentName cls := c]> (registered x)) x);;
  mret c.

Definition deflate (cls : ComponentClass) (object : nat) : M unit :=
  modify_object object
    (λ x, set_registered (delete (componentName cls) (registered x)) x).

Definition class_getComponent (cls : ComponentClass) (object : nat)
  : M (option ComponentInstance) :=
  obj ← get_object object;
  mret (registered obj !! componentName cls).

Definition getComponent (object : nat) (componentName : string)
  : M (option Component) :=
  cs ← gets components;
  match cs !! componentName with
  | Some cls =>
      c ← class_getComponent cls object;
      mret (RegisteredComponent <$> c)
  | None =>
      obj ← get_object object;
      match ud_components (userData obj) with
      | None => throw TypeError
      | Some l =>
          mret (GenericComponentRef <$>
                  find (λ c, bool_decide (gc_name c = componentName)) l)
      end
  end.

(** [component.getProperty(key)]: a generic record has no such method. *)
Definition component_getProperty (c : Component) (key : string) : M Value :=
  match c with
  | RegisteredComponent i => mret (getProperty i key)
  | GenericComponentRef _ => throw TypeError
  end.

Definition removeSceneRefDependency (object : nat) : M unit :=
  sceneRefComponent ← getComponent object SceneReferenceComponent_componentName;
  match sceneRefComponent with
  | Some c =>
      src ← component_getProperty c "src";
      fd ← gets fileDependencies;
      match fd !! src with
      | Some dependencies =>
          modify (λ s, set_fileDependencies
                         (<[src := set_delete object dependencies]> (fileDependencies s)) s)
      | None => mret tt
      end
  | None => mret tt
  end.

(** [loadSceneReference] up to its [await loadScene(url, ...)]. *)
Definition loadSceneReference (url : Value) (parentNode : nat) : M unit :=
  async (LoadSceneReferenceTask url parentNode) (removeSceneRefDependency parentNode).

(** [gltfDependencies = fileDependencies.get(url) || new Set();
     gltfDependencies.add(node); fileDependencies.set(url, gltfDependencies)]. *)
Definition add_dependency (url : Value) (node : nat) : M unit :=
  modify (λ s, set_fileDependencies
                 (<[url := set_add node (default [] (fileDependencies s !! url))]>
                    (fileDependencies s)) s).

(** The rest of [loadSceneReference], run when the loader delivers [loaded]. *)
Definition loadSceneReference_resume (url : Value) (parentNode loaded : nat) : M nat :=
  modify_object loaded
    (λ x, set_userData (set_ud_sceneReference url
                          (set_ud_dontShowInHierarchy true (userData x))) x);;
  Object3D_add parentNode loaded;;
  dispatch sceneGraphChanged;;
  add_dependency url parentNode;;
  mret loaded.

Definition addComponent (object : nat) (componentName : string)
    (props : option Props) (skipSave : bool) : M Component :=
  cs ← gets components;
  match cs !! componentName with
  | Some cls =>
      c ← inflate cls object props;
      (if decide (componentName = SceneReferenceComponent_componentName) then
         match props with
         | None => throw TypeError
         | Some p =>
             if truthy (prop p "src") then loadSceneReference (prop p "src") object
             else mret tt
         end
       else mret tt);;
      modify_object object
        (λ x, set_registered
                (alter (λ i, mkComponentInstance (ci_props i) (negb skipSave))
                       (ComponentClass_name cls) (registered x)) x);;
      mret (RegisteredComponent (mkComponentInstance (ci_props c) (negb skipSave)))
  | None =>
      let component := mkGenericComponent componentName props (negb skipSave) in
      modify_object object
        (λ x, set_userData
                (set_ud_components
                   (Some (default [] (ud_components (userData x)) ++ [component]))
                   (userData x)) x);;
      mret (GenericComponentRef component)
  end.

Definition removeComponent (object : nat) (componentName : string) : M unit :=
  cs ← gets components;
  match cs !! componentName with
  | Some cls =>
      (if decide (componentName = SceneReferenceComponent_componentName)
       then removeSceneRefDependency object else mret tt);;
      deflate cls object
  | None =>
      obj ← get_object object;
      match ud_components (userData obj) with
      | None => mret tt
      | Some l =>
          let index := findIndex (λ c, bool_decide (gc_name c = componentName)) l in
          modify_object object
            (λ x, set_userData
                    (set_ud_components (Some (splice l index 1)) (userData x)) x)
      end
  end.

(** [reloadScene] up to its [await loadSerializedScene(...)]: the scene is
    serialized and handed to the loader, nothing is written yet. *)
Definition reloadScene : M unit := async ReloadSceneTask (mret tt).

(** [for (const dependency of dependencies) body(dependency)] over the
    [Set] stored under [url]: the iterator walks the entries by position and
    skips the holes left by deletions. *)
Fixpoint for_of_dependencies (fuel : nat) (url : Value) (i : nat)
    (body : nat → M unit) : M unit :=
  match fuel with
  | 0 => out_of_fuel
  | S fuel' =>
      fd ← gets fileDependencies;
      match fd !! url with
      | None => stuck
      | Some entries =>
          match entries !! i with
          | None => mret tt
          | Some None => for_of_dependencies fuel' url (S i) body
          | Some (Some dependency) =>
              body dependency;; for_of_dependencies fuel' url (S i) body
          end
      end
  end.

Definition onFileChanged (fuel : nat) (url : Value) : M unit :=
  fd ← gets fileDependencies;
  match fd !! url with
  | Some _ =>
      for_of_dependencies fuel url 0 (λ dependency,
        c ← getComponent dependency SceneReferenceComponent_componentName;
        match c with
        | Some _ => loadSceneReference url dependency
        | None => reloadScene
        end)
  | None => mret tt
  end.

Definition select (object : option nat) : M unit :=
  sel ← gets selected;
  if decide (sel = object) then mret tt
  else
    modify (set_selected object);;
    dispatch (objectSelected object).

Definition deselect : M unit := select None.

Definition addObject (fuel : nat) (object : nat) (parentNode : option nat) : M unit :=
  traverse fuel (λ child,
    c ← get_object child;
    match geometry c with Some g => addGeometry g | None => mret tt end;;
    match material c with Some m => addMaterial m | None => mret tt end;;
    addHelper child object) object;;
  match parentNode with
  | Some p => Object3D_add p object
  | None => sc ← gets scene; Object3D_add sc object
  end;;
  dispatch (objectAdded object);;
  dispatch sceneGraphChanged.

Definition removeObject (fuel : nat) (object : nat) : M unit :=
  obj ← get_object object;
  match parent obj with
  | None => mret tt
  | Some _ =>
      traverse fuel (λ child,
        removeHelper child;;
        removeSceneRefDependency child) object;;
      obj' ← get_object object;
      match parent obj' with
      | Some p => Object3D_remove p object
      | None => throw TypeError
      end;;
      dispatch (objectRemoved object);;
      dispatch sceneGraphChanged
  end.

Definition setScene (fuel : nat) (source : nat) : M unit :=
  sc ← gets scene;
  src ← get_object source;
  modify_object sc (set_uuid (uuid src));;
  src ← get_object source;
  modify_object sc (set_name (name src));;
  src ← get_object source;
  match background src with
  | Some b => modify_object sc (set_background (Some b))
  | None => mret tt
  end;;
  src ← get_object source;
  match fog src with
  | Some f => modify_object sc (set_fog (Some f))
  | None => mret tt
  end;;
  src ← get_object source;
  modify_object sc (set_userData (json_userData (userData src)));;
  modify (set_sceneGraphChanged_active false);;
  while_first_child fuel sc (removeObject fuel);;
  while_first_child fuel source (λ child, addObject fuel child None);;
  modify (set_sceneGraphChanged_active true);;
  dispatch sceneSet.

Definition clear (fuel : nat) : M unit :=
  modify (λ s, set_calls (calls s ++ [HistoryClear]) s);;
  modify (λ s, set_calls (calls s ++ [StorageClear]) s);;
  cam ← gets camera;
  dc ← gets DEFAULT_CAMERA;
  Object3D_copy cam dc;;
  sc ← gets scene;
  scobj ← get_object sc;
  match background scobj with
  | Some _ => modify_object sc (set_background (Some 0xaaaaaa%Z))
  | None => throw TypeError
  end;;
  modify_object sc (set_fog None);;
  while_first_child fuel sc (removeObject fuel);;
  modify (set_geometries ∅);;
  modify (set_materials ∅);;
  modify (set_textures ∅);;
  modify (set_scripts ∅);;
  deselect;;
  dispatch editorCleared.

(** [loadScene] up to its [await loadScene(url, ...)]; being [async], an
    exception in it rejects the promise. *)
Definition loadScene (fuel : nat) (url : Value) : M unit :=
  async (LoadSceneTask url)
    (sc ← gets scene;
     scobj ← get_object sc;
     fd ← gets fileDependencies;
     match fd !! ud_url (userData scobj) with
     | Some prevDependencies =>
         modify (λ s, set_fileDependencies
                        (<[ud_url (userData scobj) := set_delete sc prevDependencies]>
                           (fileDependencies s)) s)
     | None => mret tt
     end;;
     modify (set_sceneGraphChanged_active false);;
     clear fuel).

(** The rest of [loadScene], run when the loader delivers [loaded]. *)
Definition loadScene_resume (fuel : nat) (url : Value) (loaded : nat) : M nat :=
  sc ← gets scene;
  modify_object sc (λ x, set_userData (set_ud_url url (userData x)) x);;
  setScene fuel loaded;;
  add_dependency url sc;;
  mret loaded.

(** The rest of [reloadScene], run when the loader delivers [loaded]. *)
Definition reloadScene_resume (fuel : nat) (loaded : nat) : M nat :=
  modify (set_sceneGraphChanged_active false);;
  clear fuel;;
  modify (set_sceneGraphChanged_active true);;
  setScene fuel loaded;;
  mret loaded.

Definition components_array (object : nat) : M (list GenericComponent) :=
  obj ← get_object object;
  match ud_components (userData obj) with
  | Some l => mret l
  | None => stuck
  end.

Definition children_array (object : nat) : M (list nat) :=
  obj ← get_object object;
  mret (children obj).

Fixpoint _cloneAndInflate (fuel : nat) (object : nat) (root : option nat) : M nat :=
  match fuel with
  | 0 => out_of_fuel
  | S fuel' =>
      clone ← Object3D_clone_shallow object;
      c ← get_object clone;
      match ud_components (userData c) with
      | Some _ =>
          for_of fuel' (components_array clone) 0 (λ component,
            _ ← addComponent clone (gc_name component) (gc_props component) false;
            mret tt)
      | None => mret tt
      end;;
      let root := default clone root in
      for_of fuel' (children_array object) 0 (λ child,
        ch ← get_object child;
        if ud_inflated (userData ch) then mret tt
        else
          childClone ← _cloneAndInflate fuel' child (Some root);
          Object3D_add clone childClone;;
          modify_object childClone
            (λ x, set_userData (set_ud_selectionRoot (Some root) (userData x)) x));;
      mret clone
  end.

(** [this.execute(new AddObjectCommand(clone, object.parent))] hands the
    command to the [History] collaborator.  Neither [History] nor the
    command classes are in the source file: the model records the call with
    its two arguments in [calls] and stops there.  Running the command,
    which is what attaches the clone to the graph, filing it in the history
    and the notifications that go with both are the collaborator's part and
    are not modelled. *)
Definition duplicateObject (fuel : nat) (object : nat) : M unit :=
  clone ← _cloneAndInflate fuel object None;
  obj ← get_object object;
  modify (λ s, set_calls (calls s ++ [HistoryExecuteAddObject clone (parent obj)]) s).

Definition initNewScene (fuel : nat) : M unit :=
  sc ← gets scene;
  _ ← addComponent sc DirectionalLightComponent_componentName None false;
  traverse fuel (λ child, addHelper child sc) sc.

(** The state the constructor builds before it registers the classes of
    [Components] and calls [initNewScene]. *)
Definition constructor_fields : Editor :=
  let default_camera :=
    mkObject3D (generateUUID 0) "Camera" Camera None [] None None empty_userData
               None None ∅ in
  let cam :=
    mkObject3D (generateUUID 1) "Camera" Camera None [] None None empty_userData
               None None ∅ in
  let sc :=
    mkObject3D (generateUUID 2) "Scene" SceneKind None [] None None empty_userData
               (Some 0xaaaaaa%Z) None ∅ in
  mkEditor (<[0 := default_camera]> (<[1 := cam]> (<[2 := sc]> ∅))) 4 0 1 2 []
           ∅ ∅ ∅ ∅ None ∅ ∅ ∅ true [] [] [].

(** [new Editor()], where [Components] is the list exported by the absent
    [./components]. *)
Definition constructor (fuel : nat) (Components : list ComponentClass) : Outcome unit :=
  (forM_ Components registerComponent;; initNewScene fuel) constructor_fields.

(** ** Example objects and states *)

(** [new THREE.Object3D()] by a caller of the editor: the object enters the
    store under the next id, without parent or children. *)
Definition new_Object3D (o : Object3D) : M nat :=
  id ← fresh_id;
  modify (λ s, set_objects (<[id := set_children [] (set_parent None o)]> (objects s)) s);;
  mret id.

Definition plain (k : Kind) (nm : string) : Object3D :=
  mkObject3D nm nm k None [] None None empty_userData None None ∅.

Definition SceneReferenceComponent : ComponentClass :=
  mkComponentClass SceneReferenceComponent_componentName 0.

Definition DirectionalLightComponent : ComponentClass :=
  mkComponentClass DirectionalLightComponent_componentName 1.

(** The final state of a run, the constructor's fields when it has none. *)
Definition state_of {A} (r : Outcome A) : Editor :=
  match r with
  | Ok _ s | Throw _ s => s
  | OutOfFuel | Stuck => constructor_fields
  end.

(** A fresh editor whose [Components] are the two classes this file names. *)
Definition fresh_editor : Editor :=
  state_of (constructor 3 [SceneReferenceComponent; DirectionalLightComponent]).

(** The object a reference of a state points to. *)
Definition object_of (s : Editor) (o : nat) : Object3D :=
  default (plain PlainObject "") (objects s !! o).

(** Whether a run returned normally. *)
Definition returns {A} (r : Outcome A) : bool :=
  match r with
  | Ok _ _ => true
  | _ => false
  end.

(** The generic component list of an object of a state. *)
Definition component_list (s : Editor) (o : nat) : option (list GenericComponent) :=
  obj ← objects s !! o; ud_components (userData obj).

(** A fresh editor and a detached object 4 that carries the generic
    components of the given names, added with [addComponent]. *)
Definition with_generic_components (names : list string) : Editor :=
  state_of ((g ← new_Object3D (plain PlainObject "nodeZ");
             forM_ names (λ n, _ ← addComponent g n None false; mret tt))
            fresh_editor).

(** A fresh editor and a detached group 4 with two point lights 5 and 6 as
    children. *)
Definition group_of_two_lights : Editor :=
  state_of ((g ← new_Object3D (plain PlainObject "group");
             l1 ← new_Object3D (plain PointLight "light1");
             l2 ← new_Object3D (plain PointLight "light2");
             Object3D_add g l1;;
             Object3D_add g l2)
            fresh_editor).

(** ** Reloading on a changed file *)

(** The scene-reference component an object carries, when the class is
    registered as [cls]: what [getComponent] answers on the registered path. *)
Definition carried (h : gmap nat Object3D) (cls : ComponentClass) (d : nat)
  : option ComponentInstance :=
  obj ← h !! d; registered obj !! componentName cls.

(** The reload [onFileChanged] starts for a dependent [d] of [url]. *)
Definition reload_by_code (h : gmap nat Object3D) (cls : ComponentClass)
    (url : Value) (d : nat) : Task :=
  match carried h cls d with
  | Some _ => LoadSceneReferenceTask url d
  | None => ReloadSceneTask
  end.

(** The reload the specification words ask for: a reference reload exactly
    when [d] carries a scene-reference component whose [src] equals [url],
    a full reload otherwise. *)
Definition reload_by_spec (h : gmap nat Object3D) (cls : ComponentClass)
    (url : Value) (d : nat) : Task :=
  match carried h cls d with
  | Some c =>
      if decide (getProperty c "src" = url) then LoadSceneReferenceTask url d
      else ReloadSceneTask
  | None => ReloadSceneTask
  end.

(** What [removeSceneRefDependency] does to the state when the
    scene-reference class is registered as [cls]. *)
Definition release (cls : ComponentClass) (d : nat) (s : Editor) : Editor :=
  match carried (objects s) cls d with
  | Some c =>
      match fileDependencies s !! getProperty c "src" with
      | Some dependencies =>
          set_fileDependencies
            (<[getProperty c "src" := set_delete d dependencies]> (fileDependencies s)) s
      | None => s
      end
  | None => s
  end.

(** A document opened from ["scene_a"] whose root 2 was then given a scene
    reference to ["scene_b"]: 2 depends on ["scene_a"] as the document root
    and carries a scene-reference component whose [src] is ["scene_b"]. *)
Definition document_with_reference : Editor :=
  state_of ((loadScene 3 (VStr "scene_a");;
             loaded ← new_Object3D (plain SceneKind "loaded");
             _ ← loadScene_resume 3 (VStr "scene_a") loaded;
             sc ← gets scene;
             _ ← addComponent sc SceneReferenceComponent_componentName
                   (Some {[ "src" := VStr "scene_b" ]}) false;
             mret tt)
            fresh_editor).

(** ** The methods as state changes

    Under the conditions that make them return, the traversals of
    [addObject] and [removeObject] are folds of the following functions over
    the pre-order listing of the subtree. *)

(** [dispatch] as a state change. *)
Definition notify (sig : Signal) (s : Editor) : Editor :=
  set_dispatched
    (dispatched s ++
     [mkNotification sig
        (if decide (sig = sceneGraphChanged) then sceneGraphChanged_active s else true)]) s.

(** [removeHelper] as a state change. *)
Definition drop_helper (d : nat) (s : Editor) : Editor :=
  match helpers s !! d with
  | Some h =>
      notify (helperRemoved h)
        (set_helpers (delete d (helpers s))
           (set_sceneHelpers (remove_child h (sceneHelpers s)) s))
  | None => s
  end.

(** The callback of [removeObject]'s traversal, and its fold. *)
Definition detach_step (cls : ComponentClass) (s : Editor) (d : nat) : Editor :=
  release cls d (drop_helper d s).

Definition detach_all (cls : ComponentClass) (l : list nat) (s : Editor) : Editor :=
  foldl (detach_step cls) s l.

(** [parentNode.remove(object)] on the store. *)
Definition unlink (p o : nat) (h : gmap nat Object3D) : gmap nat Object3D :=
  match h !! p with
  | Some pobj =>
      let index := indexOf o (children pobj) in
      if (index =? -1)%Z then h
      else alter (λ x, set_children (splice (children x) index 1) x) p
             (alter (set_parent None) o h)
  | None => h
  end.

(** [parentNode.add(object)] on the store. *)
Definition link (p o : nat) (h : gmap nat Object3D) : gmap nat Object3D :=
  if decide (o = p) then h
  else
    let h1 := match h !! o with
              | Some obj => match parent obj with
                            | Some q => unlink q o h
                            | None => h
                            end
              | None => h
              end in
    alter (λ x, set_children (children x ++ [o]) x) p
      (alter (set_parent (Some p)) o h1).

(** The state [removeObject] returns for an object whose parent is [p] and
    whose subtree lists as [l]. *)
Definition removeObject_result (cls : ComponentClass) (l : list nat) (p o : nat)
    (s : Editor) : Editor :=
  let s1 := detach_all cls l s in
  notify sceneGraphChanged
    (notify (objectRemoved o) (set_objects (unlink p o (objects s1)) s1)).

(** [addHelper] as a state change. *)
Definition add_helper (d root : nat) (s : Editor) : Editor :=
  match helpers s !! d with
  | Some _ => s
  | None =>
      match objects s !! d with
      | Some od =>
          match helper_for (kind od) with
          | Some hk =>
              let helper := mkHelper (nextId s) hk d (S (nextId s)) root in
              notify (helperAdded helper)
                (set_helpers (<[root := helper]> (helpers s))
                   (set_sceneHelpers (sceneHelpers s ++ [helper])
                      (set_nextId (S (S (nextId s))) s)))
          | None => s
          end
      | None => s
      end
  end.

Definition material_key (m : MaterialSlot) : string :=
  match m with
  | OneMaterial x => material_uuid x
  | MaterialArray _ => "undefined"
  end.

(** The callback of [addObject]'s traversal, and its fold. *)
Definition register_step (root : nat) (s : Editor) (d : nat) : Editor :=
  match objects s !! d with
  | Some od =>
      let s1 := match geometry od with
                | Some g => set_geometries (<[geometry_uuid g := g]> (geometries s)) s
                | None => s
                end in
      let s2 := match material od with
                | Some m => set_materials (<[material_key m := m]> (materials s1)) s1
                | None => s1
                end in
      add_helper d root s2
  | None => s
  end.

Definition register_all (root : nat) (l : list nat) (s : Editor) : Editor :=
  foldl (register_step root) s l.

(** The state [addObject] returns for an object whose subtree lists as [l],
    added under [p]. *)
Definition addObject_result (l : list nat) (p o : nat) (s : Editor) : Editor :=
  let s1 := register_all o l s in
  notify sceneGraphChanged
    (notify (objectAdded o) (set_objects (link p o (objects s1)) s1)).

(** ** Descendants *)

(** [d] is [o] or lies below it in the store [h]. *)
Inductive descendant (h : gmap nat Object3D) : nat → nat → Prop :=
| descendant_self (o : nat) : descendant h o o
| descendant_child (o c d : nat) (obj : Object3D) :
    h !! o = Some obj → c ∈ children obj → descendant h c d → descendant h o d.

(** The [helperRemoved] notifications of a traversal of [l] that starts with
    the helper map [m]. *)
Fixpoint helper_events (m : gmap nat Helper) (l : list nat) : list Notification :=
  match l with
  | [] => []
  | d :: l' =>
      match m !! d with
      | Some h => mkNotification (helperRemoved h) true :: helper_events (delete d m) l'
      | None => helper_events m l'
      end
  end.

(** [d], which carries the scene reference [c], is in no set stored under
    the [src] of [c]. *)
Definition released (d : nat) (c : ComponentInstance) (fd : gmap Value JsSet) : Prop :=
  ∀ D, fd !! getProperty c "src" = Some D → d ∉ set_members D.

(** The group of [group_of_two_lights] added to the scene. *)
Definition scene_with_group : Editor :=
  state_of (addObject 3 4 None group_of_two_lights).

(** A fresh editor and a detached mesh 4 with a geometry and a material. *)
Definition editor_with_mesh : Editor :=
  state_of ((_ ← new_Object3D
                   (mkObject3D "meshA" "meshA" PlainObject None []
                      (Some (mkGeometry "geometry-1" "box"))
                      (Some (OneMaterial (mkMaterial "material-1" "red")))
                      empty_userData None None ∅);
             mret tt)
            fresh_editor).

(** ** Well-formed children *)

(** [c] is in the store with [r] as its parent, and its subtree is finite
    and holds none of the objects of [avoid]. *)
Definition child_ready (fuel : nat) (h : gmap nat Object3D) (r : nat)
    (avoid : list nat) (c : nat) : bool :=
  match h !! c with
  | Some oc =>
      bool_decide (parent oc = Some r) &&
      match subtree fuel h c with
      | Some lc => forallb (λ a, bool_decide (a ∉ lc)) avoid
      | None => false
      end
  | None => false
  end.

(** The children of [r] are consistent with the store: no child is listed
    twice, each has [r] as parent and a finite subtree that holds none of
    the objects of [avoid] (so no cycle leads back to them), and the fuel
    exceeds their number. *)
Definition children_ready (fuel : nat) (h : gmap nat Object3D) (r : nat)
    (avoid : list nat) : bool :=
  match h !! r with
  | Some robj =>
      bool_decide (NoDup (children robj)) &&
      forallb (child_ready fuel h r avoid) (children robj) &&
      bool_decide (length (children robj) < fuel)
  | None => false
  end.

(** ** How the dependency map may change while objects are removed *)

(** [fd'] has the keys of [fd], and under each key the same set where some
    entries [d] allowed by [P] were turned into holes. *)
Definition fd_shrunk (P : nat → Value → Prop) (fd fd' : gmap Value JsSet) : Prop :=
  ∀ u, match fd !! u, fd' !! u with
       | None, None => True
       | Some D, Some D' =>
           Forall2 (λ e e', e' = e ∨ (e' = None ∧ ∃ d, e = Some d ∧ P d u)) D D'
       | _, _ => False
       end.

(** [d] lies below a child of [r] and carries a scene reference to [u]. *)
Definition releasable (h : gmap nat Object3D) (cls : ComponentClass) (r : nat)
    (d : nat) (u : Value) : Prop :=
  (∃ robj c, h !! r = Some robj ∧ c ∈ children robj ∧ descendant h c d) ∧
  ∃ i, carried h cls d = Some i ∧ getProperty i "src" = u.

(** ** Notifications of a removal or an addition *)

(** A notification [removeObject] dispatches when [sceneGraphChanged.active]
    is [a]. *)
Definition removal_event (a : bool) (n : Notification) : Prop :=
  (∃ h, n = mkNotification (helperRemoved h) true) ∨
  (∃ o, n = mkNotification (objectRemoved o) true) ∨
  n = mkNotification sceneGraphChanged a.

(** A notification [addObject] dispatches when [sceneGraphChanged.active]
    is [a]. *)
Definition addition_event (a : bool) (n : Notification) : Prop :=
  (∃ h, n = mkNotification (helperAdded h) true) ∨
  (∃ o, n = mkNotification (objectAdded o) true) ∨
  n = mkNotification sceneGraphChanged a.

(** ** What the loops over children leave *)

(** The store [h'] is [h] after the children [cs] of [r] were removed from
    it: [r] has no children, each of [cs] has no parent, nothing else
    changed. *)
Definition children_removed (r : nat) (cs : list nat) (h h' : gmap nat Object3D) : Prop :=
  h' !! r = set_children [] <$> h !! r ∧
  (∀ c, c ∈ cs → h' !! c = set_parent None <$> h !! c) ∧
  (∀ x, x ≠ r → x ∉ cs → h' !! x = h !! x).

(** The store [h'] is [h] after the children [cs] of [src] were moved to the
    end of the children of [live]. *)
Definition children_moved (src live : nat) (cs : list nat)
    (h h' : gmap nat Object3D) : Prop :=
  h' !! src = set_children [] <$> h !! src ∧
  h' !! live = (λ o, set_children (children o ++ cs) o) <$> h !! live ∧
  (∀ c, c ∈ cs → h' !! c = set_parent (Some live) <$> h !! c) ∧
  (∀ x, x ≠ src → x ≠ live → x ∉ cs → h' !! x = h !! x).

(** The fields a removal or an addition of objects leaves alone. *)
Definition graph_frame (s s' : Editor) : Prop :=
  components s' = components s ∧
  scene s' = scene s ∧
  sceneGraphChanged_active s' = sceneGraphChanged_active s.

(** The notifications dispatched between [s] and [s'] all satisfy [P]. *)
Definition dispatched_between (P : Notification → Prop) (s s' : Editor) : Prop :=
  ∃ evs, dispatched s' = dispatched s ++ evs ∧ Forall P evs.

(** The part of an object the traversals and the dependency tracker read. *)
Definition shape (o : Object3D) : option nat * list nat * gmap string ComponentInstance :=
  (parent o, children o, registered o).

(** Two stores that hold the same objects with the same [shape]. *)
Definition same_shape (h h' : gmap nat Object3D) : Prop :=
  ∀ x, shape <$> h' !! x = shape <$> h !! x.

(** A notification that is neither [sceneSet] nor a [sceneGraphChanged] that
    reached its listeners. *)
Definition silent (n : Notification) : Prop :=
  signal n ≠ sceneSet ∧ ¬ (signal n = sceneGraphChanged ∧ delivered n = true).

(** [scene_with_group] and a detached source scene 11 that holds a mesh 12. *)
Definition scene_and_source : Editor :=
  state_of ((src ← new_Object3D (plain SceneKind "source");
             m ← new_Object3D
                   (mkObject3D "meshB" "meshB" PlainObject None []
                      (Some (mkGeometry "geometry-2" "sphere")) None
                      empty_userData None None ∅);
             Object3D_add src m)
            scene_with_group).

(** A fresh editor whose scene holds a mesh 4 and an object 5 with a scene
    reference to ["scene_a"], already loaded as the child 6 of 5. *)
Definition populated_editor : Editor :=
  state_of ((mesh ← new_Object3D
                      (mkObject3D "meshA" "meshA" PlainObject None []
                         (Some (mkGeometry "geometry-1" "box"))
                         (Some (OneMaterial (mkMaterial "material-1" "red")))
                         empty_userData None None ∅);
             addObject 3 mesh None;;
             ref ← new_Object3D (plain PlainObject "reference");
             addObject 3 ref None;;
             _ ← addComponent ref SceneReferenceComponent_componentName
                   (Some {[ "src" := VStr "scene_a" ]}) false;
             loaded ← new_Object3D (plain SceneKind "loaded");
             _ ← loadSceneReference_resume (VStr "scene_a") ref loaded;
             mret tt)
            fresh_editor).

(** ** Frames *)

(** [m] leaves the observation [f] of the editor as it was, whether it
    returns or throws. *)
Definition keeps {X A} (f : Editor → X) (m : M A) : Prop :=
  ∀ s, match m s with
       | Ok _ s' | Throw _ s' => f s' = f s
       | OutOfFuel | Stuck => True
       end.

(** An observation that none of the assignments of [clear] and
    [removeObject] can change: it ignores the fields they write, and
    replacing the set stored under an existing key of the dependency map. *)
Record clear_frame {X} (f : Editor → X) : Prop := mk_clear_frame {
  frame_objects : ∀ v s, f (set_objects v s) = f s;
  frame_sceneHelpers : ∀ v s, f (set_sceneHelpers v s) = f s;
  frame_geometries : ∀ v s, f (set_geometries v s) = f s;
  frame_materials : ∀ v s, f (set_materials v s) = f s;
  frame_textures : ∀ v s, f (set_textures v s) = f s;
  frame_scripts : ∀ v s, f (set_scripts v s) = f s;
  frame_selected : ∀ v s, f (set_selected v s) = f s;
  frame_helpers : ∀ v s, f (set_helpers v s) = f s;
  frame_dispatched : ∀ v s, f (set_dispatched v s) = f s;
  frame_calls : ∀ v s, f (set_calls v s) = f s;
  frame_fileDependencies : ∀ u D D' s,
    fileDependencies s !! u = Some D →
    f (set_fileDependencies (<[u := D']> (fileDependencies s)) s) = f s
}.

(** * Further methods of the editor

    The methods below complete the part of the class that works on the
    scene graph, the selection, the scripts table and the components. *)

(** ** Arrays, continued *)

(** [array.splice(start, 0, item)]: [item] is inserted at [start]; a
    negative [start] counts from the end of the array. *)
Definition splice_insert {A} (l : list A) (start : Z) (item : A) : list A :=
  let len := Z.of_nat (length l) in
  let actualStart :=
    if (start <? 0)%Z then Z.max (len + start) 0 else Z.min start len in
  let k := Z.to_nat actualStart in
  take k l ++ item :: drop k l.

(** [array.pop()], its result dropped: the last element, if any, goes. *)
Definition pop {A} (l : list A) : list A := take (length l - 1) l.

(** ** Moving *)

(** [parentNode] and [before] are [None] when the argument is [undefined];
    a missing [parentNode] stands for the scene. *)
Definition moveObject (object : nat) (parentNode before : option nat) : M unit :=
  sc ← gets scene;
  let parentNode := default sc parentNode in
  Object3D_add parentNode object;;
  match before with
  | Some b =>
      p ← get_object parentNode;
      let index := indexOf b (children p) in
      modify_object parentNode
        (λ x, set_children (splice_insert (children x) index object) x);;
      modify_object parentNode (λ x, set_children (pop (children x)) x)
  | None => mret tt
  end;;
  dispatch sceneGraphChanged.

(** The children [parentNode.add(object)] finds in [p] once [object] is
    taken out of its former parent: those of [p] without [object] when [p]
    was that parent, those of [p] otherwise. *)
Definition siblings (obj pobj : Object3D) (object p : nat) : list nat :=
  if decide (parent obj = Some p) then remove_child object (children pobj)
  else children pobj.

(** The resource tables, the helpers, the dependencies, the registry, the
    selection, the state of the [sceneGraphChanged] channel and the logs of
    tasks and of calls to collaborators. *)
Definition tables (s : Editor) :=
  (geometries s, materials s, textures s, scripts s, helpers s, sceneHelpers s,
   fileDependencies s, components s, selected s, sceneGraphChanged_active s,
   tasks s, calls s).

(** ** Looking objects up *)

(** [object.getObjectByProperty("uuid", value)] of three.js: the object
    itself when its [uuid] is [value], else the first hit in the subtree of
    a child, the children taken in their order; [None] is [undefined]. *)
Fixpoint getObjectByProperty_uuid (fuel : nat) (value : string) (object : nat)
  : M (option nat) :=
  match fuel with
  | 0 => out_of_fuel
  | S fuel' =>
      obj ← get_object object;
      if decide (uuid obj = value) then mret (Some object)
      else
        (fix search (cs : list nat) : M (option nat) :=
           match cs with
           | [] => mret None
           | child :: cs' =>
               found ← getObjectByProperty_uuid fuel' value child;
               match found with
               | Some x => mret (Some x)
               | None => search cs'
               end
           end) (children obj)
  end.

Definition objectByUuid (fuel : nat) (value : string) : M (option nat) :=
  sc ← gets scene;
  getObjectByProperty_uuid fuel value sc.

Definition selectByUuid (fuel : nat) (value : string) : M unit :=
  sc ← gets scene;
  traverse fuel (λ child,
    c ← get_object child;
    if decide (uuid c = value) then select (Some child) else mret tt) sc.

(** Whether the object [d] of the store [h] has [value] as [uuid]. *)
Definition has_uuid (h : gmap nat Object3D) (value : string) (d : nat) : bool :=
  bool_decide (uuid <$> h !! d = Some value).

(** [select(object)] as a state change. *)
Definition mark_selected (object : option nat) (s : Editor) : Editor :=
  if decide (selected s = object) then s
  else notify (objectSelected object) (set_selected object s).

(** The callback of [selectByUuid]'s traversal as a state change. *)
Definition select_step (value : string) (s : Editor) (d : nat) : Editor :=
  if has_uuid (objects s) value d then mark_selected (Some d) s else s.

(** ** Scripts *)

(** The two script signals.  [dispatched] has no entry for them, so
    [addScript] and [removeScript] hand back the notifications they
    dispatch.  A script is known by its reference, a string here, as in the
    [scripts] table. *)
Inductive ScriptSignal :=
| scriptAdded (script : string)
| scriptRemoved (script : string).

(** The property names every plain object inherits from [Object.prototype]. *)
Definition Object_prototype_keys : list string :=
  ["constructor"; "hasOwnProperty"; "isPrototypeOf"; "propertyIsEnumerable";
   "toLocaleString"; "toString"; "valueOf"; "__proto__";
   "__defineGetter__"; "__defineSetter__"; "__lookupGetter__"; "__lookupSetter__"].

(** [this.scripts[key]].  The table is a plain object ([this.scripts = {}]):
    a key without an entry of its own still reads as something other than
    [undefined] when it names a member of [Object.prototype]. *)
Inductive ScriptsRead :=
| OwnScripts (l : list string)
| InheritedMember
| NoScripts.

Definition scripts_read (ss : gmap string (list string)) (key : string) : ScriptsRead :=
  match ss !! key with
  | Some l => OwnScripts l
  | None => if decide (key ∈ Object_prototype_keys) then InheritedMember else NoScripts
  end.

(** An inherited member is not [undefined], so no list is created for it,
    and it has no [push]: the call throws before anything is dispatched. *)
Definition addScript (object : nat) (script : string) : M (list ScriptSignal) :=
  obj ← get_object object;
  ss ← gets scripts;
  match scripts_read ss (uuid obj) with
  | NoScripts => modify (λ s, set_scripts (<[uuid obj := []]> (scripts s)) s)
  | _ => mret tt
  end;;
  ss ← gets scripts;
  match scripts_read ss (uuid obj) with
  | OwnScripts _ =>
      modify (λ s, set_scripts (alter (λ l, l ++ [script]) (uuid obj) (scripts s)) s)
  | _ => throw TypeError
  end;;
  mret [scriptAdded script].

(** An inherited member passes the test against [undefined] and has no
    [indexOf]. *)
Definition removeScript (object : nat) (script : string) : M (list ScriptSignal) :=
  obj ← get_object object;
  ss ← gets scripts;
  match scripts_read ss (uuid obj) with
  | NoScripts => mret []
  | InheritedMember => throw TypeError
  | OwnScripts l =>
      let index := indexOf script l in
      (if (index =? -1)%Z then mret tt
       else modify (λ s, set_scripts
                           (alter (λ l, splice l index 1) (uuid obj) (scripts s)) s));;
      mret [scriptRemoved script]
  end.

(** [editor_with_mesh] whose mesh 4 was given the script ["spin"]. *)
Definition editor_with_script : Editor :=
  state_of (addScript 4 "spin" editor_with_mesh).

(** A fresh editor and a detached object 4 whose [uuid] is ["constructor"];
    an [uuid] is an assignable string, which [setScene] copies from the
    scene it is given. *)
Definition editor_with_constructor : Editor :=
  state_of ((_ ← new_Object3D
                   (mkObject3D "constructor" "node" PlainObject None [] None None
                      empty_userData None None ∅);
             mret tt)
            fresh_editor).

(** The body of [for (const key in scripts)] in [toJSON]: the entry of
    [key] is deleted when its list is empty or when the scene [sc] holds no
    object whose [uuid] is [key]. *)
Definition clean_script (fuel : nat) (sc : nat) (key : string) : M unit :=
  cur ← gets scripts;
  match cur !! key with
  | Some script =>
      unused ← (if decide (script = []) then mret true
                else
                  found ← getObjectByProperty_uuid fuel key sc;
                  mret (bool_decide (found = None)));
      if unused : bool
      then modify (λ s, set_scripts (delete key (scripts s)) s)
      else mret tt
  | None => throw TypeError
  end.

(** [toJSON]: the clean-up of the scripts table, then the document.  The
    class never assigns [this.config], so building the document stops at
    [this.config.getKey(...)] with a [TypeError] and no value is returned.
    [for (const key in scripts)] visits every key once; an iteration reads
    and deletes its own key only, so the order of the visits does not show
    and the keys are taken as the table lists them. *)
Definition toJSON (fuel : nat) : M Empty_set :=
  sc ← gets scene;
  ss ← gets scripts;
  forM_ (map_to_list ss).*1 (clean_script fuel sc);;
  throw TypeError.

(** An entry of the scripts table that [toJSON] keeps: its list is not
    empty and its key is the [uuid] of an object among [l]. *)
Definition script_in_use (h : gmap nat Object3D) (l : list nat)
    (entry : string * list string) : Prop :=
  entry.2 ≠ [] ∧ Exists (λ d, uuid <$> h !! d = Some entry.1) l.

#[global] Instance script_in_use_dec h l entry : Decision (script_in_use h l entry).
Proof. unfold script_in_use. apply _. Defined.

(** One visit of [toJSON]'s loop as a state change. *)
Definition clean_step (h : gmap nat Object3D) (l : list nat) (s : Editor)
    (key : string) : Editor :=
  match scripts s !! key with
  | Some script =>
      if decide (script_in_use h l (key, script)) then s
      else set_scripts (delete key (scripts s)) s
  | None => s
  end.

(** ** Duplicating the selection *)

(** [this.duplicateObject(this.selected)]: with nothing selected,
    [_cloneAndInflate] calls [clone] on [null]. *)
Definition duplicateSelectedObject (fuel : nat) : M unit :=
  sel ← gets selected;
  match sel with
  | Some object => duplicateObject fuel object
  | None => throw TypeError
  end.

(** ** The scene root after [setScene]

    The assignments that open [setScene], for a source other than the live
    root [x]: [uuid], [name] and a JSON copy of [userData] are taken from
    the source, [background] and [fog] only when the source has them. *)
Definition adopt (src x : Object3D) : Object3D :=
  let x1 := set_name (name src) (set_uuid (uuid src) x) in
  let x2 := match background src with
            | Some b => set_background (Some b) x1
            | None => x1
            end in
  let x3 := match fog src with
            | Some f => set_fog (Some f) x2
            | None => x2
            end in
  set_userData (json_userData (userData src)) x3.

(** ** Asynchronous methods *)

(** [m] never throws to its caller, and whenever it returns, the state it
    started from and the state it returns with are related by [P]. *)
Definition settles {A} (m : M A) (P : Editor → Editor → Prop) : Prop :=
  ∀ s, match m s with
       | Ok _ s' => P s s'
       | Throw _ _ => False
       | OutOfFuel | Stuck => True
       end.

(** ** Reading a property of a component *)

(** What [getComponentProperty] can return: a primitive value, the [props]
    object of a generic record, or a member that a plain record inherits
    from [Object.prototype]. *)
Inductive PropertyRead :=
| ReadValue (v : Value)
| ReadProps (p : Props)
| ReadInherited (key : string).

(** [record[key]] on a generic record [{ name, props, shouldSave }]. *)
Definition generic_field (c : GenericComponent) (key : string) : PropertyRead :=
  if decide (key = "name") then ReadValue (VStr (gc_name c))
  else if decide (key = "props") then
    match gc_props c with
    | Some p => ReadProps p
    | None => ReadValue VUndefined
    end
  else if decide (key = "shouldSave") then ReadValue (VBool (gc_shouldSave c))
  else if decide (key ∈ Object_prototype_keys) then ReadInherited key
  else ReadValue VUndefined.

(** On the registered path [getComponent] answers with an instance or with
    nothing, on the other path with a generic record or with nothing; the
    remaining combinations cannot occur. *)
Definition getComponentProperty (object : nat) (componentName propertyName : string)
  : M PropertyRead :=
  cs ← gets components;
  match cs !! componentName with
  | Some _ =>
      component ← getComponent object componentName;
      match component with
      | Some c => v ← component_getProperty c propertyName; mret (ReadValue v)
      | None => throw TypeError
      end
  | None =>
      component ← getComponent object componentName;
      match component with
      | Some (GenericComponentRef c) => mret (generic_field c propertyName)
      | Some (RegisteredComponent _) => stuck
      | None => throw TypeError
      end
  end.

(** [editor_with_mesh] whose mesh 4 carries the generic component ["tag"]
    with the property [color]. *)
Definition editor_with_tag : Editor :=
  state_of (addComponent 4 "tag" (Some {[ "color" := VStr "red" ]}) false
              editor_with_mesh).

(** * Properties *)

Ltac munfold :=
  unfold mbind, M_bind, mret, M_ret, gets, modify, throw, stuck, out_of_fuel,
    get_object, modify_object, fresh_id, dispatch in *.

Lemma bind_eq {A B} (m : M A) (k : A → M B) (s : Editor) :
  (m ≫= k) s =
  match m s with
  | Ok a s' => k a s'
  | Throw e s' => Throw e s'
  | OutOfFuel => OutOfFuel
  | Stuck => Stuck
  end.
Proof. reflexivity. Qed.

Lemma bind_Ok {A B} (m : M A) (k : A → M B) s a s' :
  m s = Ok a s' → (m ≫= k) s = k a s'.
Proof. intros H. rewrite bind_eq, H. reflexivity. Qed.

(** ** registerComponent *)

(** C7.  Registering a class whose type name is already in the registry
    throws an error and leaves the editor, hence the registry and the first
    registration, as they were; registering a new type name adds the mapping
    without error, after which a second class of that name is refused and
    the first one stays. *)
Theorem registerComponent_spec (cls : ComponentClass) (s : Editor) :
  (∀ first, components s !! componentName cls = Some first →
     ∃ msg s', registerComponent cls s = Throw (Error msg) s' ∧ s' = s ∧
               components s' !! componentName cls = Some first) ∧
  (components s !! componentName cls = None →
     ∃ s', registerComponent cls s = Ok tt s' ∧
           components s' = <[componentName cls := cls]> (components s) ∧
           ∀ cls', componentName cls' = componentName cls →
             ∃ msg, registerComponent cls' s' = Throw (Error msg) s' ∧
                    components s' !! componentName cls = Some cls).
Proof.
  split.
  - intros first Hfirst. unfold registerComponent. munfold. rewrite Hfirst. eauto.
  - intros Hnone. unfold registerComponent. munfold. rewrite Hnone.
    eexists; split; [reflexivity|]. simpl. split; [reflexivity|].
    intros cls' Hname. rewrite Hname. rewrite lookup_insert_eq. eauto.
Qed.

Lemma registerComponent_spec_witness :
  (∃ msg s', registerComponent SceneReferenceComponent fresh_editor = Throw (Error msg) s' ∧
             s' = fresh_editor ∧
             components s' !! componentName SceneReferenceComponent
               = Some SceneReferenceComponent) ∧
  (∃ s', registerComponent SceneReferenceComponent constructor_fields = Ok tt s' ∧
         components s' = <[componentName SceneReferenceComponent := SceneReferenceComponent]>
                           (components constructor_fields) ∧
         ∀ cls', componentName cls' = componentName SceneReferenceComponent →
           ∃ msg, registerComponent cls' s' = Throw (Error msg) s' ∧
                  components s' !! componentName SceneReferenceComponent
                    = Some SceneReferenceComponent).
Proof.
  split.
  - apply (proj1 (registerComponent_spec SceneReferenceComponent fresh_editor)).
    vm_compute. reflexivity.
  - apply (proj2 (registerComponent_spec SceneReferenceComponent constructor_fields)).
    vm_compute. reflexivity.
Defined.

(** ** getComponent *)

(** C9.  On a node whose [userData] has no [_components] list, reading a
    component of an unregistered type name throws a [TypeError] instead of
    returning nothing. *)
Theorem getComponent_generic_without_list (s : Editor) (object : nat)
    (obj : Object3D) (T : string) :
  objects s !! object = Some obj →
  components s !! T = None →
  ud_components (userData obj) = None →
  getComponent object T s = Throw TypeError s.
Proof.
  intros Hobj Hreg Hlist. unfold getComponent. munfold.
  rewrite Hreg, Hobj, Hlist. reflexivity.
Qed.

Lemma getComponent_generic_without_list_witness :
  getComponent 2 "Script" fresh_editor = Throw TypeError fresh_editor.
Proof.
  eapply (getComponent_generic_without_list fresh_editor 2 _ "Script");
    vm_compute; reflexivity.
Defined.

(** Once a list exists, the same read returns the first record of that name
    or nothing. *)
Lemma getComponent_generic_with_list (s : Editor) (object : nat)
    (obj : Object3D) (T : string) (l : list GenericComponent) :
  objects s !! object = Some obj →
  components s !! T = None →
  ud_components (userData obj) = Some l →
  getComponent object T s =
    Ok (GenericComponentRef <$> find (λ c, bool_decide (gc_name c = T)) l) s.
Proof.
  intros Hobj Hreg Hlist. unfold getComponent. munfold.
  rewrite Hreg, Hobj, Hlist. reflexivity.
Qed.

(** ** removeComponent *)

Lemma findIndex_ge_m1 {A} (p : A → bool) (l : list A) : (-1 ≤ findIndex p l)%Z.
Proof.
  induction l as [|x l IH]; simpl; [lia|].
  destruct (p x); [lia|]. destruct (Z.ltb_spec (findIndex p l) 0); lia.
Qed.

Lemma findIndex_none {A} (p : A → bool) (l : list A) :
  Forall (λ x, p x = false) l → findIndex p l = (-1)%Z.
Proof.
  induction 1 as [|x l Hx _ IH]; simpl; [reflexivity|].
  rewrite Hx, IH. reflexivity.
Qed.

Lemma findIndex_first {A} (p : A → bool) (l1 l2 : list A) (x : A) :
  Forall (λ y, p y = false) l1 → p x = true →
  findIndex p (l1 ++ x :: l2) = Z.of_nat (length l1).
Proof.
  intros Hl1 Hx. induction Hl1 as [|y l1 Hy _ IH]; simpl.
  - rewrite Hx. reflexivity.
  - rewrite Hy, IH. destruct (Z.ltb_spec (Z.of_nat (length l1)) 0); lia.
Qed.

Lemma splice_last {A} (l : list A) (x : A) : splice (l ++ [x]) (-1) 1 = l.
Proof.
  unfold splice. rewrite length_app. simpl.
  replace (Z.to_nat _) with (length l) by (simpl; lia).
  rewrite take_app_length.
  rewrite drop_ge by (rewrite length_app; simpl; lia).
  apply app_nil_r.
Qed.

Lemma splice_middle {A} (l1 l2 : list A) (x : A) :
  splice (l1 ++ x :: l2) (Z.of_nat (length l1)) 1 = l1 ++ l2.
Proof.
  unfold splice. rewrite length_app. simpl.
  replace (Z.to_nat _) with (length l1).
  2:{ destruct (Z.ltb_spec (Z.of_nat (length l1)) 0); lia. }
  rewrite take_app_length.
  replace (length l1 + 1) with (length (l1 ++ [x])) by (rewrite length_app; simpl; lia).
  replace (l1 ++ x :: l2) with ((l1 ++ [x]) ++ l2) by (rewrite <- app_assoc; reflexivity).
  rewrite drop_app_length. reflexivity.
Qed.

(** The generic path of [removeComponent], whatever the list holds. *)
Lemma removeComponent_generic (s : Editor) (object : nat) (obj : Object3D)
    (T : string) (l : list GenericComponent) :
  objects s !! object = Some obj →
  components s !! T = None →
  ud_components (userData obj) = Some l →
  ∃ s', removeComponent object T s = Ok tt s' ∧
        component_list s' object =
          Some (splice l (findIndex (λ c, bool_decide (gc_name c = T)) l) 1).
Proof.
  intros Hobj Hreg Hlist. unfold removeComponent. munfold.
  rewrite Hreg, Hobj, Hlist, Hobj. eexists; split; [reflexivity|].
  unfold component_list. simpl. rewrite lookup_insert_eq. reflexivity.
Qed.

(** When the list holds a record named [T], the first such record is
    removed and the others keep their order. *)
Lemma removeComponent_generic_present (s : Editor) (object : nat) (obj : Object3D)
    (T : string) (l1 l2 : list GenericComponent) (c : GenericComponent) :
  objects s !! object = Some obj →
  components s !! T = None →
  ud_components (userData obj) = Some (l1 ++ c :: l2) →
  Forall (λ x, gc_name x ≠ T) l1 → gc_name c = T →
  ∃ s', removeComponent object T s = Ok tt s' ∧
        component_list s' object = Some (l1 ++ l2).
Proof.
  intros Hobj Hreg Hlist Hl1 Hc.
  destruct (removeComponent_generic s object obj T _ Hobj Hreg Hlist) as (s' & Hrun & Hres).
  exists s'. split; [exact Hrun|]. rewrite Hres. f_equal.
  rewrite findIndex_first.
  - apply splice_middle.
  - eapply Forall_impl; [exact Hl1|]. intros x Hx. simpl in Hx.
    apply bool_decide_eq_false. exact Hx.
  - apply bool_decide_eq_true. exact Hc.
Qed.

(** When the list holds no record named [T], [findIndex] answers [-1] and
    [splice(-1, 1)] removes the last record. *)
Lemma removeComponent_generic_absent (s : Editor) (object : nat) (obj : Object3D)
    (T : string) (l : list GenericComponent) (c : GenericComponent) :
  objects s !! object = Some obj →
  components s !! T = None →
  ud_components (userData obj) = Some (l ++ [c]) →
  Forall (λ x, gc_name x ≠ T) (l ++ [c]) →
  ∃ s', removeComponent object T s = Ok tt s' ∧
        component_list s' object = Some l.
Proof.
  intros Hobj Hreg Hlist Hl.
  destruct (removeComponent_generic s object obj T _ Hobj Hreg Hlist) as (s' & Hrun & Hres).
  exists s'. split; [exact Hrun|]. rewrite Hres. f_equal.
  rewrite findIndex_none.
  - apply splice_last.
  - eapply Forall_impl; [exact Hl|]. intros x Hx. simpl in Hx.
    apply bool_decide_eq_false. exact Hx.
Qed.

(** C3.  A node whose list is [[{name: "a"}]], asked to remove the
    unregistered name ["b"]: the list holds no such record, yet the record
    ["a"] is removed and the list ends empty. *)
Theorem removeComponent_absent_name_removes_last :
  components (with_generic_components ["a"]) !! "b" = None ∧
  component_list (with_generic_components ["a"]) 4
    = Some [mkGenericComponent "a" None true] ∧
  returns (removeComponent 4 "b" (with_generic_components ["a"])) = true ∧
  component_list (state_of (removeComponent 4 "b" (with_generic_components ["a"]))) 4
    = Some [].
Proof. vm_compute. repeat split; reflexivity. Qed.

(** ** addHelper *)

(** The guard of [addHelper] looks the helper up under the id of the object
    being visited: an object that has an entry of its own is skipped. *)
Lemma addHelper_guard_object (s : Editor) (object selectionRoot : nat) (h : Helper) :
  helpers s !! object = Some h →
  addHelper object selectionRoot s = Ok tt s.
Proof. intros Hh. unfold addHelper. munfold. rewrite Hh. reflexivity. Qed.

(** C4.  A group 4 with two point lights 5 and 6, added with [addObject]: the
    traversal calls [addHelper(5, 4)] and [addHelper(6, 4)].  After the first
    call the selection root 4 has a helper entry; the second call, with the
    same selection root, still creates a helper, puts it in the overlay scene
    and replaces the entry of 4, because the guard looked under 6. *)
Theorem addHelper_same_selectionRoot_replaces :
  let h1 := mkHelper 7 PointLightHelper 5 8 4 in
  let h2 := mkHelper 9 PointLightHelper 6 10 4 in
  let s1 := state_of (addHelper 5 4 group_of_two_lights) in
  let s2 := state_of (addHelper 6 4 s1) in
  let s3 := state_of (addObject 3 4 None group_of_two_lights) in
  (helpers s1 !! 4 = Some h1 ∧ sceneHelpers s1 = [h1]) ∧
  (returns (addHelper 6 4 s1) = true ∧
   helpers s2 !! 4 = Some h2 ∧ sceneHelpers s2 = [h1; h2]) ∧
  (returns (addObject 3 4 None group_of_two_lights) = true ∧
   helpers s3 !! 4 = Some h2 ∧ helpers s3 !! 5 = None ∧ helpers s3 !! 6 = None ∧
   sceneHelpers s3 = [h1; h2]).
Proof. vm_compute. repeat split; reflexivity. Qed.

(** ** _cloneAndInflate and duplicateObject *)

(** The loop of [_cloneAndInflate] over [clone.userData._components] never
    ends once it meets a generic record: [addComponent] pushes a record of
    the same name on the array the loop is walking. *)
Lemma for_of_components_diverges (fuel : nat) :
  ∀ (clone i : nat) (s : Editor) (obj : Object3D) (l : list GenericComponent),
    objects s !! clone = Some obj →
    ud_components (userData obj) = Some l →
    i < length l →
    Forall (λ c, components s !! gc_name c = None) l →
    for_of fuel (components_array clone) i
      (λ component,
         _ ← addComponent clone (gc_name component) (gc_props component) false;
         mret tt) s = OutOfFuel.
Proof.
  induction fuel as [|fuel IH]; intros clone i s obj l Hobj Hl Hi Hgen; [reflexivity|].
  simpl. rewrite bind_eq. unfold components_array at 1. munfold.
  rewrite Hobj, Hl.
  destruct (lookup_lt_is_Some_2 l i Hi) as [c Hc]. rewrite Hc.
  assert (Hcgen : components s !! gc_name c = None).
  { eapply (proj1 (Forall_forall _ _) Hgen), list_elem_of_lookup_2, Hc. }
  unfold addComponent at 1. munfold. rewrite Hcgen, Hobj.
  eapply IH.
  - simpl. apply lookup_insert_eq.
  - simpl. rewrite Hl. reflexivity.
  - rewrite length_app. simpl. lia.
  - simpl. apply Forall_app. split; [exact Hgen|].
    constructor; [exact Hcgen|constructor].
Qed.

(** C1.  On every node whose list of generic components is not empty, in
    particular on one that carries exactly two, [_cloneAndInflate] and
    [duplicateObject] do not return, whatever the fuel: no clone is ever
    produced. *)
Theorem duplicateObject_generic_diverges (fuel : nat) (s : Editor) (object : nat)
    (obj : Object3D) (c1 c2 : GenericComponent) :
  objects s !! object = Some obj →
  ud_components (userData obj) = Some [c1; c2] →
  components s !! gc_name c1 = None →
  components s !! gc_name c2 = None →
  (∀ root, _cloneAndInflate fuel object root s = OutOfFuel) ∧
  duplicateObject fuel object s = OutOfFuel.
Proof.
  intros Hobj Hl H1 H2.
  assert (Hclone : ∀ root, _cloneAndInflate fuel object root s = OutOfFuel).
  { intros root. destruct fuel as [|fuel]; [reflexivity|].
    simpl. unfold Object3D_clone_shallow. munfold. rewrite Hobj. simpl.
    rewrite lookup_insert_eq. simpl. rewrite Hl. simpl.
    erewrite for_of_components_diverges; [reflexivity| | | |].
    - simpl. apply lookup_insert_eq.
    - simpl. rewrite Hl. reflexivity.
    - simpl. lia.
    - simpl. repeat constructor; assumption. }
  split; [exact Hclone|].
  unfold duplicateObject. rewrite bind_eq, Hclone. reflexivity.
Qed.

Lemma duplicateObject_generic_diverges_witness :
  (∀ root, _cloneAndInflate 1000 4 root (with_generic_components ["a"; "b"]) = OutOfFuel) ∧
  duplicateObject 1000 4 (with_generic_components ["a"; "b"]) = OutOfFuel.
Proof.
  eapply (duplicateObject_generic_diverges 1000 (with_generic_components ["a"; "b"]) 4);
    vm_compute; reflexivity.
Defined.

(** ** getComponent and removeSceneRefDependency on the registered path *)

Lemma getComponent_registered (s : Editor) (d : nat) (T : string)
    (cls : ComponentClass) :
  components s !! T = Some cls →
  is_Some (objects s !! d) →
  getComponent d T s = Ok (RegisteredComponent <$> carried (objects s) cls d) s.
Proof.
  intros Hreg [od Hod]. unfold getComponent, class_getComponent, carried. munfold.
  rewrite Hreg, Hod. reflexivity.
Qed.

Lemma removeSceneRefDependency_release (s : Editor) (d : nat) (cls : ComponentClass) :
  components s !! SceneReferenceComponent_componentName = Some cls →
  is_Some (objects s !! d) →
  removeSceneRefDependency d s = Ok tt (release cls d s).
Proof.
  intros Hreg Hd. unfold removeSceneRefDependency.
  rewrite (bind_Ok _ _ _ _ _ (getComponent_registered s d _ cls Hreg Hd)).
  unfold release. destruct (carried (objects s) cls d) as [c|]; simpl; [|reflexivity].
  munfold. simpl. destruct (fileDependencies s !! getProperty c "src"); reflexivity.
Qed.

Lemma release_objects cls d s : objects (release cls d s) = objects s.
Proof.
  unfold release. destruct (carried _ _ _); [|reflexivity].
  destruct (_ !! _); reflexivity.
Qed.

Lemma release_components cls d s : components (release cls d s) = components s.
Proof.
  unfold release. destruct (carried _ _ _); [|reflexivity].
  destruct (_ !! _); reflexivity.
Qed.

Lemma release_tasks cls d s : tasks (release cls d s) = tasks s.
Proof.
  unfold release. destruct (carried _ _ _); [|reflexivity].
  destruct (_ !! _); reflexivity.
Qed.

(** Releasing [d] leaves the set stored under any key in place, with at
    most the entry of [d] turned into a hole. *)
Lemma release_lookup cls d s (u : Value) (D : JsSet) :
  fileDependencies s !! u = Some D →
  ∃ D', fileDependencies (release cls d s) !! u = Some D' ∧
        (D' = D ∨ D' = set_delete d D).
Proof.
  intros HD. unfold release. destruct (carried _ _ _) as [c|]; [|eauto].
  destruct (fileDependencies s !! getProperty c "src") as [deps|] eqn:Hdeps; [|eauto].
  simpl. destruct (decide (getProperty c "src" = u)) as [Heq|Hne].
  - subst u. rewrite lookup_insert_eq. rewrite HD in Hdeps. injection Hdeps as <-. eauto.
  - rewrite lookup_insert_ne by exact Hne. eauto.
Qed.

Lemma set_delete_length d (D : JsSet) : length (set_delete d D) = length D.
Proof. unfold set_delete. apply length_fmap. Qed.

Lemma set_delete_absent d (D : JsSet) : Some d ∉ D → set_delete d D = D.
Proof.
  unfold set_delete. induction D as [|e D IH]; intros Hd; [reflexivity|].
  rewrite fmap_cons. rewrite IH by (intros H; apply Hd; right; exact H).
  destruct (decide (e = Some d)) as [->|]; [|reflexivity].
  exfalso. apply Hd. left.
Qed.

Lemma set_delete_drop d (D : JsSet) k :
  Some d ∉ drop k D → drop k (set_delete d D) = drop k D.
Proof.
  intros Hd. unfold set_delete. rewrite <- fmap_drop.
  apply (set_delete_absent d (drop k D) Hd).
Qed.

Lemma set_delete_not_member d (D : JsSet) : Some d ∉ set_delete d D.
Proof.
  unfold set_delete. intros H. apply list_elem_of_fmap in H as (e & He & _).
  destruct (decide (e = Some d)); congruence.
Qed.

Lemma set_members_cons_Some d (D : JsSet) : set_members (Some d :: D) = d :: set_members D.
Proof. reflexivity. Qed.

Lemma set_members_cons_None (D : JsSet) : set_members (None :: D) = set_members D.
Proof. reflexivity. Qed.

Lemma elem_of_set_members d (D : JsSet) : d ∈ set_members D ↔ Some d ∈ D.
Proof.
  unfold set_members. rewrite list_elem_of_omap. split.
  - intros (e & He & Hid). simpl in Hid. subst e. exact He.
  - intros H. exists (Some d). split; [exact H|reflexivity].
Qed.

(** ** onFileChanged *)

(** The loop of [onFileChanged] from position [i] on: every dependent still
    to be visited gets exactly one reload, chosen by whether it carries a
    scene-reference component.  Releasing the visited dependent may turn its
    own entry into a hole and touches no later entry. *)
Lemma for_of_dependencies_reloads (cls : ComponentClass) (url : Value) (fuel : nat) :
  ∀ (i : nat) (s : Editor) (D : JsSet),
    components s !! SceneReferenceComponent_componentName = Some cls →
    fileDependencies s !! url = Some D →
    NoDup (set_members (drop i D)) →
    (∀ d, d ∈ set_members (drop i D) → is_Some (objects s !! d)) →
    i ≤ length D < fuel + i →
    ∃ s',
      for_of_dependencies fuel url i
        (λ dependency,
           c ← getComponent dependency SceneReferenceComponent_componentName;
           match c with
           | Some _ => loadSceneReference url dependency
           | None => reloadScene
           end) s = Ok tt s' ∧
      objects s' = objects s ∧
      tasks s' = tasks s ++
                 map (λ d, (reload_by_code (objects s) cls url d, Pending))
                     (set_members (drop i D)).
Proof.
  induction fuel as [|fuel IH]; intros i s D Hreg HD Hnodup Halloc Hlen.
  - exfalso. lia.
  - simpl. munfold. rewrite HD.
    destruct (D !! i) as [e|] eqn:Hi.
    1: pose proof (lookup_lt_Some _ _ _ Hi) as Hlt.
    + rewrite (drop_S _ _ _ Hi) in Hnodup, Halloc |- *.
      destruct e as [d|].
      * rewrite set_members_cons_Some in Hnodup, Halloc |- *.
        apply NoDup_cons in Hnodup as [Hfresh Hnodup].
        assert (Hd : is_Some (objects s !! d)) by (apply Halloc; left).
        rewrite (getComponent_registered s d _ cls Hreg Hd).
        assert (Hlater : Some d ∉ drop (S i) D).
        { intros H. apply Hfresh. apply elem_of_set_members. exact H. }
        rewrite map_cons. unfold reload_by_code at 1.
        destruct (carried (objects s) cls d) as [c|] eqn:Hc; simpl.
        -- unfold loadSceneReference, async.
           rewrite (removeSceneRefDependency_release s d cls Hreg Hd).
           destruct (release_lookup cls d s url D HD) as (D' & HD' & Hcase).
           edestruct (IH (S i)
                        (set_tasks (tasks (release cls d s) ++
                                    [(LoadSceneReferenceTask url d, Pending)])
                                   (release cls d s)) D')
             as (s' & Hrun & Hobjs & Htasks).
           ++ simpl. rewrite release_components. exact Hreg.
           ++ simpl. exact HD'.
           ++ destruct Hcase as [->| ->]; [exact Hnodup|].
              rewrite set_delete_drop by exact Hlater. exact Hnodup.
           ++ simpl. rewrite release_objects. intros d' Hd'. apply Halloc. right.
              destruct Hcase as [->| ->]; [exact Hd'|].
              rewrite set_delete_drop in Hd' by exact Hlater. exact Hd'.
           ++ destruct Hcase as [->| ->]; [lia|]. rewrite set_delete_length. lia.
           ++ exists s'. split; [exact Hrun|]. simpl in Hobjs, Htasks.
              rewrite release_objects in Hobjs, Htasks. rewrite release_tasks in Htasks.
              split; [exact Hobjs|]. rewrite Htasks, <- app_assoc. simpl.
              destruct Hcase as [->| ->]; [reflexivity|].
              rewrite set_delete_drop by exact Hlater. reflexivity.
        -- unfold reloadScene, async. munfold.
           edestruct (IH (S i) (set_tasks (tasks s ++ [(ReloadSceneTask, Pending)]) s) D)
             as (s' & Hrun & Hobjs & Htasks).
           ++ exact Hreg.
           ++ exact HD.
           ++ exact Hnodup.
           ++ intros d' Hd'. apply Halloc. right. exact Hd'.
           ++ lia.
           ++ exists s'. split; [exact Hrun|]. simpl in Hobjs, Htasks.
              split; [exact Hobjs|]. rewrite Htasks, <- app_assoc. reflexivity.
      * rewrite set_members_cons_None in Hnodup, Halloc |- *.
        apply (IH (S i) s D Hreg HD Hnodup Halloc). lia.
    + exists s. rewrite drop_ge by (apply lookup_ge_None; exact Hi).
      simpl. rewrite app_nil_r. auto.
Qed.

(** C2, as the code has it.  With the scene-reference class registered, a
    change of [url] starts one reload per dependent of [url], in the order
    of the set: [loadSceneReference(url, d)] when [d] carries a
    scene-reference component, whatever its [src], and [reloadScene()] when
    it carries none.  A change of an id without an entry starts nothing and
    throws nothing. *)
Theorem onFileChanged_reloads (fuel : nat) (s : Editor) (url : Value) :
  (∀ cls D,
     components s !! SceneReferenceComponent_componentName = Some cls →
     fileDependencies s !! url = Some D →
     NoDup (set_members D) →
     (∀ d, d ∈ set_members D → is_Some (objects s !! d)) →
     length D < fuel →
     ∃ s', onFileChanged fuel url s = Ok tt s' ∧
           objects s' = objects s ∧
           tasks s' = tasks s ++
                      map (λ d, (reload_by_code (objects s) cls url d, Pending))
                          (set_members D)) ∧
  (fileDependencies s !! url = None → onFileChanged fuel url s = Ok tt s).
Proof.
  split.
  - intros cls D Hreg HD Hnodup Halloc Hlen.
    unfold onFileChanged. rewrite bind_eq. unfold gets at 1. rewrite HD.
    apply (for_of_dependencies_reloads cls url fuel 0 s D Hreg HD); try assumption. lia.
  - intros Hnone. unfold onFileChanged. munfold. rewrite Hnone. reflexivity.
Qed.

Lemma onFileChanged_reloads_witness :
  (∃ s', onFileChanged 2 (VStr "scene_a") document_with_reference = Ok tt s' ∧
         objects s' = objects document_with_reference ∧
         tasks s' = tasks document_with_reference ++
                    map (λ d, (reload_by_code (objects document_with_reference)
                                 SceneReferenceComponent (VStr "scene_a") d, Pending))
                        (set_members [Some 2])) ∧
  onFileChanged 2 (VStr "scene_c") document_with_reference = Ok tt document_with_reference.
Proof.
  split.
  - apply (proj1 (onFileChanged_reloads 2 document_with_reference (VStr "scene_a"))
             SceneReferenceComponent [Some 2]).
    + vm_compute. reflexivity.
    + vm_compute. reflexivity.
    + repeat constructor. intros H. inversion H.
    + intros d Hd. apply list_elem_of_singleton in Hd. subst d.
      vm_compute. eexists. reflexivity.
    + simpl. lia.
  - apply (proj2 (onFileChanged_reloads 2 document_with_reference (VStr "scene_c"))).
    vm_compute. reflexivity.
Defined.

(** C2, counterexample.  The root 2 of [document_with_reference] depends on
    ["scene_a"] and carries a scene reference to ["scene_b"].  The
    specification words ask for a full reload when ["scene_a"] changes; the
    code starts [loadSceneReference("scene_a", 2)]. *)
Lemma onFileChanged_ignores_src :
  fileDependencies document_with_reference !! VStr "scene_a" = Some [Some 2] ∧
  (λ c, getProperty c "src") <$>
    carried (objects document_with_reference) SceneReferenceComponent 2
    = Some (VStr "scene_b") ∧
  reload_by_spec (objects document_with_reference) SceneReferenceComponent
    (VStr "scene_a") 2 = ReloadSceneTask ∧
  returns (onFileChanged 2 (VStr "scene_a") document_with_reference) = true ∧
  tasks (state_of (onFileChanged 2 (VStr "scene_a") document_with_reference))
    = tasks document_with_reference ++
      [(LoadSceneReferenceTask (VStr "scene_a") 2, Pending)].
Proof. vm_compute. repeat split; reflexivity. Qed.

(** ** Running the monad *)

Lemma bind_ext {A B} (m : M A) (k1 k2 : A → M B) (s : Editor) :
  (∀ a s', m s = Ok a s' → k1 a s' = k2 a s') →
  (m ≫= k1) s = (m ≫= k2) s.
Proof.
  intros H. rewrite !bind_eq. destruct (m s); auto.
Qed.

Lemma bind_assoc {A B C} (m : M A) (k1 : A → M B) (k2 : B → M C) (s : Editor) :
  ((m ≫= k1) ≫= k2) s = (m ≫= (λ a, k1 a ≫= k2)) s.
Proof. rewrite !bind_eq. destruct (m s); reflexivity. Qed.

Lemma forM_app {A} (l1 l2 : list A) (body : A → M unit) (s : Editor) :
  forM_ (l1 ++ l2) body s = (forM_ l1 body;; forM_ l2 body) s.
Proof.
  revert s. induction l1 as [|x l1 IH]; intros s; simpl.
  - reflexivity.
  - rewrite bind_assoc. apply bind_ext. intros _ s' _. apply IH.
Qed.

(** A loop whose body is a state change [step] on the states satisfying the
    invariant [P] is the fold of [step]. *)
Lemma forM_fold (body : nat → M unit) (step : Editor → nat → Editor)
    (P : Editor → Prop) (l : list nat) :
  ∀ s,
    P s →
    (∀ d s, d ∈ l → P s → body d s = Ok tt (step s d) ∧ P (step s d)) →
    forM_ l body s = Ok tt (foldl step s l) ∧ P (foldl step s l).
Proof.
  induction l as [|d l IH]; intros s HP Hbody; simpl.
  - auto.
  - destruct (Hbody d s) as [Hrun HP']; [left|exact HP|].
    rewrite (bind_Ok _ _ _ _ _ Hrun). apply IH; [exact HP'|].
    intros d' s' Hd'. apply Hbody. right. exact Hd'.
Qed.

Lemma forM_objects (body : nat → M unit) (l : list nat) :
  (∀ d s s', body d s = Ok tt s' → objects s' = objects s) →
  ∀ s s', forM_ l body s = Ok tt s' → objects s' = objects s.
Proof.
  intros Hbody. induction l as [|d l IH]; intros s s' Hrun; simpl in Hrun.
  - injection Hrun as <-. reflexivity.
  - rewrite bind_eq in Hrun. destruct (body d s) as [[] s1| | |] eqn:Hd; try discriminate.
    rewrite (IH _ _ Hrun). eapply Hbody, Hd.
Qed.

(** ** traverse *)

Lemma mapM_Some_Forall2 {A B} (f : A → option B) (l : list A) (k : list B) :
  mapM f l = Some k ↔ Forall2 (λ x y, f x = Some y) l k.
Proof. apply mapM_Some. Qed.

(** A traversal whose callback leaves the store alone visits the nodes of the
    pre-order listing, each when the ones before it are done. *)
Lemma traverse_forM (callback : nat → M unit) :
  (∀ d s s', callback d s = Ok tt s' → objects s' = objects s) →
  ∀ (fuel : nat) (o : nat) (s : Editor) (l : list nat),
    subtree fuel (objects s) o = Some l →
    traverse fuel callback o s = forM_ l callback s.
Proof.
  intros Hcb. induction fuel as [|fuel IH]; intros o s l Hl; [discriminate|].
  simpl in Hl. destruct (objects s !! o) as [obj|] eqn:Hobj; [|discriminate].
  simpl in Hl.
  destruct (mapM (subtree fuel (objects s)) (children obj)) as [rest|] eqn:Hrest;
    [|discriminate].
  simpl in Hl. injection Hl as <-. simpl.
  apply bind_ext. intros [] s1 Hs1. apply Hcb in Hs1.
  rewrite bind_eq. unfold get_object at 1. rewrite Hs1, Hobj.
  apply mapM_Some_Forall2 in Hrest.
  assert (Hgen : ∀ (cs : list nat) (rest : list (list nat)) (k : nat) (s1 : Editor),
             objects s1 = objects s →
             (∀ j c, cs !! j = Some c → children obj !! (k + j) = Some c) →
             Forall2 (λ x y, subtree fuel (objects s) x = Some y) cs rest →
             forM_ (seq k (length cs))
               (λ i, obj' ← get_object o;
                     match children obj' !! i with
                     | Some child => traverse fuel callback child
                     | None => throw TypeError
                     end) s1
             = forM_ (concat rest) callback s1).
  { clear s1 Hs1 rest Hrest.
    intros cs rest k s1 Hs1 Hcs Hall. revert k s1 Hs1 Hcs.
    induction Hall as [|c lc cs rest Hc Hall IHall]; intros k s1 Hs1 Hcs; simpl.
    - reflexivity.
    - rewrite forM_app. rewrite !bind_eq. unfold get_object at 1.
      rewrite Hs1, Hobj.
      replace (children obj !! k) with (Some c)
        by (symmetry; rewrite <- (Nat.add_0_r k); apply Hcs; reflexivity).
      rewrite (IH c s1 lc) by (rewrite Hs1; exact Hc).
      destruct (forM_ lc callback s1) as [[] s2| | |] eqn:Hlc; try reflexivity.
      apply IHall.
      + rewrite <- Hs1. eapply forM_objects; [exact Hcb|exact Hlc].
      + intros j c' Hj. replace (S k + j) with (k + S j) by lia. apply Hcs. exact Hj. }
  apply (Hgen (children obj) rest 0 s1 Hs1); [|exact Hrest].
  intros j c Hj. exact Hj.
Qed.

Lemma elem_of_concat {A} (x : A) (ls : list (list A)) :
  x ∈ concat ls ↔ ∃ l, x ∈ l ∧ l ∈ ls.
Proof.
  induction ls as [|l0 ls IH]; simpl.
  - split; [intros H; inversion H|intros (l & _ & H); inversion H].
  - rewrite elem_of_app, IH. split.
    + intros [H|(l & Hx & Hl)]; [exists l0; split; [exact H|left]|].
      exists l. split; [exact Hx|right; exact Hl].
    + intros (l & Hx & Hl). apply elem_of_cons in Hl as [->|Hl]; [left; exact Hx|].
      right. eauto.
Qed.

(** Every descendant is in the pre-order listing. *)
Lemma subtree_descendant (h : gmap nat Object3D) (o d : nat) :
  descendant h o d →
  ∀ fuel l, subtree fuel h o = Some l → d ∈ l.
Proof.
  induction 1 as [o|o c d obj Hobj Hc Hdesc IH]; intros fuel l Hl.
  - destruct fuel as [|fuel]; [discriminate|]. simpl in Hl.
    destruct (h !! o); [|discriminate]. simpl in Hl.
    destruct (mapM _ _); [|discriminate]. simpl in Hl. injection Hl as <-. left.
  - destruct fuel as [|fuel]; [discriminate|]. simpl in Hl.
    rewrite Hobj in Hl. simpl in Hl.
    destruct (mapM _ _) as [rest|] eqn:Hrest; [|discriminate].
    simpl in Hl. injection Hl as <-. right.
    apply mapM_Some_Forall2 in Hrest.
    apply list_elem_of_lookup in Hc as [j Hj].
    destruct (Forall2_lookup_l _ _ _ _ _ Hrest Hj) as (lc & Hlc & Hsub).
    apply elem_of_concat. exists lc. split; [eapply IH, Hsub|].
    eapply list_elem_of_lookup_2, Hlc.
Qed.

(** The listing starts with the root and only holds objects of the store. *)
Lemma subtree_root (fuel : nat) (h : gmap nat Object3D) (o : nat) (l : list nat) :
  subtree fuel h o = Some l → o ∈ l.
Proof. intros Hl. eapply subtree_descendant; [constructor|exact Hl]. Qed.

Lemma subtree_allocated (fuel : nat) (h : gmap nat Object3D) :
  ∀ o l, subtree fuel h o = Some l → ∀ d, d ∈ l → is_Some (h !! d).
Proof.
  induction fuel as [|fuel IH]; intros o l Hl d Hd; [discriminate|].
  simpl in Hl. destruct (h !! o) as [obj|] eqn:Hobj; [|discriminate]. simpl in Hl.
  destruct (mapM _ _) as [rest|] eqn:Hrest; [|discriminate].
  simpl in Hl. injection Hl as <-.
  apply elem_of_cons in Hd as [->|Hd]; [eauto|].
  apply elem_of_concat in Hd as (lc & Hd & Hlc).
  apply mapM_Some_Forall2 in Hrest.
  apply list_elem_of_lookup in Hlc as [j Hj].
  destruct (Forall2_lookup_r _ _ _ _ _ Hrest Hj) as (c & _ & Hsub).
  eapply IH; [exact Hsub|exact Hd].
Qed.

(** The listing only depends on the [children] of the objects it holds. *)
Lemma subtree_ext (h h' : gmap nat Object3D) (fuel : nat) :
  ∀ o l,
    subtree fuel h o = Some l →
    (∀ x, x ∈ l → children <$> h' !! x = children <$> h !! x) →
    subtree fuel h' o = Some l.
Proof.
  induction fuel as [|fuel IH]; intros o l Hl Hsame; [discriminate|].
  simpl in Hl |- *. destruct (h !! o) as [obj|] eqn:Hobj; [|discriminate]. simpl in Hl.
  destruct (mapM _ _) as [rest|] eqn:Hrest; [|discriminate].
  simpl in Hl. injection Hl as <-.
  pose proof (Hsame o ltac:(left)) as Ho. rewrite Hobj in Ho.
  destruct (h' !! o) as [obj'|]; [|discriminate]. simpl in Ho |- *.
  injection Ho as Ho. rewrite Ho.
  replace (mapM (subtree fuel h') (children obj)) with (Some rest); [reflexivity|].
  symmetry. apply mapM_Some_Forall2. apply mapM_Some_Forall2 in Hrest.
  assert (Hin : ∀ lc, lc ∈ rest → ∀ x, x ∈ lc → x ∈ o :: concat rest).
  { intros lc Hlc x Hx. right. apply elem_of_concat. eauto. }
  clear Hobj Ho. induction Hrest as [|c lc cs rest Hc Hrest IHrest]; constructor.
  - apply IH; [exact Hc|]. intros x Hx. apply Hsame. eapply Hin; [left|exact Hx].
  - apply IHrest.
    + intros x Hx. apply Hsame. apply elem_of_cons in Hx as [->|Hx]; [left|].
      right. simpl. apply elem_of_app. right. exact Hx.
    + intros lc' Hlc' x Hx. right. apply elem_of_concat. eauto.
Qed.

(** ** Field updates *)

Lemma set_objects_same (s : Editor) : set_objects (objects s) s = s.
Proof. destruct s; reflexivity. Qed.

Lemma insert_as_alter (h : gmap nat Object3D) (o : nat) (x : Object3D)
    (f : Object3D → Object3D) :
  h !! o = Some x → <[o := f x]> h = alter f o h.
Proof.
  intros Hx. apply map_eq. intros j. destruct (decide (o = j)) as [->|Hne].
  - rewrite lookup_insert_eq, lookup_alter_eq, Hx. reflexivity.
  - rewrite lookup_insert_ne, lookup_alter_ne by exact Hne. reflexivity.
Qed.

Lemma modify_object_alter (o : nat) (f : Object3D → Object3D) (s : Editor) :
  is_Some (objects s !! o) →
  modify_object o f s = Ok tt (set_objects (alter f o (objects s)) s).
Proof.
  intros [x Hx]. unfold modify_object. rewrite Hx.
  rewrite (insert_as_alter _ _ _ _ Hx). reflexivity.
Qed.

Lemma foldl_frame {X} (f : Editor → X) (step : Editor → nat → Editor) :
  (∀ s d, f (step s d) = f s) →
  ∀ l s, f (foldl step s l) = f s.
Proof.
  intros Hstep. induction l as [|d l IH]; intros s; simpl; [reflexivity|].
  rewrite IH. apply Hstep.
Qed.

Ltac frame_step :=
  intros; unfold detach_step, release, drop_helper, register_step, add_helper, notify;
  repeat (case_match; simpl); reflexivity.

Lemma detach_step_objects cls s d : objects (detach_step cls s d) = objects s.
Proof. frame_step. Qed.
Lemma detach_step_components cls s d : components (detach_step cls s d) = components s.
Proof. frame_step. Qed.
Lemma detach_step_scene cls s d : scene (detach_step cls s d) = scene s.
Proof. frame_step. Qed.
Lemma detach_step_active cls s d :
  sceneGraphChanged_active (detach_step cls s d) = sceneGraphChanged_active s.
Proof. frame_step. Qed.

Lemma detach_all_objects cls l s : objects (detach_all cls l s) = objects s.
Proof. apply foldl_frame, detach_step_objects. Qed.
Lemma detach_all_components cls l s : components (detach_all cls l s) = components s.
Proof. apply foldl_frame, detach_step_components. Qed.
Lemma detach_all_scene cls l s : scene (detach_all cls l s) = scene s.
Proof. apply foldl_frame, detach_step_scene. Qed.
Lemma detach_all_active cls l s :
  sceneGraphChanged_active (detach_all cls l s) = sceneGraphChanged_active s.
Proof. apply foldl_frame, detach_step_active. Qed.

(** ** removeObject as a state change *)

Lemma removeHelper_drop (d : nat) (s : Editor) :
  removeHelper d s = Ok tt (drop_helper d s).
Proof.
  unfold removeHelper, drop_helper. munfold.
  destruct (helpers s !! d); reflexivity.
Qed.

Lemma drop_helper_objects d s : objects (drop_helper d s) = objects s.
Proof. unfold drop_helper. destruct (_ !! _); reflexivity. Qed.

Lemma drop_helper_components d s : components (drop_helper d s) = components s.
Proof. unfold drop_helper. destruct (_ !! _); reflexivity. Qed.

Lemma detach_callback (cls : ComponentClass) (d : nat) (s : Editor) :
  components s !! SceneReferenceComponent_componentName = Some cls →
  is_Some (objects s !! d) →
  (removeHelper d;; removeSceneRefDependency d) s = Ok tt (detach_step cls s d).
Proof.
  intros Hreg Hd. rewrite (bind_Ok _ _ _ _ _ (removeHelper_drop d s)).
  apply removeSceneRefDependency_release.
  - rewrite drop_helper_components. exact Hreg.
  - rewrite drop_helper_objects. exact Hd.
Qed.

Lemma detach_callback_objects (d : nat) (s s' : Editor) :
  (removeHelper d;; removeSceneRefDependency d) s = Ok tt s' → objects s' = objects s.
Proof.
  rewrite (bind_Ok _ _ _ _ _ (removeHelper_drop d s)).
  generalize (drop_helper_objects d s). generalize (drop_helper d s).
  intros s1 Hs1 H.
  unfold removeSceneRefDependency, getComponent, class_getComponent,
    component_getProperty in H. munfold.
  repeat (case_match; simplify_eq/=); exact Hs1.
Qed.

Lemma detach_traversal (cls : ComponentClass) (fuel : nat) (o : nat) (s : Editor)
    (l : list nat) :
  components s !! SceneReferenceComponent_componentName = Some cls →
  subtree fuel (objects s) o = Some l →
  traverse fuel (λ child, removeHelper child;; removeSceneRefDependency child) o s
    = Ok tt (detach_all cls l s).
Proof.
  intros Hreg Hl.
  rewrite (traverse_forM (λ child, removeHelper child;; removeSceneRefDependency child)
             detach_callback_objects fuel o s l Hl).
  refine (proj1 (forM_fold _ (detach_step cls)
                   (λ s', components s' = components s ∧ objects s' = objects s)
                   l s _ _)); [auto|].
  intros d s' Hd [Hc Ho]. split.
  - apply detach_callback; [rewrite Hc; exact Hreg|].
    rewrite Ho. eapply subtree_allocated; [exact Hl|exact Hd].
  - rewrite detach_step_components, detach_step_objects. auto.
Qed.

Lemma Object3D_remove_unlink (p o : nat) (s : Editor) :
  is_Some (objects s !! p) →
  is_Some (objects s !! o) →
  Object3D_remove p o s = Ok tt (set_objects (unlink p o (objects s)) s).
Proof.
  intros [pobj Hp] Ho. unfold Object3D_remove, unlink.
  rewrite bind_eq. unfold get_object at 1. rewrite Hp.
  destruct (indexOf o (children pobj) =? -1)%Z.
  - unfold mret, M_ret. rewrite set_objects_same. reflexivity.
  - rewrite (bind_Ok _ _ _ _ _ (modify_object_alter o _ s Ho)).
    rewrite modify_object_alter.
    + reflexivity.
    + simpl. destruct (decide (o = p)) as [->|Hne].
      * rewrite lookup_alter_eq, Hp. eauto.
      * rewrite lookup_alter_ne by exact Hne. eauto.
Qed.

Lemma dispatch_notify (sig : Signal) (s : Editor) : dispatch sig s = Ok tt (notify sig s).
Proof. reflexivity. Qed.

(** [removeObject] on an object that has a parent, where its subtree is
    finite and the scene-reference class is registered. *)
Lemma removeObject_run (cls : ComponentClass) (fuel : nat) (o p : nat) (s : Editor)
    (obj : Object3D) (l : list nat) :
  components s !! SceneReferenceComponent_componentName = Some cls →
  objects s !! o = Some obj →
  parent obj = Some p →
  is_Some (objects s !! p) →
  subtree fuel (objects s) o = Some l →
  removeObject fuel o s = Ok tt (removeObject_result cls l p o s).
Proof.
  intros Hreg Ho Hp Hpalloc Hl. unfold removeObject.
  rewrite bind_eq. unfold get_object at 1. rewrite Ho, Hp.
  rewrite (bind_Ok _ _ _ _ _ (detach_traversal cls fuel o s l Hreg Hl)).
  rewrite bind_eq. unfold get_object at 1. rewrite detach_all_objects, Ho, Hp.
  rewrite (bind_Ok _ _ _ tt (set_objects (unlink p o (objects (detach_all cls l s)))
                               (detach_all cls l s))).
  2:{ apply Object3D_remove_unlink; rewrite detach_all_objects; eauto. }
  reflexivity.
Qed.

Lemma removeObject_without_parent (fuel : nat) (o : nat) (s : Editor) (obj : Object3D) :
  objects s !! o = Some obj → parent obj = None → removeObject fuel o s = Ok tt s.
Proof.
  intros Ho Hp. unfold removeObject. rewrite bind_eq. unfold get_object at 1.
  rewrite Ho, Hp. reflexivity.
Qed.

(** ** What the traversal of [removeObject] leaves *)

Lemma detach_step_helpers cls s d :
  helpers (detach_step cls s d) = delete d (helpers s).
Proof.
  unfold detach_step, release, drop_helper.
  destruct (helpers s !! d) eqn:Hd; repeat (case_match; simpl); try reflexivity;
    symmetry; apply delete_id; exact Hd.
Qed.

Lemma detach_all_helpers cls l s :
  helpers (detach_all cls l s) = foldl (λ m d, delete d m) (helpers s) l.
Proof.
  unfold detach_all. revert s. induction l as [|d l IH]; intros s; simpl; [reflexivity|].
  rewrite IH, detach_step_helpers. reflexivity.
Qed.

Lemma foldl_delete_lookup (l : list nat) :
  ∀ (m : gmap nat Helper) (k : nat),
    foldl (λ m d, delete d m) m l !! k = if decide (k ∈ l) then None else m !! k.
Proof.
  induction l as [|d l IH]; intros m k; simpl.
  - destruct (decide (k ∈ [])) as [H|]; [inversion H|reflexivity].
  - rewrite IH. destruct (decide (k ∈ l)) as [Hk|Hk].
    + rewrite decide_True by (right; exact Hk). reflexivity.
    + destruct (decide (k = d)) as [->|Hne].
      * rewrite decide_True by left. apply lookup_delete_eq.
      * rewrite decide_False by (intros H; apply elem_of_cons in H as [?|?]; auto).
        apply lookup_delete_ne. congruence.
Qed.

Lemma detach_step_dispatched cls s d :
  dispatched (detach_step cls s d) =
  dispatched s ++ match helpers s !! d with
                  | Some h => [mkNotification (helperRemoved h) true]
                  | None => []
                  end.
Proof.
  unfold detach_step, release, drop_helper, notify.
  destruct (helpers s !! d); repeat (case_match; simpl);
    rewrite ?app_nil_r; reflexivity.
Qed.

Lemma detach_all_dispatched cls l :
  ∀ s, dispatched (detach_all cls l s) = dispatched s ++ helper_events (helpers s) l.
Proof.
  unfold detach_all. induction l as [|d l IH]; intros s; simpl.
  - rewrite app_nil_r. reflexivity.
  - rewrite IH, detach_step_dispatched, detach_step_helpers.
    destruct (helpers s !! d) eqn:Hd.
    + rewrite <- app_assoc. reflexivity.
    + rewrite app_nil_r, (delete_id _ _ Hd). reflexivity.
Qed.

Lemma helper_events_kind (l : list nat) :
  ∀ m, Forall (λ n, ∃ h, n = mkNotification (helperRemoved h) true) (helper_events m l).
Proof.
  induction l as [|d l IH]; intros m; simpl; [constructor|].
  destruct (m !! d); [constructor; eauto|apply IH].
Qed.

Lemma helper_events_elem (l : list nat) :
  ∀ (m : gmap nat Helper) (d : nat) (h : Helper),
    d ∈ l → m !! d = Some h →
    mkNotification (helperRemoved h) true ∈ helper_events m l.
Proof.
  induction l as [|d0 l IH]; intros m d h Hd Hm; [inversion Hd|].
  simpl. destruct (decide (d = d0)) as [->|Hne].
  - rewrite Hm. left.
  - apply elem_of_cons in Hd as [?|Hd]; [congruence|].
    destruct (m !! d0).
    + right. apply IH with d; [exact Hd|]. rewrite lookup_delete_ne by congruence. exact Hm.
    + apply IH with d; assumption.
Qed.

(** Any set found after a release stems from a set that was there before. *)
Lemma release_lookup_inv cls d s (u : Value) (D' : JsSet) :
  fileDependencies (release cls d s) !! u = Some D' →
  ∃ D, fileDependencies s !! u = Some D ∧ (D' = D ∨ D' = set_delete d D).
Proof.
  unfold release. destruct (carried _ _ _) as [c|]; [|eauto].
  destruct (fileDependencies s !! getProperty c "src") as [deps|] eqn:Hdeps; [|eauto].
  simpl. destruct (decide (getProperty c "src" = u)) as [Heq|Hne].
  - subst u. rewrite lookup_insert_eq. intros [= <-]. eauto.
  - rewrite lookup_insert_ne by exact Hne. eauto.
Qed.

Lemma set_delete_members d d' (D : JsSet) :
  d ∈ set_members (set_delete d' D) → d ∈ set_members D.
Proof.
  rewrite !elem_of_set_members. unfold set_delete. intros H.
  apply list_elem_of_fmap in H as (e & He & Hin).
  destruct (decide (e = Some d')); [discriminate|]. subst e. exact Hin.
Qed.

Lemma release_establishes cls d s c :
  carried (objects s) cls d = Some c →
  released d c (fileDependencies (release cls d s)).
Proof.
  intros Hc D. unfold release. rewrite Hc.
  destruct (fileDependencies s !! getProperty c "src") as [deps|] eqn:Hdeps.
  - simpl. rewrite lookup_insert_eq. intros [= <-].
    rewrite elem_of_set_members. apply set_delete_not_member.
  - rewrite Hdeps. discriminate.
Qed.

Lemma release_preserves cls d' s d c :
  released d c (fileDependencies s) →
  released d c (fileDependencies (release cls d' s)).
Proof.
  intros Hrel D' HD'. apply release_lookup_inv in HD' as (D & HD & Hcase).
  intros Hd. apply (Hrel D HD).
  destruct Hcase as [->| ->]; [exact Hd|]. eapply set_delete_members, Hd.
Qed.

Lemma drop_helper_fileDependencies d s :
  fileDependencies (drop_helper d s) = fileDependencies s.
Proof. unfold drop_helper. destruct (_ !! _); reflexivity. Qed.

Lemma detach_all_released cls (l : list nat) :
  ∀ s d c,
    released d c (fileDependencies s) →
    released d c (fileDependencies (detach_all cls l s)).
Proof.
  unfold detach_all. induction l as [|d0 l IH]; intros s d c Hrel; simpl; [exact Hrel|].
  apply IH. unfold detach_step. apply release_preserves.
  rewrite drop_helper_fileDependencies. exact Hrel.
Qed.

Lemma detach_all_releases cls (l : list nat) :
  ∀ s d c,
    d ∈ l → carried (objects s) cls d = Some c →
    released d c (fileDependencies (detach_all cls l s)).
Proof.
  induction l as [|d0 l IH]; intros s d c Hd Hc; [inversion Hd|].
  change (detach_all cls (d0 :: l) s) with (detach_all cls l (detach_step cls s d0)).
  destruct (decide (d = d0)) as [->|Hne].
  - apply detach_all_released. unfold detach_step. apply release_establishes.
    rewrite drop_helper_objects. exact Hc.
  - apply elem_of_cons in Hd as [?|Hd]; [congruence|].
    apply IH; [exact Hd|]. rewrite detach_step_objects. exact Hc.
Qed.

(** ** The overlay scene *)

Lemma remove_child_split {A} `{EqDecision A} (x : A) (l : list A) :
  x ∈ l →
  ∃ l1 l2, l = l1 ++ x :: l2 ∧ (x ∉ l1) ∧ remove_child x l = l1 ++ l2.
Proof.
  intros Hx. apply list_elem_of_split_l in Hx as (l1 & l2 & -> & Hl1).
  exists l1, l2. split; [reflexivity|]. split; [exact Hl1|].
  unfold remove_child, indexOf. rewrite findIndex_first.
  - replace (Z.of_nat (length l1) =? -1)%Z with false by (symmetry; apply Z.eqb_neq; lia).
    apply splice_middle.
  - apply Forall_forall. intros y Hy. apply bool_decide_eq_false. intros ->. exact (Hl1 Hy).
  - apply bool_decide_eq_true. reflexivity.
Qed.

Lemma remove_child_absent {A} `{EqDecision A} (x : A) (l : list A) :
  x ∉ l → remove_child x l = l.
Proof.
  intros Hx. unfold remove_child, indexOf. rewrite findIndex_none; [reflexivity|].
  apply Forall_forall. intros y Hy. apply bool_decide_eq_false. intros ->. exact (Hx Hy).
Qed.

Lemma remove_child_elem {A} `{EqDecision A} (x y : A) (l : list A) :
  y ∈ remove_child x l → y ∈ l.
Proof.
  destruct (decide (x ∈ l)) as [Hx|Hx].
  - destruct (remove_child_split x l Hx) as (l1 & l2 & -> & _ & ->).
    rewrite !elem_of_app, elem_of_cons. tauto.
  - rewrite (remove_child_absent x l Hx). auto.
Qed.

Lemma remove_child_NoDup {A} `{EqDecision A} (x : A) (l : list A) :
  NoDup l → NoDup (remove_child x l) ∧ x ∉ remove_child x l.
Proof.
  intros Hnd. destruct (decide (x ∈ l)) as [Hx|Hx].
  - destruct (remove_child_split x l Hx) as (l1 & l2 & -> & Hl1 & ->).
    apply NoDup_app in Hnd as (Hnd1 & Hdisj & Hnd2).
    apply NoDup_cons in Hnd2 as [Hl2 Hnd2]. split.
    + apply NoDup_app. split; [exact Hnd1|]. split; [|exact Hnd2].
      intros y Hy Hy2. apply (Hdisj y Hy). right. exact Hy2.
    + rewrite elem_of_app. tauto.
  - rewrite (remove_child_absent x l Hx). auto.
Qed.

Lemma detach_step_sceneHelpers cls s d :
  sceneHelpers (detach_step cls s d) =
  match helpers s !! d with
  | Some h => remove_child h (sceneHelpers s)
  | None => sceneHelpers s
  end.
Proof.
  unfold detach_step, release, drop_helper, notify.
  destruct (helpers s !! d); repeat (case_match; simpl); reflexivity.
Qed.

(** In an overlay scene that lists no helper twice, the helper of every
    visited object is gone after the traversal. *)
Lemma detach_all_sceneHelpers cls (l : list nat) :
  ∀ s,
    NoDup (sceneHelpers s) →
    NoDup (sceneHelpers (detach_all cls l s)) ∧
    (∀ y, y ∈ sceneHelpers (detach_all cls l s) → y ∈ sceneHelpers s) ∧
    (∀ d h, d ∈ l → helpers s !! d = Some h → h ∉ sceneHelpers (detach_all cls l s)).
Proof.
  induction l as [|d0 l IH]; intros s Hnd.
  - split; [exact Hnd|]. split; [auto|]. intros d h Hd. inversion Hd.
  - change (detach_all cls (d0 :: l) s) with (detach_all cls l (detach_step cls s d0)).
    assert (Hstep : NoDup (sceneHelpers (detach_step cls s d0)) ∧
                    (∀ y, y ∈ sceneHelpers (detach_step cls s d0) → y ∈ sceneHelpers s) ∧
                    (∀ h, helpers s !! d0 = Some h →
                          h ∉ sceneHelpers (detach_step cls s d0))).
    { rewrite detach_step_sceneHelpers. destruct (helpers s !! d0) as [h0|].
      - destruct (remove_child_NoDup h0 _ Hnd) as [H1 H2]. split; [exact H1|].
        split; [intros y; apply remove_child_elem|]. intros h [= <-]. exact H2.
      - split; [exact Hnd|]. split; [auto|]. intros h Hh. discriminate. }
    destruct Hstep as (Hnd1 & Hsub1 & Hgone1).
    destruct (IH (detach_step cls s d0) Hnd1) as (Hnd' & Hsub' & Hgone').
    split; [exact Hnd'|]. split; [intros y Hy; apply Hsub1, Hsub', Hy|].
    intros d h Hd Hh. destruct (decide (d = d0)) as [->|Hne].
    + intros Hin. apply (Hgone1 h Hh). apply Hsub'. exact Hin.
    + apply elem_of_cons in Hd as [?|Hd]; [congruence|].
      apply (Hgone' d h Hd). rewrite detach_step_helpers.
      rewrite lookup_delete_ne by congruence. exact Hh.
Qed.

(** ** Unlinking a child *)

Lemma findIndex_m1 {A} (p : A → bool) (l : list A) :
  findIndex p l = (-1)%Z → Forall (λ x, p x = false) l.
Proof.
  induction l as [|x l IH]; simpl; intros H; [constructor|].
  destruct (p x) eqn:Hx; [discriminate|].
  pose proof (findIndex_ge_m1 p l).
  destruct (Z.ltb_spec (findIndex p l) 0); [|lia].
  constructor; [exact Hx|]. apply IH. lia.
Qed.

Lemma indexOf_elem (x : nat) (l : list nat) : x ∈ l → (indexOf x l =? -1)%Z = false.
Proof.
  intros Hx. apply Z.eqb_neq. intros H. apply findIndex_m1 in H.
  apply (proj1 (Forall_forall _ _) H) in Hx.
  apply bool_decide_eq_false in Hx. congruence.
Qed.

Lemma indexOf_head (x : nat) (l : list nat) : indexOf x (x :: l) = 0%Z.
Proof. unfold indexOf. simpl. rewrite bool_decide_true; reflexivity. Qed.

Lemma remove_child_head (x : nat) (l : list nat) : remove_child x (x :: l) = l.
Proof. unfold remove_child. rewrite indexOf_head. reflexivity. Qed.

Lemma unlink_child (p o : nat) (h : gmap nat Object3D) (pobj : Object3D) :
  h !! p = Some pobj → o ∈ children pobj →
  unlink p o h =
    alter (λ x, set_children (remove_child o (children pobj)) x) p
      (alter (set_parent None) o h).
Proof.
  intros Hp Ho. unfold unlink, remove_child. rewrite Hp, (indexOf_elem _ _ Ho).
  apply map_eq. intros j. destruct (decide (p = j)) as [<-|Hne].
  - rewrite !lookup_alter_eq. destruct (decide (o = p)) as [->|Hop].
    + rewrite lookup_alter_eq, Hp. reflexivity.
    + rewrite lookup_alter_ne, Hp by exact Hop. reflexivity.
  - rewrite !(lookup_alter_ne _ _ p j) by exact Hne. reflexivity.
Qed.

(** ** removeObject *)

(** What [removeObject] does, with the helpers taken by the entries of the
    helper map.  On an object without parent, such as the scene root or the
    camera, it returns at once and the editor is unchanged.  On an object
    with a parent, with a finite subtree and the scene-reference class
    registered, it returns, and then: every descendant has lost the entry
    filed under its own id, with a [helperRemoved] notification for the
    helper of that entry, which is gone from the overlay scene, and is in no
    dependency set stored under the [src] of the scene reference it carries;
    the object has no parent and is gone from its parent's children;
    [objectRemoved] was dispatched and after it [sceneGraphChanged], after
    the notifications of the helpers.  The helper drawn for a descendant is
    filed under the selection root, not under the descendant, and this
    statement does not cover it. *)
Theorem removeObject_spec (fuel : nat) (s : Editor) (object : nat) (obj : Object3D) :
  objects s !! object = Some obj →
  (parent obj = None → removeObject fuel object s = Ok tt s) ∧
  (∀ cls p pobj l,
     parent obj = Some p →
     objects s !! p = Some pobj →
     object ∈ children pobj →
     components s !! SceneReferenceComponent_componentName = Some cls →
     subtree fuel (objects s) object = Some l →
     ∃ s' evs,
       removeObject fuel object s = Ok tt s' ∧
       (∀ d, descendant (objects s) object d →
          helpers s' !! d = None ∧
          (∀ h, helpers s !! d = Some h →
                mkNotification (helperRemoved h) true ∈ evs ∧
                (NoDup (sceneHelpers s) → h ∉ sceneHelpers s')) ∧
          (∀ c, carried (objects s) cls d = Some c →
                released d c (fileDependencies s'))) ∧
       parent <$> objects s' !! object = Some None ∧
       children <$> objects s' !! p = Some (remove_child object (children pobj)) ∧
       Forall (λ n, ∃ h, n = mkNotification (helperRemoved h) true) evs ∧
       dispatched s' =
         dispatched s ++ evs ++
         [mkNotification (objectRemoved object) true;
          mkNotification sceneGraphChanged (sceneGraphChanged_active s)]).
Proof.
  intros Ho. split.
  - intros Hp. eapply removeObject_without_parent; eassumption.
  - intros cls p pobj l Hp Hpobj Hchild Hreg Hl.
    exists (removeObject_result cls l p object s), (helper_events (helpers s) l).
    split; [eapply removeObject_run; eauto|].
    unfold removeObject_result. simpl.
    rewrite detach_all_objects, detach_all_active, detach_all_dispatched.
    rewrite (unlink_child p object _ pobj Hpobj Hchild).
    split; [|split; [|split; [|split]]].
    + intros d Hd. pose proof (subtree_descendant _ _ _ Hd _ _ Hl) as Hin.
      split; [|split].
      * rewrite detach_all_helpers, foldl_delete_lookup, decide_True by exact Hin.
        reflexivity.
      * intros h Hh. split; [eapply helper_events_elem; eassumption|].
        intros Hnd. destruct (detach_all_sceneHelpers cls l s Hnd) as (_ & _ & Hgone).
        exact (Hgone d h Hin Hh).
      * intros c Hc. apply detach_all_releases; assumption.
    + destruct (decide (object = p)) as [->|Hne].
      * rewrite !lookup_alter_eq, Hpobj. reflexivity.
      * rewrite lookup_alter_ne by congruence. rewrite lookup_alter_eq, Ho. reflexivity.
    + rewrite lookup_alter_eq. destruct (decide (object = p)) as [->|Hne].
      * rewrite lookup_alter_eq, Hpobj. reflexivity.
      * rewrite lookup_alter_ne by exact Hne. rewrite Hpobj. reflexivity.
    + apply helper_events_kind.
    + rewrite <- !app_assoc. reflexivity.
Qed.

Lemma removeObject_spec_witness :
  removeObject 3 2 scene_with_group = Ok tt scene_with_group ∧
  ∃ s', removeObject 3 4 scene_with_group = Ok tt s' ∧
        helpers s' !! 4 = None ∧
        parent <$> objects s' !! 4 = Some None ∧
        children <$> objects s' !! 2 = Some [].
Proof.
  assert (H2 : objects scene_with_group !! 2 = Some (object_of scene_with_group 2))
    by (vm_compute; reflexivity).
  assert (H4 : objects scene_with_group !! 4 = Some (object_of scene_with_group 4))
    by (vm_compute; reflexivity).
  split.
  - apply (proj1 (removeObject_spec 3 scene_with_group 2 _ H2)). vm_compute. reflexivity.
  - destruct (proj2 (removeObject_spec 3 scene_with_group 4 _ H4)
                 SceneReferenceComponent 2 (object_of scene_with_group 2) [4; 5; 6])
      as (s' & evs & Hrun & Hdesc & Hparent & Hchildren & _).
    + vm_compute. reflexivity.
    + exact H2.
    + vm_compute. left.
    + vm_compute. reflexivity.
    + vm_compute. reflexivity.
    + exists s'. split; [exact Hrun|]. split; [|split].
      * apply (Hdesc 4). constructor.
      * exact Hparent.
      * exact Hchildren.
Defined.

(** C8.  The group 4 of [scene_with_group] with its point lights 5 and 6,
    each of which had a helper drawn by [addObject], removed with
    [removeObject]: the call returns, the group has no parent and has left
    the children of the scene, and [objectRemoved] then [sceneGraphChanged]
    are dispatched; but of the two helpers only the one of light 6 is
    destroyed.  Both helpers were filed under the selection root 4, the
    second in the place of the first, so the traversal finds one entry,
    under 4, and nothing under 5 or 6: the helper of light 5 is still in the
    overlay scene and no [helperRemoved] was dispatched for it. *)
Theorem removeObject_leaves_helper_of_descendant :
  let h1 := mkHelper 7 PointLightHelper 5 8 4 in
  let h2 := mkHelper 9 PointLightHelper 6 10 4 in
  let s := scene_with_group in
  let s' := state_of (removeObject 3 4 s) in
  (subtree 3 (objects s) 4 = Some [4; 5; 6] ∧
   kind <$> objects s !! 5 = Some PointLight ∧
   helper_object h1 = 5 ∧ helper_object h2 = 6 ∧
   sceneHelpers s = [h1; h2] ∧
   helpers s !! 4 = Some h2 ∧ helpers s !! 5 = None ∧ helpers s !! 6 = None) ∧
  returns (removeObject 3 4 s) = true ∧
  sceneHelpers s' = [h1] ∧
  helpers s' = ∅ ∧
  dispatched s' =
    dispatched s ++
    [mkNotification (helperRemoved h2) true;
     mkNotification (objectRemoved 4) true;
     mkNotification sceneGraphChanged true] ∧
  parent <$> objects s' !! 4 = Some None ∧
  children <$> objects s' !! 2 = Some [].
Proof. vm_compute. repeat split; reflexivity. Qed.

(** ** addObject as a state change *)

Lemma addHelper_add (d root : nat) (s : Editor) :
  is_Some (objects s !! d) →
  addHelper d root s = Ok tt (add_helper d root s).
Proof.
  intros [od Hod]. unfold addHelper, add_helper. munfold.
  destruct (helpers s !! d); [reflexivity|]. rewrite Hod.
  destruct (helper_for (kind od)); reflexivity.
Qed.

Lemma register_callback (root d : nat) (s : Editor) :
  is_Some (objects s !! d) →
  (c ← get_object d;
   match geometry c with Some g => addGeometry g | None => mret tt end;;
   match material c with Some m => addMaterial m | None => mret tt end;;
   addHelper d root) s = Ok tt (register_step root s d).
Proof.
  intros [od Hod]. unfold register_step. rewrite bind_eq. unfold get_object at 1.
  rewrite Hod.
  destruct (geometry od) as [g|], (material od) as [m|];
    unfold addGeometry, addMaterial, material_key; munfold; simpl;
    apply addHelper_add; simpl; eauto.
Qed.

Lemma register_step_objects root s d : objects (register_step root s d) = objects s.
Proof. frame_step. Qed.
Lemma register_step_components root s d : components (register_step root s d) = components s.
Proof. frame_step. Qed.
Lemma register_step_scene root s d : scene (register_step root s d) = scene s.
Proof. frame_step. Qed.
Lemma register_step_active root s d :
  sceneGraphChanged_active (register_step root s d) = sceneGraphChanged_active s.
Proof. frame_step. Qed.
Lemma register_step_fileDependencies root s d :
  fileDependencies (register_step root s d) = fileDependencies s.
Proof. frame_step. Qed.

Lemma register_all_objects root l s : objects (register_all root l s) = objects s.
Proof. apply foldl_frame. intros. apply register_step_objects. Qed.
Lemma register_all_components root l s : components (register_all root l s) = components s.
Proof. apply foldl_frame. intros. apply register_step_components. Qed.
Lemma register_all_scene root l s : scene (register_all root l s) = scene s.
Proof. apply foldl_frame. intros. apply register_step_scene. Qed.
Lemma register_all_active root l s :
  sceneGraphChanged_active (register_all root l s) = sceneGraphChanged_active s.
Proof. apply foldl_frame. intros. apply register_step_active. Qed.
Lemma register_all_fileDependencies root l s :
  fileDependencies (register_all root l s) = fileDependencies s.
Proof. apply foldl_frame. intros. apply register_step_fileDependencies. Qed.

Lemma register_callback_objects (root d : nat) (s s' : Editor) :
  (c ← get_object d;
   match geometry c with Some g => addGeometry g | None => mret tt end;;
   match material c with Some m => addMaterial m | None => mret tt end;;
   addHelper d root) s = Ok tt s' → objects s' = objects s.
Proof.
  intros H. destruct (objects s !! d) as [od|] eqn:Hod.
  - rewrite register_callback in H by eauto. injection H as <-.
    apply register_step_objects.
  - rewrite bind_eq in H. unfold get_object at 1 in H. rewrite Hod in H. discriminate.
Qed.

Lemma register_traversal (fuel : nat) (o : nat) (s : Editor) (l : list nat) :
  subtree fuel (objects s) o = Some l →
  traverse fuel (λ child,
    c ← get_object child;
    match geometry c with Some g => addGeometry g | None => mret tt end;;
    match material c with Some m => addMaterial m | None => mret tt end;;
    addHelper child o) o s = Ok tt (register_all o l s).
Proof.
  intros Hl.
  rewrite (traverse_forM
             (λ child,
                c ← get_object child;
                match geometry c with Some g => addGeometry g | None => mret tt end;;
                match material c with Some m => addMaterial m | None => mret tt end;;
                addHelper child o)
             (register_callback_objects o) fuel o s l Hl).
  refine (proj1 (forM_fold _ (register_step o) (λ s', objects s' = objects s) l s _ _));
    [reflexivity|].
  intros d s' Hd Ho. split.
  - apply register_callback. rewrite Ho. eapply subtree_allocated; [exact Hl|exact Hd].
  - rewrite register_step_objects. exact Ho.
Qed.

Lemma unlink_allocated (q o x : nat) (h : gmap nat Object3D) :
  is_Some (unlink q o h !! x) ↔ is_Some (h !! x).
Proof.
  unfold unlink. destruct (h !! q) as [qobj|]; [|reflexivity].
  destruct (_ =? _)%Z; [reflexivity|].
  rewrite <- !not_eq_None_Some, !lookup_alter_None. reflexivity.
Qed.

Lemma Object3D_add_link (p o : nat) (s : Editor) (obj : Object3D) :
  is_Some (objects s !! p) →
  objects s !! o = Some obj →
  (∀ q, parent obj = Some q → is_Some (objects s !! q)) →
  Object3D_add p o s = Ok tt (set_objects (link p o (objects s)) s).
Proof.
  intros Hp Ho Hq. unfold Object3D_add, link.
  destruct (decide (o = p)) as [->|Hne].
  - unfold mret, M_ret. rewrite set_objects_same. reflexivity.
  - rewrite bind_eq. unfold get_object at 1. rewrite Ho.
    assert (Hstep : ∃ h1,
               h1 = match parent obj with
                    | Some q => unlink q o (objects s)
                    | None => objects s
                    end ∧
               match parent obj with
               | Some q => Object3D_remove q o
               | None => mret tt
               end s = Ok tt (set_objects h1 s) ∧
               ∀ x, is_Some (h1 !! x) ↔ is_Some (objects s !! x)).
    { eexists. split; [reflexivity|]. destruct (parent obj) as [q|].
      - split; [apply Object3D_remove_unlink; eauto|].
        intros x. apply unlink_allocated.
      - split; [|reflexivity]. unfold mret, M_ret. rewrite set_objects_same. reflexivity. }
    destruct Hstep as (h1 & Hh1 & Hrun & Halloc). rewrite <- Hh1.
    rewrite (bind_Ok _ _ _ _ _ Hrun).
    rewrite (bind_Ok _ _ _ tt (set_objects (alter (set_parent (Some p)) o h1) s)).
    2:{ rewrite modify_object_alter; [reflexivity|]. simpl. apply Halloc. eauto. }
    rewrite modify_object_alter; [reflexivity|]. simpl.
    rewrite lookup_alter_ne by exact Hne. apply Halloc. exact Hp.
Qed.

(** [addObject] on an object with a finite subtree. *)
Lemma addObject_run (fuel : nat) (o : nat) (parentNode : option nat) (s : Editor)
    (obj : Object3D) (l : list nat) :
  objects s !! o = Some obj →
  is_Some (objects s !! default (scene s) parentNode) →
  (∀ q, parent obj = Some q → is_Some (objects s !! q)) →
  subtree fuel (objects s) o = Some l →
  addObject fuel o parentNode s
    = Ok tt (addObject_result l (default (scene s) parentNode) o s).
Proof.
  intros Ho Hp Hq Hl. unfold addObject.
  rewrite (bind_Ok _ _ _ _ _ (register_traversal fuel o s l Hl)).
  rewrite (bind_Ok _ _ _ tt
             (set_objects (link (default (scene s) parentNode) o
                             (objects (register_all o l s))) (register_all o l s))).
  - reflexivity.
  - destruct parentNode as [p|]; simpl in *.
    + apply Object3D_add_link with obj; rewrite register_all_objects; assumption.
    + rewrite bind_eq. unfold gets at 1. rewrite register_all_scene.
      apply Object3D_add_link with obj; rewrite register_all_objects; assumption.
Qed.

(** ** What linking and unlinking leave alone *)

Lemma children_set_parent (x : option Object3D) (v : option nat) :
  children <$> (set_parent v <$> x) = children <$> x.
Proof. destruct x; reflexivity. Qed.

Lemma unlink_children (q o x : nat) (h : gmap nat Object3D) :
  x ≠ q → children <$> unlink q o h !! x = children <$> h !! x.
Proof.
  intros Hx. unfold unlink. destruct (h !! q) as [qobj|]; [|reflexivity].
  destruct (_ =? _)%Z; [reflexivity|].
  rewrite lookup_alter_ne by congruence.
  rewrite lookup_alter. case_decide; [subst x|reflexivity].
  destruct (h !! o); reflexivity.
Qed.


Lemma link_parent (p o : nat) (h : gmap nat Object3D) :
  o ≠ p → is_Some (h !! o) →
  parent <$> link p o h !! o = Some (Some p).
Proof.
  intros Hne Ho. unfold link. rewrite decide_False by exact Hne.
  rewrite lookup_alter_ne by congruence. rewrite lookup_alter_eq.
  assert (Hh1 : is_Some (match h !! o with
                         | Some obj => match parent obj with
                                       | Some q => unlink q o h
                                       | None => h
                                       end
                         | None => h
                         end !! o)).
  { destruct (h !! o) as [obj|] eqn:Hobj; [|rewrite Hobj; exact Ho].
    destruct (parent obj); [apply unlink_allocated|]; rewrite Hobj; eauto. }
  destruct Hh1 as [x ->]. reflexivity.
Qed.


(** ** The resource tables *)









(** ** addObject followed by removeObject *)




(** ** Well-formed children *)

Lemma forallb_Forall {A} (p : A → bool) (l : list A) :
  forallb p l = true ↔ Forall (λ x, p x = true) l.
Proof.
  induction l as [|x l IH]; simpl.
  - split; [constructor|reflexivity].
  - rewrite andb_true_iff, IH. split.
    + intros [? ?]. constructor; assumption.
    + intros H. inversion H; subst. auto.
Qed.

Lemma child_ready_spec fuel h r avoid c :
  child_ready fuel h r avoid c = true →
  ∃ oc lc, h !! c = Some oc ∧ parent oc = Some r ∧ subtree fuel h c = Some lc ∧
           Forall (λ a, a ∉ lc) avoid.
Proof.
  unfold child_ready. destruct (h !! c) as [oc|]; [|discriminate].
  rewrite andb_true_iff. intros [Hp Hs].
  destruct (subtree fuel h c) as [lc|]; [|discriminate].
  exists oc, lc. repeat split.
  - apply bool_decide_eq_true in Hp. exact Hp.
  - apply forallb_Forall in Hs. eapply Forall_impl; [exact Hs|].
    intros a Ha. apply bool_decide_eq_true in Ha. exact Ha.
Qed.

Lemma children_ready_spec fuel h r avoid :
  children_ready fuel h r avoid = true →
  ∃ robj lcs,
    h !! r = Some robj ∧ NoDup (children robj) ∧ length (children robj) < fuel ∧
    Forall2 (λ c lc, ∃ oc, h !! c = Some oc ∧ parent oc = Some r ∧
                           subtree fuel h c = Some lc ∧ Forall (λ a, a ∉ lc) avoid)
            (children robj) lcs.
Proof.
  unfold children_ready. destruct (h !! r) as [robj|]; [|discriminate].
  rewrite !andb_true_iff. intros [[Hnd Hall] Hlen].
  apply bool_decide_eq_true in Hnd. apply bool_decide_eq_true in Hlen.
  apply forallb_Forall in Hall.
  assert (Hlcs : ∃ lcs, Forall2 (λ c lc, ∃ oc, h !! c = Some oc ∧ parent oc = Some r ∧
                           subtree fuel h c = Some lc ∧ Forall (λ a, a ∉ lc) avoid)
                          (children robj) lcs).
  { clear Hnd Hlen. induction Hall as [|c cs Hc _ IH].
    - exists []. constructor.
    - destruct IH as [lcs IH]. apply child_ready_spec in Hc as (oc & lc & H1 & H2 & H3 & H4).
      exists (lc :: lcs). constructor; eauto. }
  destruct Hlcs as [lcs Hlcs]. exists robj, lcs. auto.
Qed.

(** Every object of the listing is a descendant. *)
Lemma subtree_sound (h : gmap nat Object3D) (fuel : nat) :
  ∀ o l, subtree fuel h o = Some l → ∀ d, d ∈ l → descendant h o d.
Proof.
  induction fuel as [|fuel IH]; intros o l Hl d Hd; [discriminate|].
  simpl in Hl. destruct (h !! o) as [obj|] eqn:Hobj; [|discriminate]. simpl in Hl.
  destruct (mapM _ _) as [rest|] eqn:Hrest; [|discriminate].
  simpl in Hl. injection Hl as <-.
  apply elem_of_cons in Hd as [->|Hd]; [constructor|].
  apply elem_of_concat in Hd as (lc & Hd & Hlc).
  apply mapM_Some_Forall2 in Hrest.
  apply list_elem_of_lookup in Hlc as [j Hj].
  destruct (Forall2_lookup_r _ _ _ _ _ Hrest Hj) as (c & Hc & Hsub).
  eapply descendant_child; [exact Hobj| |eapply IH; eassumption].
  eapply list_elem_of_lookup_2, Hc.
Qed.

(** ** How the dependency map changes *)

Lemma fd_shrunk_refl P fd : fd_shrunk P fd fd.
Proof.
  intros u. destruct (fd !! u) as [D|]; [|exact I].
  apply Forall2_same_length_lookup. split; [reflexivity|].
  intros i e e' He He'. left. congruence.
Qed.

Lemma fd_shrunk_trans P fd1 fd2 fd3 :
  fd_shrunk P fd1 fd2 → fd_shrunk P fd2 fd3 → fd_shrunk P fd1 fd3.
Proof.
  intros H12 H23 u. specialize (H12 u). specialize (H23 u).
  destruct (fd1 !! u) as [D1|], (fd2 !! u) as [D2|], (fd3 !! u) as [D3|];
    try contradiction; try exact I.
  revert D3 H23. induction H12 as [|e1 e2 D1 D2 He12 _ IH]; intros D3 H23.
  - inversion H23. constructor.
  - inversion H23 as [|? e3 ? D3' He23 H23']; subst. constructor; [|apply IH; exact H23'].
    destruct He23 as [->|[-> (d & -> & Hd)]].
    + exact He12.
    + destruct He12 as [Heq|[Heq _]]; [|discriminate].
      right. split; [reflexivity|]. exists d. split; [symmetry; exact Heq|exact Hd].
Qed.

Lemma fd_shrunk_weaken (P Q : nat → Value → Prop) fd fd' :
  (∀ d u, P d u → Q d u) → fd_shrunk P fd fd' → fd_shrunk Q fd fd'.
Proof.
  intros HPQ H u. specialize (H u).
  destruct (fd !! u), (fd' !! u); try exact H.
  eapply Forall2_impl; [exact H|]. intros e e' [->|[-> (d & -> & Hd)]]; [left; reflexivity|].
  right. split; [reflexivity|]. eauto.
Qed.

Lemma set_delete_shrunk (P : nat → Prop) d (D : JsSet) :
  P d → Forall2 (λ e e', e' = e ∨ (e' = None ∧ ∃ d', e = Some d' ∧ P d')) D (set_delete d D).
Proof.
  intros Hd. unfold set_delete. induction D as [|e D IH]; [constructor|].
  rewrite fmap_cons. constructor; [|exact IH].
  destruct (decide (e = Some d)) as [->|]; [|left; reflexivity].
  right. split; [reflexivity|]. eauto.
Qed.

Lemma release_shrunk cls d s :
  fd_shrunk (λ d' u, d' = d ∧ ∃ i, carried (objects s) cls d = Some i ∧
                                   getProperty i "src" = u)
            (fileDependencies s) (fileDependencies (release cls d s)).
Proof.
  unfold release. destruct (carried (objects s) cls d) as [i|] eqn:Hi;
    [|apply fd_shrunk_refl].
  destruct (fileDependencies s !! getProperty i "src") as [deps|] eqn:Hdeps;
    [|apply fd_shrunk_refl].
  intros u. simpl. destruct (decide (getProperty i "src" = u)) as [Heq|Hne].
  - subst u. rewrite Hdeps, lookup_insert_eq.
    apply (set_delete_shrunk (λ d', d' = d ∧ ∃ i0, Some i = Some i0 ∧
                                     getProperty i0 "src" = getProperty i "src")).
    eauto.
  - rewrite lookup_insert_ne by exact Hne.
    destruct (fileDependencies s !! u) as [D|]; [|exact I].
    apply Forall2_same_length_lookup. split; [reflexivity|].
    intros j e e' He He'. left. congruence.
Qed.

Lemma detach_all_shrunk cls (l : list nat) :
  ∀ s, fd_shrunk (λ d u, d ∈ l ∧ ∃ i, carried (objects s) cls d = Some i ∧
                                      getProperty i "src" = u)
                 (fileDependencies s) (fileDependencies (detach_all cls l s)).
Proof.
  unfold detach_all. induction l as [|d0 l IH]; intros s; simpl; [apply fd_shrunk_refl|].
  apply fd_shrunk_trans with (fileDependencies (detach_step cls s d0)).
  - unfold detach_step. rewrite <- (drop_helper_fileDependencies d0 s).
    eapply fd_shrunk_weaken; [|exact (release_shrunk cls d0 (drop_helper d0 s))].
    intros d u [-> Hi]. rewrite drop_helper_objects in Hi. split; [left|exact Hi].
  - eapply fd_shrunk_weaken; [|exact (IH (detach_step cls s d0))].
    intros d u [Hd Hi]. rewrite detach_step_objects in Hi. split; [right; exact Hd|exact Hi].
Qed.

(** ** Removing the first child of an object *)

Lemma unlink_head (r c : nat) (cs : list nat) (h : gmap nat Object3D) (robj : Object3D) :
  h !! r = Some robj → children robj = c :: cs →
  unlink r c h = alter (set_children cs) r (alter (set_parent None) c h).
Proof.
  intros Hr Hcs. rewrite (unlink_child r c h robj Hr) by (rewrite Hcs; left).
  rewrite Hcs, remove_child_head. reflexivity.
Qed.

Lemma carried_ext (h h' : gmap nat Object3D) cls d :
  registered <$> h' !! d = registered <$> h !! d → carried h' cls d = carried h cls d.
Proof.
  unfold carried. intros H. destruct (h' !! d), (h !! d); simpl in *; congruence.
Qed.

Lemma registered_alter_parent (h : gmap nat Object3D) o v x :
  registered <$> alter (set_parent v) o h !! x = registered <$> h !! x.
Proof. rewrite lookup_alter. case_decide; [subst|reflexivity]. destruct (h !! x); reflexivity. Qed.

Lemma registered_alter_children (h : gmap nat Object3D) o (f : list nat → list nat) x :
  registered <$> alter (λ y, set_children (f (children y)) y) o h !! x
  = registered <$> h !! x.
Proof. rewrite lookup_alter. case_decide; [subst|reflexivity]. destruct (h !! x); reflexivity. Qed.

Lemma children_alter_parent (h : gmap nat Object3D) o v x :
  children <$> alter (set_parent v) o h !! x = children <$> h !! x.
Proof. rewrite lookup_alter. case_decide; [subst|reflexivity]. destruct (h !! x); reflexivity. Qed.

Lemma graph_frame_refl s : graph_frame s s.
Proof. repeat split. Qed.

Lemma graph_frame_trans s1 s2 s3 :
  graph_frame s1 s2 → graph_frame s2 s3 → graph_frame s1 s3.
Proof. unfold graph_frame. intros (?&?&?) (?&?&?). repeat split; congruence. Qed.

Lemma removeObject_result_frame cls l p o s :
  graph_frame s (removeObject_result cls l p o s).
Proof.
  unfold graph_frame, removeObject_result. simpl.
  rewrite detach_all_components, detach_all_scene, detach_all_active. auto.
Qed.

Lemma removeObject_result_dispatched cls l p o s :
  dispatched_between (removal_event (sceneGraphChanged_active s))
    s (removeObject_result cls l p o s).
Proof.
  exists (helper_events (helpers s) l ++
          [mkNotification (objectRemoved o) true;
           mkNotification sceneGraphChanged (sceneGraphChanged_active s)]).
  split.
  - unfold removeObject_result. simpl.
    rewrite detach_all_dispatched, detach_all_active, <- !app_assoc. reflexivity.
  - apply Forall_app. split.
    + eapply Forall_impl; [apply helper_events_kind|]. intros n Hn. left. exact Hn.
    + constructor; [right; left; eauto|].
      constructor; [right; right; reflexivity|constructor].
Qed.

Lemma dispatched_between_trans P s1 s2 s3 :
  dispatched_between P s1 s2 → dispatched_between P s2 s3 → dispatched_between P s1 s3.
Proof.
  intros (e1 & H1 & F1) (e2 & H2 & F2). exists (e1 ++ e2). split.
  - rewrite H2, H1, app_assoc. reflexivity.
  - apply Forall_app. auto.
Qed.

Lemma dispatched_between_refl P s : dispatched_between P s s.
Proof. exists []. split; [rewrite app_nil_r; reflexivity|constructor]. Qed.

Lemma set_children_same (o : Object3D) (cs : list nat) :
  children o = cs → set_children cs o = o.
Proof. intros <-. destruct o; reflexivity. Qed.

(** The loop [while (r.children.length > 0) removeObject(r.children[0])],
    on children consistent with the store: it returns, having removed them
    all from [r]. *)
Lemma remove_children_loop (cls : ComponentClass) (fuel : nat) (r : nat) :
  ∀ (cs : list nat) (lcs : list (list nat)) (s : Editor) (robj : Object3D) (n : nat),
    components s !! SceneReferenceComponent_componentName = Some cls →
    objects s !! r = Some robj →
    children robj = cs →
    NoDup cs →
    Forall2 (λ c lc, ∃ oc, objects s !! c = Some oc ∧ parent oc = Some r ∧
                           subtree fuel (objects s) c = Some lc ∧ r ∉ lc) cs lcs →
    length cs < n →
    ∃ s',
      while_first_child n r (removeObject fuel) s = Ok tt s' ∧
      children_removed r cs (objects s) (objects s') ∧
      graph_frame s s' ∧
      dispatched_between (removal_event (sceneGraphChanged_active s)) s s' ∧
      fd_shrunk (λ d u, d ∈ concat lcs ∧
                        ∃ i, carried (objects s) cls d = Some i ∧ getProperty i "src" = u)
                (fileDependencies s) (fileDependencies s').
Proof.
  induction cs as [|c cs IH]; intros lcs s robj n Hreg Hr Hcs Hnd Hall Hlen.
  - destruct n as [|n]; [simpl in Hlen; lia|].
    exists s. simpl. rewrite bind_eq. unfold get_object at 1. rewrite Hr, Hcs.
    split; [reflexivity|]. split; [|split; [apply graph_frame_refl|split]].
    + split; [|split; [intros c Hc; inversion Hc|reflexivity]].
      rewrite Hr. simpl. rewrite (set_children_same _ _ Hcs). reflexivity.
    + apply dispatched_between_refl.
    + apply fd_shrunk_refl.
  - destruct n as [|n]; [simpl in Hlen; lia|].
    inversion Hall as [|? lc ? lcs' (oc & Hoc & Hpar & Hlc & Hrlc) Hall']; subst lcs.
    subst. apply NoDup_cons in Hnd as [Hfresh Hnd].
    assert (Hcr : c ≠ r).
    { intros ->. apply Hrlc. eapply subtree_root, Hlc. }
    pose proof (removeObject_run cls fuel c r s oc lc Hreg Hoc Hpar
                  (ex_intro _ robj Hr) Hlc) as Hrun1.
    set (s1 := removeObject_result cls lc r c s) in *.
    assert (Hh1 : objects s1 =
                  alter (set_children cs) r (alter (set_parent None) c (objects s))).
    { unfold s1, removeObject_result. simpl. rewrite detach_all_objects.
      apply unlink_head with robj; assumption. }
    assert (Hr1 : objects s1 !! r = Some (set_children cs robj)).
    { rewrite Hh1, lookup_alter_eq, lookup_alter_ne, Hr by exact Hcr. reflexivity. }
    assert (Hother : ∀ x, x ≠ r → x ≠ c → objects s1 !! x = objects s !! x).
    { intros x Hxr Hxc. rewrite Hh1, !lookup_alter_ne by congruence. reflexivity. }
    assert (Hchildren : ∀ x, x ≠ r → children <$> objects s1 !! x = children <$> objects s !! x).
    { intros x Hxr. rewrite Hh1, lookup_alter_ne by congruence.
      apply children_alter_parent. }
    assert (Hcarried : ∀ d, carried (objects s1) cls d = carried (objects s) cls d).
    { intros d. apply carried_ext. rewrite Hh1.
      rewrite (registered_alter_children _ r (λ _, cs)). apply registered_alter_parent. }
    assert (Hall1 : Forall2 (λ c' lc', ∃ oc', objects s1 !! c' = Some oc' ∧
                       parent oc' = Some r ∧
                       subtree fuel (objects s1) c' = Some lc' ∧ r ∉ lc') cs lcs').
    { apply Forall2_same_length_lookup. split; [eapply Forall2_length, Hall'|].
      intros j c' lc' Hc' Hlc'.
      destruct (Forall2_lookup_lr _ _ _ _ _ _ Hall' Hc' Hlc')
        as (oc' & Hoc' & Hpar' & Hsub' & Hr').
      assert (c' ≠ r) by (intros ->; apply Hr'; eapply subtree_root, Hsub').
      assert (c' ≠ c).
      { intros ->. apply Hfresh. eapply list_elem_of_lookup_2, Hc'. }
      exists oc'. rewrite Hother by assumption. repeat split; try assumption.
      apply subtree_ext with (objects s); [exact Hsub'|].
      intros x Hx. apply Hchildren. intros ->. exact (Hr' Hx). }
    destruct (IH lcs' s1 (set_children cs robj) n) as (s' & Hloop & Hrem & Hframe & Hdisp & Hfd).
    + unfold s1. destruct (removeObject_result_frame cls lc r c s) as (-> & _). exact Hreg.
    + exact Hr1.
    + reflexivity.
    + exact Hnd.
    + exact Hall1.
    + simpl in Hlen. lia.
    + exists s'. split; [|split; [|split; [|split]]].
      * simpl. rewrite bind_eq. unfold get_object at 1. rewrite Hr, Hcs.
        rewrite (bind_Ok _ _ _ _ _ Hrun1). exact Hloop.
      * destruct Hrem as (Hrem_r & Hrem_c & Hrem_o). split; [|split].
        -- rewrite Hrem_r, Hr1, Hr. reflexivity.
        -- intros x Hx. apply elem_of_cons in Hx as [->|Hx].
           ++ rewrite Hrem_o by assumption.
              rewrite Hh1, lookup_alter_ne, lookup_alter_eq by congruence. reflexivity.
           ++ rewrite (Hrem_c x Hx). f_equal. apply Hother.
              ** apply list_elem_of_lookup in Hx as [j Hj].
                 destruct (Forall2_lookup_l _ _ _ _ _ Hall' Hj)
                   as (lc' & _ & oc' & _ & _ & Hsub' & Hr').
                 intros ->. apply Hr'. eapply subtree_root, Hsub'.
              ** intros ->. exact (Hfresh Hx).
        -- intros x Hxr Hx. rewrite Hrem_o.
           ++ apply Hother; [exact Hxr|]. intros ->. apply Hx. left.
           ++ exact Hxr.
           ++ intros Hin. apply Hx. right. exact Hin.
      * eapply graph_frame_trans; [apply removeObject_result_frame|exact Hframe].
      * eapply dispatched_between_trans; [apply removeObject_result_dispatched|].
        destruct (removeObject_result_frame cls lc r c s) as (_ & _ & Hact).
        fold s1 in Hact. rewrite <- Hact. exact Hdisp.
      * eapply fd_shrunk_trans.
        -- eapply fd_shrunk_weaken; [|exact (detach_all_shrunk cls lc s)].
           intros d u [Hd Hi]. split; [|exact Hi]. simpl. apply elem_of_app. left. exact Hd.
        -- eapply fd_shrunk_weaken; [|exact Hfd].
           intros d u [Hd Hi]. rewrite Hcarried in Hi. split; [|exact Hi].
           simpl. apply elem_of_app. right. exact Hd.
Qed.

(** ** Stores of the same shape *)

Lemma same_shape_refl h : same_shape h h.
Proof. intros x. reflexivity. Qed.

Lemma same_shape_trans h1 h2 h3 : same_shape h1 h2 → same_shape h2 h3 → same_shape h1 h3.
Proof. intros H12 H23 x. rewrite H23. apply H12. Qed.

Lemma same_shape_alter (f : Object3D → Object3D) (k : nat) (h : gmap nat Object3D) :
  (∀ o, shape (f o) = shape o) → same_shape h (alter f k h).
Proof.
  intros Hf x. rewrite lookup_alter. case_decide; [subst|reflexivity].
  destruct (h !! x); simpl; [rewrite Hf|]; reflexivity.
Qed.

Lemma same_shape_lookup h h' x o :
  same_shape h h' → h !! x = Some o →
  ∃ o', h' !! x = Some o' ∧ parent o' = parent o ∧ children o' = children o ∧
        registered o' = registered o.
Proof.
  intros Hs Hx. specialize (Hs x). rewrite Hx in Hs.
  destruct (h' !! x) as [o'|]; [|discriminate]. simpl in Hs. unfold shape in Hs.
  injection Hs as H1 H2 H3. eauto.
Qed.

Lemma same_shape_children h h' x :
  same_shape h h' → children <$> h' !! x = children <$> h !! x.
Proof.
  intros Hs. specialize (Hs x). destruct (h' !! x), (h !! x); simpl in *;
    unfold shape in Hs; congruence.
Qed.

Lemma same_shape_carried h h' cls d :
  same_shape h h' → carried h' cls d = carried h cls d.
Proof.
  intros Hs. apply carried_ext. specialize (Hs d).
  destruct (h' !! d), (h !! d); simpl in *; unfold shape in Hs; congruence.
Qed.

Lemma same_shape_subtree h h' fuel o l :
  same_shape h h' → subtree fuel h o = Some l → subtree fuel h' o = Some l.
Proof.
  intros Hs Hl. apply subtree_ext with h; [exact Hl|].
  intros x _. apply same_shape_children. exact Hs.
Qed.

Lemma fd_shrunk_dom P (fd fd' : gmap Value JsSet) :
  fd_shrunk P fd fd' → dom fd' = dom fd.
Proof.
  intros H. apply set_eq. intros u. rewrite !elem_of_dom. specialize (H u).
  destruct (fd !! u), (fd' !! u); try contradiction; split; eauto;
    intros [? ?]; discriminate.
Qed.

(** ** Frames of clear *)

Section keeps.
Context {X : Type} (f : Editor → X).

Lemma keeps_ret {A} (a : A) : keeps f (mret a).
Proof. intros s. reflexivity. Qed.

Lemma keeps_bind {A B} (m : M A) (k : A → M B) :
  keeps f m → (∀ a, keeps f (k a)) → keeps f (m ≫= k).
Proof.
  intros Hm Hk s. rewrite bind_eq. specialize (Hm s).
  destruct (m s) as [a s1|e s1| |]; try exact Hm.
  specialize (Hk a s1). destruct (k a s1); try exact I; congruence.
Qed.

Lemma keeps_gets {A} (g : Editor → A) : keeps f (gets g).
Proof. intros s. reflexivity. Qed.

Lemma keeps_throw {A} (e : JsError) : keeps f (throw (A := A) e).
Proof. intros s. reflexivity. Qed.

Lemma keeps_modify (g : Editor → Editor) : (∀ s, f (g s) = f s) → keeps f (modify g).
Proof. intros Hg s. apply Hg. Qed.

Lemma keeps_get_object (o : nat) : keeps f (get_object o).
Proof. intros s. unfold get_object. destruct (_ !! _); [reflexivity|exact I]. Qed.

Lemma keeps_forM {A} (l : list A) (body : A → M unit) :
  (∀ x, keeps f (body x)) → keeps f (forM_ l body).
Proof.
  intros Hbody. induction l as [|x l IH]; simpl.
  - apply keeps_ret.
  - apply keeps_bind; [apply Hbody|intros _; exact IH].
Qed.

Lemma keeps_traverse (fuel : nat) (callback : nat → M unit) :
  (∀ x, keeps f (callback x)) → ∀ o, keeps f (traverse fuel callback o).
Proof.
  intros Hcb. induction fuel as [|fuel IH]; intros o; simpl.
  - intros s. exact I.
  - apply keeps_bind; [apply Hcb|intros _].
    apply keeps_bind; [apply keeps_get_object|intros obj].
    apply keeps_forM. intros i.
    apply keeps_bind; [apply keeps_get_object|intros obj'].
    destruct (children obj' !! i); [apply IH|apply keeps_throw].
Qed.

Lemma keeps_while_first_child (fuel : nat) (o : nat) (body : nat → M unit) :
  (∀ x, keeps f (body x)) → keeps f (while_first_child fuel o body).
Proof.
  intros Hbody. induction fuel as [|fuel IH]; simpl.
  - intros s. exact I.
  - apply keeps_bind; [apply keeps_get_object|intros obj].
    destruct (children obj) as [|c cs]; [apply keeps_ret|].
    apply keeps_bind; [apply Hbody|intros _; exact IH].
Qed.

Context (Hf : clear_frame f).

Lemma keeps_modify_object (o : nat) (g : Object3D → Object3D) :
  keeps f (modify_object o g).
Proof.
  intros s. unfold modify_object. destruct (_ !! _); [|exact I].
  apply (frame_objects f Hf).
Qed.

Lemma keeps_dispatch (sig : Signal) : keeps f (dispatch sig).
Proof. apply keeps_modify. intros s. apply (frame_dispatched f Hf). Qed.

Lemma keeps_removeHelper (o : nat) : keeps f (removeHelper o).
Proof.
  unfold removeHelper. apply keeps_bind; [apply keeps_gets|intros hs].
  destruct (hs !! o); [|apply keeps_ret].
  apply keeps_bind; [apply keeps_modify; intros; apply (frame_sceneHelpers f Hf)|intros _].
  apply keeps_bind; [apply keeps_modify; intros; apply (frame_helpers f Hf)|intros _].
  apply keeps_dispatch.
Qed.

Lemma keeps_getComponent (o : nat) (T : string) : keeps f (getComponent o T).
Proof.
  unfold getComponent, class_getComponent.
  apply keeps_bind; [apply keeps_gets|intros cs].
  destruct (cs !! T).
  - apply keeps_bind; [|intros; apply keeps_ret].
    apply keeps_bind; [apply keeps_get_object|intros; apply keeps_ret].
  - apply keeps_bind; [apply keeps_get_object|intros obj].
    destruct (ud_components (userData obj)); [apply keeps_ret|apply keeps_throw].
Qed.

Lemma keeps_removeSceneRefDependency (o : nat) : keeps f (removeSceneRefDependency o).
Proof.
  unfold removeSceneRefDependency.
  apply keeps_bind; [apply keeps_getComponent|intros [c|]]; [|apply keeps_ret].
  apply keeps_bind.
  { destruct c; [apply keeps_ret|apply keeps_throw]. }
  intros src s. rewrite bind_eq. unfold gets at 1.
  destruct (fileDependencies s !! src) as [D|] eqn:HD; [|reflexivity].
  apply (frame_fileDependencies f Hf src D _ s HD).
Qed.

Lemma keeps_Object3D_remove (p o : nat) : keeps f (Object3D_remove p o).
Proof.
  unfold Object3D_remove. apply keeps_bind; [apply keeps_get_object|intros pobj].
  destruct (_ =? _)%Z; [apply keeps_ret|].
  apply keeps_bind; [apply keeps_modify_object|intros _; apply keeps_modify_object].
Qed.

Lemma keeps_removeObject (fuel : nat) (o : nat) : keeps f (removeObject fuel o).
Proof.
  unfold removeObject. apply keeps_bind; [apply keeps_get_object|intros obj].
  destruct (parent obj); [|apply keeps_ret].
  apply keeps_bind.
  { apply keeps_traverse. intros x.
    apply keeps_bind; [apply keeps_removeHelper|intros _].
    apply keeps_removeSceneRefDependency. }
  intros _. apply keeps_bind; [apply keeps_get_object|intros obj'].
  apply keeps_bind.
  { destruct (parent obj'); [apply keeps_Object3D_remove|apply keeps_throw]. }
  intros _. apply keeps_bind; [apply keeps_dispatch|intros _; apply keeps_dispatch].
Qed.

Lemma keeps_clear (fuel : nat) : keeps f (clear fuel).
Proof.
  unfold clear.
  apply keeps_bind; [apply keeps_modify; intros; apply (frame_calls f Hf)|intros _].
  apply keeps_bind; [apply keeps_modify; intros; apply (frame_calls f Hf)|intros _].
  apply keeps_bind; [apply keeps_gets|intros cam].
  apply keeps_bind; [apply keeps_gets|intros dc].
  apply keeps_bind.
  { unfold Object3D_copy. apply keeps_bind; [apply keeps_get_object|intros src].
    apply keeps_modify_object. }
  intros _. apply keeps_bind; [apply keeps_gets|intros sc].
  apply keeps_bind; [apply keeps_get_object|intros scobj].
  apply keeps_bind.
  { destruct (background scobj); [apply keeps_modify_object|apply keeps_throw]. }
  intros _. apply keeps_bind; [apply keeps_modify_object|intros _].
  apply keeps_bind.
  { apply keeps_while_first_child. intros c. apply keeps_removeObject. }
  intros _.
  apply keeps_bind; [apply keeps_modify; intros; apply (frame_geometries f Hf)|intros _].
  apply keeps_bind; [apply keeps_modify; intros; apply (frame_materials f Hf)|intros _].
  apply keeps_bind; [apply keeps_modify; intros; apply (frame_textures f Hf)|intros _].
  apply keeps_bind; [apply keeps_modify; intros; apply (frame_scripts f Hf)|intros _].
  apply keeps_bind; [|intros _; apply keeps_dispatch].
  unfold deselect, select. apply keeps_bind; [apply keeps_gets|intros sel].
  destruct (decide (sel = None)); [apply keeps_ret|].
  apply keeps_bind; [apply keeps_modify; intros; apply (frame_selected f Hf)|intros _].
  apply keeps_dispatch.
Qed.
End keeps.

Lemma components_clear_frame : clear_frame components.
Proof. constructor; reflexivity. Qed.

Lemma dependency_keys_clear_frame :
  clear_frame (λ s, dom (fileDependencies s) : gset Value).
Proof.
  constructor; try reflexivity.
  intros u D D' s HD. simpl. apply dom_insert_lookup_L. eauto.
Qed.

(** ** clear *)

Lemma Object3D_copy_alter (target source : nat) (s : Editor) (src : Object3D) :
  objects s !! source = Some src →
  is_Some (objects s !! target) →
  Object3D_copy target source s =
    Ok tt (set_objects
             (alter (λ x, set_userData (json_userData (userData src))
                            (set_name (name src) x)) target (objects s)) s).
Proof.
  intros Hsrc Ht. unfold Object3D_copy. rewrite bind_eq. unfold get_object at 1.
  rewrite Hsrc. apply modify_object_alter. exact Ht.
Qed.

Lemma lookup_alter_background (f : Object3D → Object3D) (k x : nat)
    (h : gmap nat Object3D) (o : Object3D) :
  (∀ y, background (f y) = background y) →
  h !! x = Some o →
  ∃ o', alter f k h !! x = Some o' ∧ background o' = background o.
Proof.
  intros Hf Hx. rewrite lookup_alter. case_decide; [subst|eauto].
  rewrite Hx. simpl. eauto.
Qed.

(** The objects below a listed child are descendants of that child. *)
Lemma listed_releasable (fuel : nat) (h : gmap nat Object3D) (cls : ComponentClass)
    (r : nat) (robj : Object3D) (lcs : list (list nat)) (avoid : list nat) :
  h !! r = Some robj →
  Forall2 (λ c lc, ∃ oc, h !! c = Some oc ∧ parent oc = Some r ∧
                         subtree fuel h c = Some lc ∧ Forall (λ a, a ∉ lc) avoid)
          (children robj) lcs →
  ∀ d u, (d ∈ concat lcs ∧ ∃ i, carried h cls d = Some i ∧ getProperty i "src" = u) →
         releasable h cls r d u.
Proof.
  intros Hr Hall d u [Hd Hi]. split; [|exact Hi].
  apply elem_of_concat in Hd as (lc & Hd & Hlc).
  apply list_elem_of_lookup in Hlc as [j Hj].
  destruct (Forall2_lookup_r _ _ _ _ _ Hall Hj) as (c & Hc & oc & _ & _ & Hsub & _).
  exists robj, c. split; [exact Hr|]. split; [eapply list_elem_of_lookup_2, Hc|].
  eapply subtree_sound; eassumption.
Qed.

(** Children consistent with a store are consistent with any store of the
    same shape. *)
Lemma children_ready_transfer (fuel : nat) (h h' : gmap nat Object3D) (r : nat)
    (cs : list nat) (lcs : list (list nat)) (avoid : list nat) :
  same_shape h h' →
  Forall2 (λ c lc, ∃ oc, h !! c = Some oc ∧ parent oc = Some r ∧
                         subtree fuel h c = Some lc ∧ Forall (λ a, a ∉ lc) avoid) cs lcs →
  Forall2 (λ c lc, ∃ oc, h' !! c = Some oc ∧ parent oc = Some r ∧
                         subtree fuel h' c = Some lc ∧ Forall (λ a, a ∉ lc) avoid) cs lcs.
Proof.
  intros Hs Hall. eapply Forall2_impl; [exact Hall|].
  intros c lc (oc & Hoc & Hpar & Hsub & Havoid).
  destruct (same_shape_lookup _ _ _ _ Hs Hoc) as (oc' & Hoc' & Hpar' & _ & _).
  exists oc'. repeat split; [exact Hoc'|congruence| |exact Havoid].
  eapply same_shape_subtree; eassumption.
Qed.

Lemma Forall2_avoid_head (fuel : nat) (h : gmap nat Object3D) (r a : nat)
    (cs : list nat) (lcs : list (list nat)) (avoid : list nat) :
  Forall2 (λ c lc, ∃ oc, h !! c = Some oc ∧ parent oc = Some r ∧
                         subtree fuel h c = Some lc ∧ Forall (λ a, a ∉ lc) (a :: avoid))
          cs lcs →
  Forall2 (λ c lc, ∃ oc, h !! c = Some oc ∧ parent oc = Some r ∧
                         subtree fuel h c = Some lc ∧ a ∉ lc) cs lcs.
Proof.
  intros Hall. eapply Forall2_impl; [exact Hall|].
  intros c lc (oc & Hoc & Hpar & Hsub & Havoid). exists oc.
  repeat split; try assumption. inversion Havoid; assumption.
Qed.

(** C10.  Whatever the editor, a call of [clear] that returns or throws
    leaves the component registry as it was and the dependency map with the
    keys it had.  On an editor whose scene root, cameras and root children
    are consistent with the store, [clear] returns; then, under each key of
    the dependency map, the set is the one it was, where the only entries
    gone are objects below a root child that carry a scene reference to that
    key; and the geometry, material, texture and script tables are empty. *)
Theorem clear_spec (fuel : nat) :
  keeps components (clear fuel) ∧
  keeps (λ s, dom (fileDependencies s)) (clear fuel) ∧
  ∀ (s : Editor) (cls : ComponentClass) (scobj : Object3D),
    components s !! SceneReferenceComponent_componentName = Some cls →
    objects s !! scene s = Some scobj →
    is_Some (background scobj) →
    is_Some (objects s !! camera s) →
    is_Some (objects s !! DEFAULT_CAMERA s) →
    children_ready fuel (objects s) (scene s) [scene s] = true →
    ∃ s',
      clear fuel s = Ok tt s' ∧
      fd_shrunk (releasable (objects s) cls (scene s))
        (fileDependencies s) (fileDependencies s') ∧
      geometries s' = ∅ ∧ materials s' = ∅ ∧ textures s' = ∅ ∧ scripts s' = ∅.
Proof.
  split; [exact (keeps_clear components components_clear_frame fuel)|].
  split; [exact (keeps_clear _ dependency_keys_clear_frame fuel)|].
  intros s cls scobj Hreg Hsc [bg Hbg] Hcam [dcobj Hdc] Hready.
  apply children_ready_spec in Hready as (robj & lcs & Hr & Hnd & Hlen & Hall).
  rewrite Hsc in Hr. injection Hr as <-.
  unfold clear.
  rewrite bind_eq. unfold modify at 1.
  rewrite bind_eq. unfold modify at 1.
  rewrite bind_eq. unfold gets at 1.
  rewrite bind_eq. unfold gets at 1.
  set (sa := set_calls _ _).
  change (camera sa) with (camera s). change (DEFAULT_CAMERA sa) with (DEFAULT_CAMERA s).
  rewrite (bind_Ok _ _ _ _ _ (Object3D_copy_alter (camera s) (DEFAULT_CAMERA s) sa dcobj Hdc Hcam)).
  set (copyf := λ x : Object3D, set_userData (json_userData (userData dcobj))
                                  (set_name (name dcobj) x)).
  set (sb := set_objects (alter copyf (camera s) (objects sa)) sa).
  rewrite bind_eq. unfold gets at 1. change (scene sb) with (scene s).
  destruct (lookup_alter_background copyf (camera s) (scene s) (objects s) scobj
              (λ _, eq_refl) Hsc) as (scobj1 & Hsc1 & Hbg1).
  rewrite bind_eq. unfold get_object at 1.
  change (objects sb) with (alter copyf (camera s) (objects s)).
  rewrite Hsc1, Hbg1, Hbg.
  rewrite (bind_Ok _ _ _ _ _ (modify_object_alter (scene s) _ sb (ex_intro _ scobj1 Hsc1))).
  set (sc := set_objects _ sb).
  rewrite (bind_Ok _ _ _ tt (set_objects (alter (set_fog None) (scene s) (objects sc)) sc)).
  2:{ apply modify_object_alter. unfold sc. simpl. rewrite lookup_alter_eq.
      change (objects sb) with (alter copyf (camera s) (objects s)).
      rewrite Hsc1. eauto. }
  set (sd := set_objects _ sc).
  assert (Hshape : same_shape (objects s) (objects sd)).
  { unfold sd, sc. simpl. change (objects sb) with (alter copyf (camera s) (objects s)).
    eapply same_shape_trans; [|apply same_shape_alter; intros; reflexivity].
    eapply same_shape_trans; [|apply same_shape_alter; intros; reflexivity].
    apply same_shape_alter. intros; reflexivity. }
  destruct (same_shape_lookup _ _ _ _ Hshape Hsc) as (scobjd & Hscd & _ & Hchd & _).
  destruct (remove_children_loop cls fuel (scene s) (children scobj) lcs sd scobjd fuel)
    as (se & Hloop & _ & _ & _ & Hfd).
  - exact Hreg.
  - exact Hscd.
  - exact Hchd.
  - exact Hnd.
  - apply Forall2_avoid_head with [].
    eapply children_ready_transfer; [exact Hshape|exact Hall].
  - exact Hlen.
  - rewrite (bind_Ok _ _ _ _ _ Hloop).
    unfold deselect, select. munfold. simpl.
    assert (Hfd' : fd_shrunk (releasable (objects s) cls (scene s))
                     (fileDependencies s) (fileDependencies se)).
    { eapply fd_shrunk_weaken; [|exact Hfd].
      intros d u [Hd Hi]. apply (listed_releasable fuel _ cls _ scobj lcs [scene s] Hsc Hall).
      split; [exact Hd|]. rewrite (same_shape_carried _ _ cls d Hshape) in Hi. exact Hi. }
    destruct (decide (selected se = None)); simpl;
      (eexists; split; [reflexivity|]; simpl; split; [exact Hfd'|]; auto).
Qed.

Lemma clear_spec_witness :
  ∃ s', clear 4 populated_editor = Ok tt s' ∧
        geometries s' = ∅ ∧ materials s' = ∅ ∧ textures s' = ∅ ∧ scripts s' = ∅.
Proof.
  pose proof (proj2 (proj2 (clear_spec 4))) as H.
  specialize (H populated_editor SceneReferenceComponent (object_of populated_editor 2)).
  assert (H1 : components populated_editor !! SceneReferenceComponent_componentName
               = Some SceneReferenceComponent) by (vm_compute; reflexivity).
  assert (H2 : objects populated_editor !! scene populated_editor
               = Some (object_of populated_editor 2)) by (vm_compute; reflexivity).
  assert (H3 : is_Some (background (object_of populated_editor 2))) by (vm_compute; eauto).
  assert (H4 : is_Some (objects populated_editor !! camera populated_editor))
    by (vm_compute; eauto).
  assert (H5 : is_Some (objects populated_editor !! DEFAULT_CAMERA populated_editor))
    by (vm_compute; eauto).
  assert (H6 : children_ready 4 (objects populated_editor) (scene populated_editor)
                 [scene populated_editor] = true) by (vm_compute; reflexivity).
  specialize (H H1 H2 H3 H4 H5 H6).
  destruct H as (s' & Hrun & Hfd & Hg & Hm & Ht & Hs).
  exists s'. auto.
Defined.

(** ** Moving the first child of an object to the scene root *)

Lemma register_step_dispatched root s d :
  dispatched_between (addition_event (sceneGraphChanged_active s)) s (register_step root s d).
Proof.
  unfold dispatched_between, register_step, add_helper, notify.
  repeat (case_match; simpl);
    first [ exists []; split; [rewrite app_nil_r; reflexivity|constructor]
          | eexists [_]; split; [reflexivity|];
            constructor; [left; eauto|constructor] ].
Qed.

Lemma register_all_dispatched root (l : list nat) :
  ∀ s, dispatched_between (addition_event (sceneGraphChanged_active s))
         s (register_all root l s).
Proof.
  unfold register_all. induction l as [|d l IH]; intros s; simpl.
  - apply dispatched_between_refl.
  - eapply dispatched_between_trans; [apply register_step_dispatched|].
    rewrite <- (register_step_active root s d). apply IH.
Qed.

Lemma addObject_result_frame l p o s : graph_frame s (addObject_result l p o s).
Proof.
  unfold graph_frame, addObject_result. simpl.
  rewrite register_all_components, register_all_scene, register_all_active. auto.
Qed.

Lemma addObject_result_dispatched l p o s :
  dispatched_between (addition_event (sceneGraphChanged_active s))
    s (addObject_result l p o s).
Proof.
  eapply dispatched_between_trans; [apply (register_all_dispatched o l s)|].
  exists [mkNotification (objectAdded o) true;
          mkNotification sceneGraphChanged (sceneGraphChanged_active s)].
  split.
  - unfold addObject_result. simpl. rewrite register_all_active, <- app_assoc. reflexivity.
  - constructor; [right; left; eauto|].
    constructor; [right; right; reflexivity|constructor].
Qed.

Lemma link_head (live src c : nat) (cs : list nat) (h : gmap nat Object3D)
    (oc sobj : Object3D) :
  c ≠ live →
  h !! c = Some oc → parent oc = Some src →
  h !! src = Some sobj → children sobj = c :: cs →
  link live c h =
    alter (λ x, set_children (children x ++ [c]) x) live
      (alter (set_parent (Some live)) c
         (alter (set_children cs) src (alter (set_parent None) c h))).
Proof.
  intros Hne Hc Hpar Hsrc Hcs. unfold link. rewrite decide_False by exact Hne.
  rewrite Hc, Hpar. rewrite (unlink_head src c cs h sobj Hsrc Hcs). reflexivity.
Qed.

(** The loop [while (source.children.length > 0) addObject(source.children[0])],
    on children consistent with the store: it returns, having moved them all
    to the scene root. *)
Lemma add_children_loop (fuel : nat) (src live : nat) :
  src ≠ live →
  ∀ (cs : list nat) (lcs : list (list nat)) (s : Editor) (sobj : Object3D) (n : nat),
    scene s = live →
    objects s !! src = Some sobj →
    children sobj = cs →
    NoDup cs →
    is_Some (objects s !! live) →
    Forall2 (λ c lc, ∃ oc, objects s !! c = Some oc ∧ parent oc = Some src ∧
                           subtree fuel (objects s) c = Some lc ∧
                           Forall (λ a, a ∉ lc) [live; src]) cs lcs →
    length cs < n →
    ∃ s',
      while_first_child n src (λ child, addObject fuel child None) s = Ok tt s' ∧
      children_moved src live cs (objects s) (objects s') ∧
      graph_frame s s' ∧
      dispatched_between (addition_event (sceneGraphChanged_active s)) s s'.
Proof.
  intros Hsl.
  induction cs as [|c cs IH]; intros lcs s sobj n Hscene Hsrc Hcs Hnd Hlive Hall Hlen.
  - destruct n as [|n]; [simpl in Hlen; lia|].
    exists s. simpl. rewrite bind_eq. unfold get_object at 1. rewrite Hsrc, Hcs.
    split; [reflexivity|]. split; [|split; [apply graph_frame_refl|]].
    + split; [|split; [|split; [intros c Hc; inversion Hc|reflexivity]]].
      * rewrite Hsrc. simpl. rewrite (set_children_same _ _ Hcs). reflexivity.
      * destruct Hlive as [lobj ->]. simpl. rewrite app_nil_r.
        rewrite (set_children_same lobj) by reflexivity. reflexivity.
    + apply dispatched_between_refl.
  - destruct n as [|n]; [simpl in Hlen; lia|].
    inversion Hall as [|? lc ? lcs' (oc & Hoc & Hpar & Hlc & Havoid) Hall']; subst.
    apply NoDup_cons in Hnd as [Hfresh Hnd].
    assert (Hin : c ∈ lc) by (eapply subtree_root, Hlc).
    assert (Hcl : c ≠ scene s).
    { intros ->. inversion Havoid as [|? ? H1 _]; subst. exact (H1 Hin). }
    assert (Hcs' : c ≠ src).
    { intros ->. inversion Havoid as [|? ? _ H2]; subst.
      inversion H2 as [|? ? H3 _]; subst. exact (H3 Hin). }
    assert (Hrun1 : addObject fuel c None s = Ok tt (addObject_result lc (scene s) c s)).
    { apply (addObject_run fuel c None s oc lc Hoc Hlive); [|exact Hlc].
      intros q Hq. rewrite Hpar in Hq. injection Hq as <-. eauto. }
    set (s1 := addObject_result lc (scene s) c s) in *.
    assert (Hh1 : objects s1 =
              alter (λ x, set_children (children x ++ [c]) x) (scene s)
                (alter (set_parent (Some (scene s))) c
                   (alter (set_children cs) src
                      (alter (set_parent None) c (objects s))))).
    { unfold s1, addObject_result. simpl. rewrite register_all_objects.
      apply link_head with oc sobj; assumption. }
    assert (Hsrc1 : objects s1 !! src = Some (set_children cs sobj)).
    { rewrite Hh1. rewrite lookup_alter_ne by congruence.
      rewrite lookup_alter_ne by congruence.
      rewrite lookup_alter_eq, lookup_alter_ne, Hsrc by congruence. reflexivity. }
    assert (Hother : ∀ x, x ≠ src → x ≠ scene s → x ≠ c →
                          objects s1 !! x = objects s !! x).
    { intros x H1 H2 H3. rewrite Hh1, !lookup_alter_ne by congruence. reflexivity. }
    assert (Hchildren : ∀ x, x ≠ src → x ≠ scene s →
                          children <$> objects s1 !! x = children <$> objects s !! x).
    { intros x H1 H2. rewrite Hh1. rewrite lookup_alter_ne by congruence.
      rewrite children_alter_parent. rewrite lookup_alter_ne by congruence.
      apply children_alter_parent. }
    assert (Hlive1 : objects s1 !! scene s =
                     (λ x, set_children (children x ++ [c]) x) <$> objects s !! scene s).
    { rewrite Hh1, lookup_alter_eq, !lookup_alter_ne by congruence. reflexivity. }
    assert (Hc1 : objects s1 !! c = set_parent (Some (scene s)) <$> objects s !! c).
    { rewrite Hh1. rewrite lookup_alter_ne by congruence.
      rewrite lookup_alter_eq, lookup_alter_ne, lookup_alter_eq, Hoc by congruence.
      reflexivity. }
    assert (Hneq : ∀ j c' lc', cs !! j = Some c' → lcs' !! j = Some lc' →
                     c' ≠ src ∧ c' ≠ scene s ∧ c' ≠ c ∧
                     ∃ oc', objects s !! c' = Some oc' ∧ parent oc' = Some src ∧
                            subtree fuel (objects s) c' = Some lc' ∧
                            Forall (λ a, a ∉ lc') [scene s; src]).
    { intros j c' lc' Hc' Hlc'.
      destruct (Forall2_lookup_lr _ _ _ _ _ _ Hall' Hc' Hlc')
        as (oc' & Hoc' & Hpar' & Hsub' & Havoid').
      pose proof (subtree_root _ _ _ _ Hsub') as Hin'.
      inversion Havoid' as [|? ? H1 H2]; subst. inversion H2 as [|? ? H3 _]; subst.
      repeat split.
      - intros ->. exact (H3 Hin').
      - intros Heq. rewrite Heq in Hin'. exact (H1 Hin').
      - intros ->. apply Hfresh. eapply list_elem_of_lookup_2, Hc'.
      - eauto. }
    assert (Hall1 : Forall2 (λ c' lc', ∃ oc', objects s1 !! c' = Some oc' ∧
                       parent oc' = Some src ∧
                       subtree fuel (objects s1) c' = Some lc' ∧
                       Forall (λ a, a ∉ lc') [scene s; src]) cs lcs').
    { apply Forall2_same_length_lookup. split; [eapply Forall2_length, Hall'|].
      intros j c' lc' Hc' Hlc'.
      destruct (Hneq j c' lc' Hc' Hlc') as (H1 & H2 & H3 & oc' & Hoc' & Hpar' & Hsub' & Hav').
      exists oc'. rewrite Hother by assumption. repeat split; try assumption.
      apply subtree_ext with (objects s); [exact Hsub'|].
      intros x Hx. inversion Hav' as [|? ? H4 H5]; subst. inversion H5 as [|? ? H6 _]; subst.
      apply Hchildren; intros ->; auto. }
    destruct (addObject_result_frame lc (scene s) c s) as (Hcomp1 & Hscene1 & Hact1).
    fold s1 in Hcomp1, Hscene1, Hact1.
    destruct (IH lcs' s1 (set_children cs sobj) n) as (s' & Hloop & Hmov & Hframe & Hdisp).
    + exact Hscene1.
    + exact Hsrc1.
    + reflexivity.
    + exact Hnd.
    + rewrite Hlive1. destruct Hlive as [lobj ->]. simpl. eauto.
    + exact Hall1.
    + simpl in Hlen. lia.
    + exists s'. split; [|split; [|split]].
      * simpl. rewrite bind_eq. unfold get_object at 1. rewrite Hsrc, Hcs.
        rewrite (bind_Ok _ _ _ _ _ Hrun1). exact Hloop.
      * destruct Hmov as (Hm_src & Hm_live & Hm_c & Hm_o). split; [|split; [|split]].
        -- rewrite Hm_src, Hsrc1, Hsrc. reflexivity.
        -- rewrite Hm_live, Hlive1. destruct (objects s !! scene s) as [lobj|]; [|reflexivity].
           simpl. unfold set_children. simpl. rewrite <- app_assoc. reflexivity.
        -- intros x Hx. apply elem_of_cons in Hx as [->|Hx].
           ++ rewrite Hm_o by assumption. exact Hc1.
           ++ rewrite (Hm_c x Hx). f_equal.
              apply list_elem_of_lookup in Hx as [j Hj].
              destruct (Forall2_lookup_l _ _ _ _ _ Hall' Hj) as (lc' & Hlc' & _).
              destruct (Hneq j x lc' Hj Hlc') as (H1 & H2 & H3 & _).
              apply Hother; assumption.
        -- intros x H1 H2 H3. rewrite Hm_o; [|exact H1|exact H2|].
           ++ apply Hother; [exact H1|exact H2|]. intros ->. apply H3. left.
           ++ intros Hin'. apply H3. right. exact Hin'.
      * eapply graph_frame_trans; [apply addObject_result_frame|exact Hframe].
      * eapply dispatched_between_trans; [apply addObject_result_dispatched|].
        rewrite <- Hact1. exact Hdisp.
Qed.

(** ** setScene *)

Lemma step_get {B} (o : nat) (obj : Object3D) (k : Object3D → M B) (s : Editor) :
  objects s !! o = Some obj → (get_object o ≫= k) s = k obj s.
Proof. intros H. rewrite bind_eq. unfold get_object. rewrite H. reflexivity. Qed.

Lemma step_modify {B} (o : nat) (f : Object3D → Object3D) (k : unit → M B) (s : Editor) :
  is_Some (objects s !! o) →
  (modify_object o f ≫= k) s = k tt (set_objects (alter f o (objects s)) s).
Proof. intros H. rewrite bind_eq, (modify_object_alter o f s H). reflexivity. Qed.

Lemma same_shape_is_Some h h' x :
  same_shape h h' → is_Some (h !! x) → is_Some (h' !! x).
Proof.
  intros Hs [o Ho]. destruct (same_shape_lookup _ _ _ _ Hs Ho) as (o' & Ho' & _). eauto.
Qed.

(** The assignments that open [setScene] change fields of the scene root
    that neither the traversals nor the dependency tracker read. *)
Lemma setScene_prefix (fuel : nat) (source : nat) (s : Editor) :
  is_Some (objects s !! source) →
  is_Some (objects s !! scene s) →
  ∃ h0,
    same_shape (objects s) h0 ∧
    setScene fuel source s =
      (while_first_child fuel (scene s) (removeObject fuel);;
       while_first_child fuel source (λ child, addObject fuel child None);;
       modify (set_sceneGraphChanged_active true);;
       dispatch sceneSet)
        (set_sceneGraphChanged_active false (set_objects h0 s)).
Proof.
  intros Hsrc Hsc. unfold setScene.
  rewrite bind_eq. unfold gets at 1.
  destruct Hsrc as [o0 Ho0].
  rewrite (step_get _ _ _ _ Ho0). rewrite (step_modify _ _ _ _ Hsc).
  set (h1 := alter (set_uuid (uuid o0)) (scene s) (objects s)).
  assert (Hs1 : same_shape (objects s) h1) by (apply same_shape_alter; reflexivity).
  destruct (same_shape_is_Some _ _ source Hs1 (ex_intro _ o0 Ho0)) as [o1 Ho1].
  rewrite (step_get source o1) by exact Ho1.
  rewrite step_modify by exact (same_shape_is_Some _ _ _ Hs1 Hsc). simpl.
  set (h2 := alter (set_name (name o1)) (scene s) h1).
  assert (Hs2 : same_shape (objects s) h2).
  { eapply same_shape_trans; [exact Hs1|]. apply same_shape_alter; reflexivity. }
  destruct (same_shape_is_Some _ _ source Hs2 (ex_intro _ o0 Ho0)) as [o2 Ho2].
  rewrite (step_get source o2) by exact Ho2.
  assert (Hbg : ∃ h3, same_shape (objects s) h3 ∧
                      ∀ k : unit → M unit,
                        (match background o2 with
                         | Some b => modify_object (scene s) (set_background (Some b))
                         | None => mret tt
                         end ≫= k) (set_objects h2 (set_objects h1 s))
                        = k tt (set_objects h3 (set_objects h1 s))).
  { destruct (background o2) as [b|].
    - exists (alter (set_background (Some b)) (scene s) h2). split.
      + eapply same_shape_trans; [exact Hs2|]. apply same_shape_alter; reflexivity.
      + intros k. rewrite step_modify by exact (same_shape_is_Some _ _ _ Hs2 Hsc).
        reflexivity.
    - exists h2. split; [exact Hs2|reflexivity]. }
  destruct Hbg as (h3 & Hs3 & Hstep3). rewrite Hstep3.
  destruct (same_shape_is_Some _ _ source Hs3 (ex_intro _ o0 Ho0)) as [o3 Ho3].
  rewrite (step_get source o3) by exact Ho3.
  assert (Hfog : ∃ h4, same_shape (objects s) h4 ∧
                      ∀ k : unit → M unit,
                        (match fog o3 with
                         | Some f => modify_object (scene s) (set_fog (Some f))
                         | None => mret tt
                         end ≫= k) (set_objects h3 (set_objects h1 s))
                        = k tt (set_objects h4 (set_objects h1 s))).
  { destruct (fog o3) as [f|].
    - exists (alter (set_fog (Some f)) (scene s) h3). split.
      + eapply same_shape_trans; [exact Hs3|]. apply same_shape_alter; reflexivity.
      + intros k. rewrite step_modify by exact (same_shape_is_Some _ _ _ Hs3 Hsc).
        reflexivity.
    - exists h3. split; [exact Hs3|reflexivity]. }
  destruct Hfog as (h4 & Hs4 & Hstep4). rewrite Hstep4.
  destruct (same_shape_is_Some _ _ source Hs4 (ex_intro _ o0 Ho0)) as [o4 Ho4].
  rewrite (step_get source o4) by exact Ho4.
  rewrite step_modify by exact (same_shape_is_Some _ _ _ Hs4 Hsc).
  rewrite bind_eq. unfold modify at 1.
  exists (alter (set_userData (json_userData (userData o4))) (scene s) h4).
  split.
  - eapply same_shape_trans; [exact Hs4|]. apply same_shape_alter; reflexivity.
  - reflexivity.
Qed.

Lemma removal_event_silent n : removal_event false n → silent n.
Proof.
  intros [(h & ->)|[(o & ->)| ->]]; split; simpl; try discriminate;
    intros [? ?]; discriminate.
Qed.

Lemma addition_event_silent n : addition_event false n → silent n.
Proof.
  intros [(h & ->)|[(o & ->)| ->]]; split; simpl; try discriminate;
    intros [? ?]; discriminate.
Qed.

Lemma children_removed_children r cs h h' x :
  children_removed r cs h h' → x ≠ r →
  children <$> h' !! x = children <$> h !! x.
Proof.
  intros (_ & Hc & Ho) Hx. destruct (decide (x ∈ cs)) as [Hin|Hin].
  - rewrite (Hc x Hin). apply children_set_parent.
  - rewrite (Ho x Hx Hin). reflexivity.
Qed.

(** C6.  With a source scene other than the live root, and the children of
    both consistent with the store, [setScene] returns; the former children
    of the live root are detached, the live root has the children the source
    had, in their order, and the source has none; between the notifications
    dispatched before the call and the final [sceneSet], which reaches its
    listeners, no [sceneGraphChanged] reached its listeners and no other
    [sceneSet] was dispatched; the [sceneGraphChanged] channel is active
    again. *)
Theorem setScene_spec (fuel : nat) (s : Editor) (source : nat)
    (lobj sobj : Object3D) (cls : ComponentClass) :
  source ≠ scene s →
  objects s !! scene s = Some lobj →
  objects s !! source = Some sobj →
  components s !! SceneReferenceComponent_componentName = Some cls →
  children_ready fuel (objects s) (scene s) [scene s] = true →
  children_ready fuel (objects s) source [scene s; source] = true →
  ∃ s' evs,
    setScene fuel source s = Ok tt s' ∧
    (∀ c, c ∈ children lobj → parent <$> objects s' !! c = Some None) ∧
    children <$> objects s' !! scene s = Some (children sobj) ∧
    (∀ c, c ∈ children sobj → parent <$> objects s' !! c = Some (Some (scene s))) ∧
    children <$> objects s' !! source = Some [] ∧
    dispatched s' = dispatched s ++ evs ++ [mkNotification sceneSet true] ∧
    Forall silent evs ∧
    sceneGraphChanged_active s' = true.
Proof.
  intros Hne Hlive Hsrc Hreg Hready1 Hready2.
  apply children_ready_spec in Hready1 as (lobj' & lcs1 & Hr1 & Hnd1 & Hlen1 & Hall1).
  rewrite Hlive in Hr1. injection Hr1 as <-.
  apply children_ready_spec in Hready2 as (sobj' & lcs2 & Hr2 & Hnd2 & Hlen2 & Hall2).
  rewrite Hsrc in Hr2. injection Hr2 as <-.
  destruct (setScene_prefix fuel source s (ex_intro _ sobj Hsrc) (ex_intro _ lobj Hlive))
    as (h0 & Hshape & Hprefix).
  rewrite Hprefix. clear Hprefix.
  set (s0 := set_sceneGraphChanged_active false (set_objects h0 s)).
  destruct (same_shape_lookup _ _ _ _ Hshape Hlive) as (lobj0 & Hlive0 & _ & Hlch0 & _).
  destruct (same_shape_lookup _ _ _ _ Hshape Hsrc) as (sobj0 & Hsrc0 & _ & Hsch0 & _).
  pose proof (children_ready_transfer _ _ _ _ _ _ _ Hshape Hall1) as Hall1_0.
  pose proof (children_ready_transfer _ _ _ _ _ _ _ Hshape Hall2) as Hall2_0.
  (* the first loop *)
  destruct (remove_children_loop cls fuel (scene s) (children lobj) lcs1 s0 lobj0 fuel)
    as (s1 & Hloop1 & Hrem & (Hcomp1 & Hscene1 & Hact1) & (evs1 & Hd1 & He1) & _);
    try assumption.
  { apply Forall2_avoid_head with []. exact Hall1_0. }
  rewrite (bind_Ok _ _ _ _ _ Hloop1).
  change (objects s0) with h0 in Hrem.
  change (scene s0) with (scene s) in Hscene1.
  change (sceneGraphChanged_active s0) with false in Hact1, He1.
  change (dispatched s0) with (dispatched s) in Hd1.
  pose proof Hrem as (Hrem_r & Hrem_c & Hrem_o).
  (* the store between the loops *)
  assert (Hsrc1 : ∃ sobj1, objects s1 !! source = Some sobj1 ∧
                           children sobj1 = children sobj).
  { pose proof (children_removed_children _ _ _ _ source Hrem Hne) as Hch.
    rewrite Hsrc0 in Hch. destruct (objects s1 !! source) as [sobj1|]; [|discriminate].
    simpl in Hch. injection Hch as Hch. exists sobj1. split; [reflexivity|congruence]. }
  destruct Hsrc1 as (sobj1 & Hsrc1 & Hsch1).
  assert (Hlive1 : objects s1 !! scene s = Some (set_children [] lobj0)).
  { rewrite Hrem_r, Hlive0. reflexivity. }
  assert (Hparent1 : ∀ c, c ∈ children lobj →
                       ∃ oc, h0 !! c = Some oc ∧ parent oc = Some (scene s) ∧ c ≠ scene s).
  { intros c Hc. apply list_elem_of_lookup in Hc as [j Hj].
    destruct (Forall2_lookup_l _ _ _ _ _ Hall1_0 Hj)
      as (lc & _ & oc & Hoc & Hpar & Hsub & Hav).
    exists oc. repeat split; try assumption.
    intros ->. inversion Hav as [|? ? H1 _]; subst. apply H1. eapply subtree_root, Hsub. }
  assert (Hall2_1 : Forall2 (λ c lc, ∃ oc, objects s1 !! c = Some oc ∧
                       parent oc = Some source ∧
                       subtree fuel (objects s1) c = Some lc ∧
                       Forall (λ a, a ∉ lc) [scene s; source]) (children sobj) lcs2).
  { eapply Forall2_impl; [exact Hall2_0|].
    intros c lc (oc & Hoc & Hpar & Hsub & Hav).
    assert (Hcl : c ≠ scene s).
    { intros ->. inversion Hav as [|? ? H1 _]; subst. apply H1. eapply subtree_root, Hsub. }
    assert (Hc1 : c ∉ children lobj).
    { intros Hin. destruct (Hparent1 c Hin) as (oc' & Hoc' & Hpar' & _).
      rewrite Hoc in Hoc'. injection Hoc' as <-. congruence. }
    exists oc. rewrite (Hrem_o c Hcl Hc1). repeat split; try assumption.
    apply subtree_ext with h0; [exact Hsub|].
    intros x Hx. apply (children_removed_children _ _ _ _ x Hrem).
    intros ->. inversion Hav as [|? ? H1 _]; subst. exact (H1 Hx). }
  (* the second loop *)
  destruct (add_children_loop fuel source (scene s) Hne (children sobj) lcs2 s1 sobj1 fuel)
    as (s2 & Hloop2 & (Hm_src & Hm_live & Hm_c & Hm_o) & (Hcomp2 & Hscene2 & Hact2)
        & (evs2 & Hd2 & He2)); try assumption; [eauto|].
  rewrite (bind_Ok _ _ _ _ _ Hloop2).
  rewrite Hact1 in He2.
  exists (notify sceneSet (set_sceneGraphChanged_active true s2)), (evs1 ++ evs2).
  split; [reflexivity|]. simpl.
  split; [|split; [|split; [|split; [|split; [|split]]]]].
  - intros c Hc. destruct (Hparent1 c Hc) as (oc & Hoc & Hpar & Hcl).
    assert (Hc1 : objects s1 !! c = Some (set_parent None oc)).
    { rewrite (Hrem_c c Hc), Hoc. reflexivity. }
    destruct (decide (c = source)) as [->|Hcs].
    + rewrite Hm_src, Hc1. reflexivity.
    + rewrite Hm_o, Hc1; [reflexivity|exact Hcs|exact Hcl|].
      intros Hin. apply list_elem_of_lookup in Hin as [j Hj].
      destruct (Forall2_lookup_l _ _ _ _ _ Hall2_1 Hj) as (lc & _ & oc' & Hoc' & Hpar' & _).
      rewrite Hc1 in Hoc'. injection Hoc' as <-. discriminate.
  - rewrite Hm_live, Hlive1. reflexivity.
  - intros c Hc. rewrite (Hm_c c Hc).
    apply list_elem_of_lookup in Hc as [j Hj].
    destruct (Forall2_lookup_l _ _ _ _ _ Hall2_1 Hj) as (lc & _ & oc' & -> & _).
    reflexivity.
  - rewrite Hm_src, Hsrc1. reflexivity.
  - rewrite Hd2, Hd1, <- !app_assoc. reflexivity.
  - apply Forall_app. split.
    + eapply Forall_impl; [exact He1|]. apply removal_event_silent.
    + eapply Forall_impl; [exact He2|]. apply addition_event_silent.
  - reflexivity.
Qed.

Lemma setScene_spec_witness :
  ∃ s', setScene 3 11 scene_and_source = Ok tt s' ∧
        parent <$> objects s' !! 4 = Some None ∧
        children <$> objects s' !! 2 = Some [12] ∧
        parent <$> objects s' !! 12 = Some (Some 2) ∧
        children <$> objects s' !! 11 = Some [] ∧
        sceneGraphChanged_active s' = true.
Proof.
  destruct (setScene_spec 3 scene_and_source 11 (object_of scene_and_source 2)
              (object_of scene_and_source 11) SceneReferenceComponent)
    as (s' & evs & Hrun & Hold & Hlive & Hnew & Hsrc & _ & _ & Hact).
  - vm_compute. intros H. discriminate H.
  - vm_compute. reflexivity.
  - vm_compute. reflexivity.
  - vm_compute. reflexivity.
  - vm_compute. reflexivity.
  - vm_compute. reflexivity.
  - exists s'. split; [exact Hrun|]. split; [|split; [|split; [|split]]].
    + apply (Hold 4). vm_compute. left.
    + exact Hlive.
    + apply (Hnew 12). vm_compute. left.
    + exact Hsrc.
    + exact Hact.
Defined.

(** When the source is the live root itself, the first loop empties it and
    the second finds nothing to append: the same notifications, and a root
    without children. *)
Lemma setScene_live_root (fuel : nat) (s : Editor) (lobj : Object3D)
    (cls : ComponentClass) :
  objects s !! scene s = Some lobj →
  components s !! SceneReferenceComponent_componentName = Some cls →
  children_ready fuel (objects s) (scene s) [scene s] = true →
  ∃ s' evs,
    setScene fuel (scene s) s = Ok tt s' ∧
    (∀ c, c ∈ children lobj → parent <$> objects s' !! c = Some None) ∧
    children <$> objects s' !! scene s = Some [] ∧
    dispatched s' = dispatched s ++ evs ++ [mkNotification sceneSet true] ∧
    Forall silent evs ∧
    sceneGraphChanged_active s' = true.
Proof.
  intros Hlive Hreg Hready.
  apply children_ready_spec in Hready as (lobj' & lcs1 & Hr1 & Hnd1 & Hlen1 & Hall1).
  rewrite Hlive in Hr1. injection Hr1 as <-.
  destruct (setScene_prefix fuel (scene s) s (ex_intro _ lobj Hlive) (ex_intro _ lobj Hlive))
    as (h0 & Hshape & Hprefix).
  rewrite Hprefix. clear Hprefix.
  set (s0 := set_sceneGraphChanged_active false (set_objects h0 s)).
  destruct (same_shape_lookup _ _ _ _ Hshape Hlive) as (lobj0 & Hlive0 & _ & Hlch0 & _).
  pose proof (children_ready_transfer _ _ _ _ _ _ _ Hshape Hall1) as Hall1_0.
  destruct (remove_children_loop cls fuel (scene s) (children lobj) lcs1 s0 lobj0 fuel)
    as (s1 & Hloop1 & (Hrem_r & Hrem_c & _) & (_ & _ & _) & (evs1 & Hd1 & He1) & _);
    try assumption.
  { apply Forall2_avoid_head with []. exact Hall1_0. }
  rewrite (bind_Ok _ _ _ _ _ Hloop1).
  change (objects s0) with h0 in Hrem_r, Hrem_c.
  change (sceneGraphChanged_active s0) with false in He1.
  change (dispatched s0) with (dispatched s) in Hd1.
  assert (Hlive1 : objects s1 !! scene s = Some (set_children [] lobj0)).
  { rewrite Hrem_r, Hlive0. reflexivity. }
  destruct fuel as [|fuel]; [lia|].
  rewrite bind_eq. simpl while_first_child.
  rewrite (step_get _ _ _ _ Hlive1). simpl.
  exists (notify sceneSet (set_sceneGraphChanged_active true s1)), evs1.
  split; [reflexivity|]. simpl. split; [|split; [|split; [|split]]].
  - intros c Hc. rewrite (Hrem_c c Hc).
    apply list_elem_of_lookup in Hc as [j Hj].
    destruct (Forall2_lookup_l _ _ _ _ _ Hall1_0 Hj) as (lc & _ & oc & -> & _).
    reflexivity.
  - rewrite Hlive1. reflexivity.
  - rewrite Hd1, <- app_assoc. reflexivity.
  - eapply Forall_impl; [exact He1|]. apply removal_event_silent.
  - reflexivity.
Qed.

(** * Further properties *)

(** ** moveObject *)

Lemma link_children_target (p o : nat) (h : gmap nat Object3D) (obj pobj : Object3D) :
  o ≠ p → h !! p = Some pobj → h !! o = Some obj →
  children <$> link p o h !! p = Some (siblings obj pobj o p ++ [o]).
Proof.
  intros Hne Hp Ho. unfold link, siblings. rewrite decide_False by exact Hne.
  rewrite lookup_alter_eq, lookup_alter_ne by exact Hne. rewrite Ho.
  destruct (parent obj) as [q|] eqn:Hq.
  - destruct (decide (Some q = Some p)) as [Heq|Hqp].
    + injection Heq as ->. unfold unlink, remove_child. rewrite Hp.
      destruct (indexOf o (children pobj) =? -1)%Z.
      * rewrite Hp. reflexivity.
      * rewrite lookup_alter_eq, lookup_alter_ne by exact Hne. rewrite Hp. reflexivity.
    + assert (Hc : children <$> unlink q o h !! p = Some (children pobj)).
      { rewrite unlink_children by congruence. rewrite Hp. reflexivity. }
      destruct (unlink q o h !! p) as [x|]; [|discriminate Hc].
      simpl in *. injection Hc as ->. reflexivity.
  - rewrite decide_False by discriminate. rewrite Hp. reflexivity.
Qed.

Lemma indexOf_first (b : nat) (l1 l2 : list nat) :
  b ∉ l1 → indexOf b (l1 ++ b :: l2) = Z.of_nat (length l1).
Proof.
  intros Hb. unfold indexOf. apply findIndex_first.
  - apply Forall_forall. intros y Hy. apply bool_decide_eq_false. intros ->. exact (Hb Hy).
  - apply bool_decide_eq_true. reflexivity.
Qed.

Lemma indexOf_absent (b : nat) (l : list nat) : b ∉ l → indexOf b l = (-1)%Z.
Proof.
  intros Hb. unfold indexOf. apply findIndex_none.
  apply Forall_forall. intros y Hy. apply bool_decide_eq_false. intros ->. exact (Hb Hy).
Qed.

Lemma splice_insert_at {A} (l1 l2 : list A) (x : A) :
  splice_insert (l1 ++ l2) (Z.of_nat (length l1)) x = l1 ++ x :: l2.
Proof.
  unfold splice_insert. rewrite length_app.
  replace (Z.to_nat _) with (length l1).
  2:{ destruct (Z.ltb_spec (Z.of_nat (length l1)) 0); lia. }
  rewrite take_app_length, drop_app_length. reflexivity.
Qed.

Lemma splice_insert_before_last {A} (l : list A) (x y : A) :
  splice_insert (l ++ [y]) (-1) x = l ++ [x; y].
Proof.
  unfold splice_insert. rewrite length_app. simpl.
  replace (Z.to_nat _) with (length l) by lia.
  rewrite take_app_length, drop_app_length. reflexivity.
Qed.

Lemma pop_snoc {A} (l : list A) (x : A) : pop (l ++ [x]) = l.
Proof.
  unfold pop. rewrite length_app. simpl.
  replace (length l + 1 - 1) with (length l) by lia.
  apply take_app_length.
Qed.

(** Where [moveObject] inserts when [before] is not among the siblings:
    in front of the entry [parent.add] has just pushed. *)
Lemma splice_insert_absent (b o : nat) (l : list nat) :
  b ∉ l →
  splice_insert (l ++ [o]) (indexOf b (l ++ [o])) o = l ++ [o; o].
Proof.
  intros Hb. destruct (decide (b = o)) as [->|Hne].
  - rewrite indexOf_first by exact Hb.
    rewrite splice_insert_at. reflexivity.
  - rewrite indexOf_absent.
    + apply splice_insert_before_last.
    + rewrite elem_of_app, list_elem_of_singleton. tauto.
Qed.

(** Two assignments to fields of the same object. *)
Lemma modify_object_twice (p : nat) (F G : Object3D → Object3D) (s : Editor)
    (x : Object3D) :
  objects s !! p = Some x →
  (modify_object p F;; modify_object p G) s
  = Ok tt (set_objects (<[p := G (F x)]> (objects s)) s).
Proof.
  intros Hx. rewrite bind_eq. unfold modify_object at 1. rewrite Hx.
  unfold modify_object. simpl. rewrite lookup_insert_eq.
  rewrite insert_insert_eq. reflexivity.
Qed.

(** [moveObject] under a parent other than the object itself. *)
Lemma moveObject_run (s : Editor) (object : nat) (parentNode before : option nat)
    (p : nat) (obj pobj : Object3D) :
  default (scene s) parentNode = p →
  object ≠ p →
  objects s !! object = Some obj →
  objects s !! p = Some pobj →
  (∀ q, parent obj = Some q → is_Some (objects s !! q)) →
  ∃ s',
    moveObject object parentNode before s = Ok tt s' ∧
    children <$> objects s' !! p =
      Some (match before with
            | Some b =>
                pop (splice_insert (siblings obj pobj object p ++ [object])
                       (indexOf b (siblings obj pobj object p ++ [object])) object)
            | None => siblings obj pobj object p ++ [object]
            end) ∧
    parent <$> objects s' !! object = Some (Some p) ∧
    dispatched s' =
      dispatched s ++ [mkNotification sceneGraphChanged (sceneGraphChanged_active s)] ∧
    tables s' = tables s.
Proof.
  intros Hdef Hne Ho Hp Hq. unfold moveObject.
  rewrite bind_eq. unfold gets at 1. rewrite Hdef.
  rewrite (bind_Ok _ _ _ tt (set_objects (link p object (objects s)) s))
    by (apply Object3D_add_link with obj; eauto).
  pose proof (link_children_target p object (objects s) obj pobj Hne Hp Ho) as Hc.
  pose proof (link_parent p object (objects s) Hne (mk_is_Some _ _ Ho)) as Hpar.
  destruct (link p object (objects s) !! p) as [pl|] eqn:Hpl; [|discriminate Hc].
  simpl in Hc. injection Hc as Hc.
  destruct before as [b|].
  - rewrite bind_eq. rewrite bind_eq. unfold get_object at 1. simpl. rewrite Hpl.
    rewrite (modify_object_twice p _ _ _ pl) by exact Hpl.
    eexists. split; [reflexivity|]. simpl.
    rewrite lookup_insert_eq, lookup_insert_ne by congruence. simpl.
    rewrite Hc. auto.
  - eexists. split; [reflexivity|]. simpl. rewrite Hpl. simpl. rewrite Hc. auto.
Qed.

(** With [before] among the siblings, the object is placed right in front
    of it: [moveObject] returns, the parent lists its former children, the
    object apart, in their order, with the object immediately before
    [before]; the object has the parent as [parent]; one [sceneGraphChanged]
    is dispatched and no table of the editor changes. *)
Theorem moveObject_before (s : Editor) (object : nat) (parentNode : option nat)
    (p b : nat) (obj pobj : Object3D) (l1 l2 : list nat) :
  default (scene s) parentNode = p →
  object ≠ p →
  objects s !! object = Some obj →
  objects s !! p = Some pobj →
  (∀ q, parent obj = Some q → is_Some (objects s !! q)) →
  siblings obj pobj object p = l1 ++ b :: l2 →
  b ∉ l1 →
  ∃ s',
    moveObject object parentNode (Some b) s = Ok tt s' ∧
    children <$> objects s' !! p = Some (l1 ++ object :: b :: l2) ∧
    parent <$> objects s' !! object = Some (Some p) ∧
    dispatched s' =
      dispatched s ++ [mkNotification sceneGraphChanged (sceneGraphChanged_active s)] ∧
    tables s' = tables s.
Proof.
  intros Hdef Hne Ho Hp Hq Hsib Hb.
  destruct (moveObject_run s object parentNode (Some b) p obj pobj Hdef Hne Ho Hp Hq)
    as (s' & Hrun & Hc & Hrest).
  exists s'. split; [exact Hrun|]. split; [|exact Hrest].
  rewrite Hc, Hsib. f_equal.
  rewrite <- app_assoc. simpl. rewrite indexOf_first by exact Hb.
  rewrite splice_insert_at.
  change (l1 ++ object :: b :: l2 ++ [object])
    with (l1 ++ (object :: b :: l2) ++ [object]).
  rewrite app_assoc. apply pop_snoc.
Qed.

(** Without [before], or with a [before] that is not among the siblings,
    the object ends as the last child of the parent. *)
Theorem moveObject_last (s : Editor) (object : nat) (parentNode before : option nat)
    (p : nat) (obj pobj : Object3D) :
  default (scene s) parentNode = p →
  object ≠ p →
  objects s !! object = Some obj →
  objects s !! p = Some pobj →
  (∀ q, parent obj = Some q → is_Some (objects s !! q)) →
  (∀ b, before = Some b → b ∉ siblings obj pobj object p) →
  ∃ s',
    moveObject object parentNode before s = Ok tt s' ∧
    children <$> objects s' !! p = Some (siblings obj pobj object p ++ [object]) ∧
    parent <$> objects s' !! object = Some (Some p) ∧
    dispatched s' =
      dispatched s ++ [mkNotification sceneGraphChanged (sceneGraphChanged_active s)] ∧
    tables s' = tables s.
Proof.
  intros Hdef Hne Ho Hp Hq Hb.
  destruct (moveObject_run s object parentNode before p obj pobj Hdef Hne Ho Hp Hq)
    as (s' & Hrun & Hc & Hrest).
  exists s'. split; [exact Hrun|]. split; [|exact Hrest].
  rewrite Hc. f_equal. destruct before as [b|]; [|reflexivity].
  rewrite splice_insert_absent by (apply Hb; reflexivity).
  change [object; object] with ([object] ++ [object]).
  rewrite app_assoc. apply pop_snoc.
Qed.

Lemma moveObject_before_witness :
  ∃ s', moveObject 6 (Some 4) (Some 5) scene_with_group = Ok tt s' ∧
        children <$> objects s' !! 4 = Some [6; 5] ∧
        parent <$> objects s' !! 6 = Some (Some 4).
Proof.
  destruct (moveObject_before scene_with_group 6 (Some 4) 4 5
              (object_of scene_with_group 6) (object_of scene_with_group 4) [] [])
    as (s' & Hrun & Hc & Hp & _).
  - reflexivity.
  - lia.
  - vm_compute. reflexivity.
  - vm_compute. reflexivity.
  - intros q Hq. vm_compute in Hq. injection Hq as <-. vm_compute. eauto.
  - vm_compute. reflexivity.
  - apply not_elem_of_nil.
  - exists s'. auto.
Defined.

Lemma moveObject_last_witness :
  ∃ s', moveObject 5 None None scene_with_group = Ok tt s' ∧
        children <$> objects s' !! 2 = Some [4; 5] ∧
        parent <$> objects s' !! 5 = Some (Some 2).
Proof.
  destruct (moveObject_last scene_with_group 5 None None 2
              (object_of scene_with_group 5) (object_of scene_with_group 2))
    as (s' & Hrun & Hc & Hp & _).
  - reflexivity.
  - lia.
  - vm_compute. reflexivity.
  - vm_compute. reflexivity.
  - intros q Hq. vm_compute in Hq. injection Hq as <-. vm_compute. eauto.
  - intros b Hb. discriminate Hb.
  - exists s'. auto.
Defined.

Lemma pop_app {A} (l1 l2 : list A) : l2 ≠ [] → pop (l1 ++ l2) = l1 ++ pop l2.
Proof.
  intros Hl2. destruct (exists_last Hl2) as (l' & z & ->).
  rewrite app_assoc, !pop_snoc. reflexivity.
Qed.

(** An object moved under itself: [parent.add] refuses, but the children
    are reordered all the same.  With [before] among its children, the
    object becomes a child of itself, in front of [before], and the last
    child falls off the list; nothing else in the store changes. *)
Theorem moveObject_into_itself (s : Editor) (object b : nat) (obj : Object3D)
    (l1 l2 : list nat) :
  objects s !! object = Some obj →
  children obj = l1 ++ b :: l2 →
  b ∉ l1 →
  ∃ s',
    moveObject object (Some object) (Some b) s = Ok tt s' ∧
    children <$> objects s' !! object = Some (l1 ++ object :: pop (b :: l2)) ∧
    parent <$> objects s' !! object = Some (parent obj) ∧
    (∀ x, x ≠ object → objects s' !! x = objects s !! x) ∧
    dispatched s' =
      dispatched s ++ [mkNotification sceneGraphChanged (sceneGraphChanged_active s)].
Proof.
  intros Ho Hc Hb. unfold moveObject.
  rewrite bind_eq. unfold gets at 1. simpl.
  unfold Object3D_add. rewrite decide_True by reflexivity.
  rewrite bind_eq. unfold mret at 1, M_ret at 1.
  rewrite bind_eq. rewrite bind_eq. unfold get_object at 1. rewrite Ho.
  rewrite (modify_object_twice object _ _ _ obj) by exact Ho.
  eexists. split; [reflexivity|]. simpl. rewrite lookup_insert_eq. simpl.
  split; [|split; [reflexivity|split; [|reflexivity]]].
  - rewrite Hc, indexOf_first by exact Hb. rewrite splice_insert_at.
    rewrite (pop_app l1 (object :: b :: l2)) by discriminate.
    f_equal. f_equal. apply (pop_app [object] (b :: l2)). discriminate.
  - intros x Hx. rewrite lookup_insert_ne by congruence. reflexivity.
Qed.

Lemma moveObject_into_itself_witness :
  ∃ s', moveObject 4 (Some 4) (Some 5) scene_with_group = Ok tt s' ∧
        children <$> objects s' !! 4 = Some [4; 5] ∧
        parent <$> objects s' !! 6 = Some (Some 4).
Proof.
  destruct (moveObject_into_itself scene_with_group 4 5
              (object_of scene_with_group 4) [] [6])
    as (s' & Hrun & Hc & _ & Hrest & _).
  - vm_compute. reflexivity.
  - vm_compute. reflexivity.
  - apply not_elem_of_nil.
  - exists s'. split; [exact Hrun|]. split; [exact Hc|].
    rewrite Hrest by lia. vm_compute. reflexivity.
Defined.

(** ** Lookups by uuid *)

Lemma find_app {A} (p : A → bool) (l1 l2 : list A) :
  find p (l1 ++ l2) = match find p l1 with Some x => Some x | None => find p l2 end.
Proof.
  induction l1 as [|x l1 IH]; simpl; [reflexivity|].
  destruct (p x); [reflexivity|exact IH].
Qed.

Lemma find_Some {A} (p : A → bool) (l : list A) (x : A) :
  find p l = Some x ↔ ∃ l1 l2, l = l1 ++ x :: l2 ∧ p x = true ∧ Forall (λ y, p y = false) l1.
Proof.
  induction l as [|y l IH]; simpl.
  - split; [discriminate|]. intros (l1 & l2 & H & _). destruct l1; discriminate.
  - destruct (p y) eqn:Hy.
    + split.
      * intros [= ->]. exists [], l. auto.
      * intros (l1 & l2 & H & Hx & Hl1). destruct l1 as [|z l1].
        -- injection H as ->. reflexivity.
        -- injection H as -> _. inversion Hl1; congruence.
    + rewrite IH. split.
      * intros (l1 & l2 & -> & Hx & Hl1). exists (y :: l1), l2. auto.
      * intros (l1 & l2 & H & Hx & Hl1). destruct l1 as [|z l1].
        -- injection H as -> _. congruence.
        -- injection H as -> ->. inversion Hl1. eauto.
Qed.

Lemma find_None {A} (p : A → bool) (l : list A) :
  find p l = None ↔ Forall (λ y, p y = false) l.
Proof.
  induction l as [|y l IH]; simpl.
  - split; [constructor|reflexivity].
  - destruct (p y) eqn:Hy.
    + split; [discriminate|]. inversion 1; congruence.
    + rewrite IH. split; [constructor; assumption|]. inversion 1; assumption.
Qed.

(** The search of three.js returns the first object of the pre-order
    listing that has the [uuid]. *)
Lemma getObjectByProperty_uuid_find (value : string) (fuel : nat) :
  ∀ (o : nat) (s : Editor) (l : list nat),
    subtree fuel (objects s) o = Some l →
    getObjectByProperty_uuid fuel value o s
    = Ok (find (has_uuid (objects s) value) l) s.
Proof.
  induction fuel as [|fuel IH]; intros o s l Hl; [discriminate|].
  simpl in Hl. destruct (objects s !! o) as [obj|] eqn:Hobj; [|discriminate].
  simpl in Hl.
  destruct (mapM (subtree fuel (objects s)) (children obj)) as [rest|] eqn:Hrest;
    [|discriminate].
  simpl in Hl. injection Hl as <-.
  simpl. rewrite bind_eq. unfold get_object at 1. rewrite Hobj.
  unfold has_uuid at 1. rewrite Hobj. simpl.
  destruct (decide (uuid obj = value)) as [Hu|Hu].
  - rewrite bool_decide_true by congruence. reflexivity.
  - rewrite bool_decide_false by congruence.
    apply mapM_Some_Forall2 in Hrest.
    induction Hrest as [|c lc cs rest Hc Hrest IHrest]; simpl.
    + reflexivity.
    + rewrite bind_eq, (IH c s lc Hc), find_app.
      destruct (find (has_uuid (objects s) value) lc); [reflexivity|].
      exact IHrest.
Qed.

(** [objectByUuid] answers with the first object of the scene graph, in
    pre-order, whose [uuid] is the one asked for, and with [undefined] when
    the graph has none; the editor is left as it was. *)
Theorem objectByUuid_first (fuel : nat) (value : string) (s : Editor) (l : list nat) :
  subtree fuel (objects s) (scene s) = Some l →
  objectByUuid fuel value s = Ok (find (has_uuid (objects s) value) l) s ∧
  (∀ d, find (has_uuid (objects s) value) l = Some d →
        descendant (objects s) (scene s) d ∧
        uuid <$> objects s !! d = Some value) ∧
  (find (has_uuid (objects s) value) l = None ↔
   ∀ d, descendant (objects s) (scene s) d → uuid <$> objects s !! d ≠ Some value).
Proof.
  intros Hl. split; [|split].
  - unfold objectByUuid. rewrite bind_eq. unfold gets at 1.
    apply getObjectByProperty_uuid_find. exact Hl.
  - intros d Hd. apply find_Some in Hd as (l1 & l2 & -> & Hd & _).
    split.
    + eapply subtree_sound; [exact Hl|]. apply elem_of_app. right. left.
    + unfold has_uuid in Hd. apply bool_decide_eq_true in Hd. exact Hd.
  - rewrite find_None, Forall_forall. split.
    + intros H d Hd. apply (subtree_descendant _ _ _ Hd) in Hl.
      apply H in Hl. unfold has_uuid in Hl. apply bool_decide_eq_false in Hl. exact Hl.
    + intros H d Hd. apply bool_decide_eq_false. apply H.
      eapply subtree_sound; [exact Hl|exact Hd].
Qed.

Lemma objectByUuid_first_witness :
  objectByUuid 3 "light1" scene_with_group = Ok (Some 5) scene_with_group.
Proof.
  assert (Hl : subtree 3 (objects scene_with_group) (scene scene_with_group)
               = Some [2; 4; 5; 6]) by (vm_compute; reflexivity).
  rewrite (proj1 (objectByUuid_first 3 "light1" scene_with_group [2; 4; 5; 6] Hl)).
  vm_compute. reflexivity.
Defined.

(** ** select and selectByUuid *)

Lemma select_mark (object : option nat) (s : Editor) :
  select object s = Ok tt (mark_selected object s).
Proof.
  unfold select, mark_selected. rewrite bind_eq. unfold gets at 1.
  destruct (decide (selected s = object)); reflexivity.
Qed.

Lemma mark_selected_objects object s : objects (mark_selected object s) = objects s.
Proof. unfold mark_selected. destruct (decide _); reflexivity. Qed.

Lemma mark_selected_selected object s : selected (mark_selected object s) = object.
Proof. unfold mark_selected. destruct (decide _); [assumption|reflexivity]. Qed.

(** Selecting is idempotent: a second [select] of the same object changes
    nothing and dispatches nothing, so [objectSelected] is dispatched only
    when the selection changes; in particular [deselect] with nothing
    selected is silent. *)
Theorem select_idempotent (object : option nat) (s : Editor) :
  (select object;; select object) s = select object s ∧
  (selected s = object → select object s = Ok tt s) ∧
  (selected s ≠ object →
   ∃ s', select object s = Ok tt s' ∧ selected s' = object ∧
         dispatched s' = dispatched s ++ [mkNotification (objectSelected object) true]) ∧
  (selected s = None → deselect s = Ok tt s).
Proof.
  split; [|split; [|split]].
  - rewrite bind_eq, select_mark, select_mark. f_equal.
    unfold mark_selected at 1. rewrite mark_selected_selected.
    rewrite decide_True by reflexivity. reflexivity.
  - intros H. rewrite select_mark. unfold mark_selected.
    rewrite decide_True by exact H. reflexivity.
  - intros H. rewrite select_mark. unfold mark_selected.
    rewrite decide_False by exact H. eexists. split; [reflexivity|]. auto.
  - intros H. unfold deselect. rewrite select_mark. unfold mark_selected.
    rewrite decide_True by exact H. reflexivity.
Qed.

Lemma select_idempotent_witness :
  (select (Some 4);; select (Some 4)) scene_with_group = select (Some 4) scene_with_group ∧
  deselect scene_with_group = Ok tt scene_with_group.
Proof.
  split.
  - apply (proj1 (select_idempotent (Some 4) scene_with_group)).
  - apply (proj2 (proj2 (proj2 (select_idempotent None scene_with_group)))).
    vm_compute. reflexivity.
Defined.

Lemma select_step_objects value s d : objects (select_step value s d) = objects s.
Proof.
  unfold select_step. destruct (has_uuid _ _ _); [apply mark_selected_objects|reflexivity].
Qed.

Lemma select_callback (value : string) (d : nat) (s : Editor) :
  is_Some (objects s !! d) →
  (c ← get_object d;
   if decide (uuid c = value) then select (Some d) else mret tt) s
  = Ok tt (select_step value s d).
Proof.
  intros [obj Hobj]. rewrite bind_eq. unfold get_object at 1. rewrite Hobj.
  unfold select_step, has_uuid. rewrite Hobj. simpl.
  destruct (decide (uuid obj = value)) as [Hu|Hu].
  - rewrite bool_decide_true by congruence. apply select_mark.
  - rewrite bool_decide_false by congruence. reflexivity.
Qed.

Lemma selectByUuid_run (fuel : nat) (value : string) (s : Editor) (l : list nat) :
  subtree fuel (objects s) (scene s) = Some l →
  selectByUuid fuel value s = Ok tt (foldl (select_step value) s l).
Proof.
  intros Hl. unfold selectByUuid. rewrite bind_eq. unfold gets at 1.
  rewrite (traverse_forM
             (λ child, c ← get_object child;
                       if decide (uuid c = value) then select (Some child) else mret tt)
             ) with (l := l).
  - apply (forM_fold _ (select_step value) (λ s', objects s' = objects s)).
    + reflexivity.
    + intros d s' Hd Hs'. split.
      * apply select_callback. rewrite Hs'. eapply subtree_allocated; eassumption.
      * rewrite select_step_objects. exact Hs'.
  - intros d s1 s2 Hrun. rewrite bind_eq in Hrun. unfold get_object at 1 in Hrun.
    destruct (objects s1 !! d) as [obj|]; [|discriminate].
    destruct (decide (uuid obj = value)).
    + rewrite select_mark in Hrun. injection Hrun as <-. apply mark_selected_objects.
    + injection Hrun as <-. reflexivity.
  - exact Hl.
Qed.

Lemma select_steps_none (value : string) (l : list nat) :
  ∀ s, (∀ d, d ∈ l → uuid <$> objects s !! d ≠ Some value) →
       foldl (select_step value) s l = s.
Proof.
  induction l as [|d l IH]; intros s Hl; simpl; [reflexivity|].
  assert (Hd : select_step value s d = s).
  { unfold select_step, has_uuid. rewrite bool_decide_false; [reflexivity|].
    apply Hl. left. }
  rewrite Hd. apply IH. intros x Hx. apply Hl. right. exact Hx.
Qed.

Lemma select_steps_objects (value : string) (l : list nat) (s : Editor) :
  objects (foldl (select_step value) s l) = objects s.
Proof. apply (foldl_frame objects). intros. apply select_step_objects. Qed.

(** [selectByUuid] walks the whole scene graph and selects every object
    whose [uuid] matches, so the last match in pre-order stays selected
    (where [objectByUuid] answers with the first).  When the graph has no
    such object, the editor is unchanged: the selection stays and nothing is
    dispatched.  The store of objects is never touched. *)
Theorem selectByUuid_spec (fuel : nat) (value : string) (s : Editor) (l : list nat) :
  subtree fuel (objects s) (scene s) = Some l →
  ∃ s',
    selectByUuid fuel value s = Ok tt s' ∧
    objects s' = objects s ∧
    ((∀ d, d ∈ l → uuid <$> objects s !! d ≠ Some value) → s' = s) ∧
    (∀ l1 d l2,
       l = l1 ++ d :: l2 →
       uuid <$> objects s !! d = Some value →
       (∀ x, x ∈ l2 → uuid <$> objects s !! x ≠ Some value) →
       selected s' = Some d).
Proof.
  intros Hl. exists (foldl (select_step value) s l).
  split; [apply selectByUuid_run; exact Hl|].
  split; [apply select_steps_objects|]. split.
  - apply select_steps_none.
  - intros l1 d l2 -> Hd Hl2. rewrite foldl_app. simpl.
    set (s1 := foldl (select_step value) s l1).
    assert (Hs1 : objects s1 = objects s) by apply select_steps_objects.
    rewrite select_steps_none.
    + unfold select_step, has_uuid. rewrite Hs1, bool_decide_true by exact Hd.
      apply mark_selected_selected.
    + intros x Hx. rewrite select_step_objects, Hs1. apply Hl2. exact Hx.
Qed.

Lemma selectByUuid_spec_witness :
  ∃ s', selectByUuid 3 "light2" scene_with_group = Ok tt s' ∧ selected s' = Some 6.
Proof.
  destruct (selectByUuid_spec 3 "light2" scene_with_group [2; 4; 5; 6])
    as (s' & Hrun & _ & _ & Hsel).
  - vm_compute. reflexivity.
  - exists s'. split; [exact Hrun|].
    apply (Hsel [2; 4; 5] 6 []).
    + reflexivity.
    + vm_compute. reflexivity.
    + intros x Hx. inversion Hx.
Defined.

(** ** Scripts *)

Lemma indexOf_app_first {A} `{EqDecision A} (x : A) (l1 l2 : list A) :
  x ∉ l1 → indexOf x (l1 ++ x :: l2) = Z.of_nat (length l1).
Proof.
  intros Hx. unfold indexOf. apply findIndex_first.
  - apply Forall_forall. intros y Hy. apply bool_decide_eq_false. intros ->. exact (Hx Hy).
  - apply bool_decide_eq_true. reflexivity.
Qed.

Lemma indexOf_not_in {A} `{EqDecision A} (x : A) (l : list A) :
  x ∉ l → indexOf x l = (-1)%Z.
Proof.
  intros Hx. unfold indexOf. apply findIndex_none.
  apply Forall_forall. intros y Hy. apply bool_decide_eq_false. intros ->. exact (Hx Hy).
Qed.

Lemma insert_as_alter_gen {K} `{Countable K} {A} (m : gmap K A) (k : K) (x : A)
    (f : A → A) :
  m !! k = Some x → <[k := f x]> m = alter f k m.
Proof.
  intros Hx. apply map_eq. intros j. destruct (decide (k = j)) as [->|Hne].
  - rewrite lookup_insert_eq, lookup_alter_eq, Hx. reflexivity.
  - rewrite lookup_insert_ne, lookup_alter_ne by exact Hne. reflexivity.
Qed.

Lemma set_scripts_same (s : Editor) : set_scripts (scripts s) s = s.
Proof. destruct s; reflexivity. Qed.

Lemma scripts_read_own (ss : gmap string (list string)) (key : string) (l : list string) :
  scripts_read ss key = OwnScripts l ↔ ss !! key = Some l.
Proof.
  unfold scripts_read. destruct (ss !! key) as [l'|].
  - split; intros H; injection H as ->; reflexivity.
  - case_decide; split; discriminate.
Qed.

Lemma scripts_read_undefined (ss : gmap string (list string)) (key : string) :
  scripts_read ss key = NoScripts ↔ ss !! key = None ∧ key ∉ Object_prototype_keys.
Proof.
  unfold scripts_read. destruct (ss !! key) as [l'|].
  - split; [discriminate|intros [? _]; discriminate].
  - case_decide; split; try discriminate; try tauto.
Qed.

Lemma scripts_read_inherited (ss : gmap string (list string)) (key : string) :
  scripts_read ss key = InheritedMember ↔ ss !! key = None ∧ key ∈ Object_prototype_keys.
Proof.
  unfold scripts_read. destruct (ss !! key) as [l'|].
  - split; [discriminate|intros [? _]; discriminate].
  - case_decide; split; try discriminate; try tauto.
Qed.

Lemma removeScript_run (s : Editor) (object : nat) (obj : Object3D) (script : string) :
  objects s !! object = Some obj →
  removeScript object script s =
  match scripts_read (scripts s) (uuid obj) with
  | NoScripts => Ok [] s
  | InheritedMember => Throw TypeError s
  | OwnScripts l =>
      Ok [scriptRemoved script]
         (set_scripts (<[uuid obj := remove_child script l]> (scripts s)) s)
  end.
Proof.
  intros Ho. unfold removeScript. rewrite bind_eq. unfold get_object at 1. rewrite Ho.
  rewrite bind_eq. unfold gets at 1.
  destruct (scripts_read (scripts s) (uuid obj)) as [l| |] eqn:Hread;
    [|reflexivity|reflexivity].
  apply scripts_read_own in Hread as Hl.
  unfold remove_child. destruct (indexOf script l =? -1)%Z.
  - rewrite insert_id by exact Hl. rewrite set_scripts_same. reflexivity.
  - rewrite bind_eq. unfold modify at 1. simpl.
    rewrite <- (insert_as_alter_gen _ _ _ _ Hl). reflexivity.
Qed.

Lemma remove_child_first {A} `{EqDecision A} (x : A) (l1 l2 : list A) :
  x ∉ l1 → remove_child x (l1 ++ x :: l2) = l1 ++ l2.
Proof.
  intros Hx. unfold remove_child. rewrite indexOf_app_first by exact Hx.
  replace (Z.of_nat (length l1) =? -1)%Z with false by (symmetry; apply Z.eqb_neq; lia).
  apply splice_middle.
Qed.

(** [removeScript] takes out the first occurrence of the script and
    dispatches [scriptRemoved]; when the list does not hold the script it is
    left as it is (the index is tested) but [scriptRemoved] is dispatched all
    the same; when the object has no list, nothing is dispatched, unless the
    [uuid] of the object names a member of [Object.prototype]: the table is
    a plain object, the member passes the test against [undefined], and the
    call of [indexOf] on it throws a [TypeError].  Nothing but the scripts
    table changes. *)
Theorem removeScript_spec (s : Editor) (object : nat) (obj : Object3D) (script : string) :
  objects s !! object = Some obj →
  (scripts s !! uuid obj = None → uuid obj ∉ Object_prototype_keys →
        removeScript object script s = Ok [] s) ∧
  (scripts s !! uuid obj = None → uuid obj ∈ Object_prototype_keys →
        removeScript object script s = Throw TypeError s) ∧
  (∀ l, scripts s !! uuid obj = Some l → script ∉ l →
        removeScript object script s = Ok [scriptRemoved script] s) ∧
  (∀ l1 l2, scripts s !! uuid obj = Some (l1 ++ script :: l2) → script ∉ l1 →
        removeScript object script s
        = Ok [scriptRemoved script]
             (set_scripts (<[uuid obj := l1 ++ l2]> (scripts s)) s)).
Proof.
  intros Ho. rewrite (removeScript_run s object obj script Ho).
  split; [|split; [|split]].
  - intros Hnone Hkey.
    rewrite (proj2 (scripts_read_undefined _ _) (conj Hnone Hkey)). reflexivity.
  - intros Hnone Hkey.
    rewrite (proj2 (scripts_read_inherited _ _) (conj Hnone Hkey)). reflexivity.
  - intros l Hl Hn. rewrite (proj2 (scripts_read_own _ _ _) Hl).
    rewrite remove_child_absent by exact Hn.
    rewrite insert_id by exact Hl. rewrite set_scripts_same. reflexivity.
  - intros l1 l2 Hl Hn. rewrite (proj2 (scripts_read_own _ _ _) Hl).
    rewrite remove_child_first by exact Hn. reflexivity.
Qed.

Lemma removeScript_spec_witness :
  removeScript 4 "jump" editor_with_script
  = Ok [scriptRemoved "jump"] editor_with_script ∧
  removeScript 4 "jump" editor_with_mesh = Ok [] editor_with_mesh ∧
  removeScript 4 "jump" editor_with_constructor
  = Throw TypeError editor_with_constructor.
Proof.
  assert (Ho : objects editor_with_script !! 4 = Some (object_of editor_with_script 4))
    by (vm_compute; reflexivity).
  assert (Hm : objects editor_with_mesh !! 4 = Some (object_of editor_with_mesh 4))
    by (vm_compute; reflexivity).
  assert (Hc : objects editor_with_constructor !! 4
               = Some (object_of editor_with_constructor 4))
    by (vm_compute; reflexivity).
  split; [|split].
  - apply (proj1 (proj2 (proj2 (removeScript_spec editor_with_script 4 _ "jump" Ho)))
             ["spin"]).
    + vm_compute. reflexivity.
    + apply not_elem_of_cons. split; [discriminate|apply not_elem_of_nil].
  - apply (proj1 (removeScript_spec editor_with_mesh 4 _ "jump" Hm)).
    + vm_compute. reflexivity.
    + apply (bool_decide_unpack _). vm_compute. reflexivity.
  - apply (proj1 (proj2 (removeScript_spec editor_with_constructor 4 _ "jump" Hc))).
    + vm_compute. reflexivity.
    + apply (bool_decide_unpack _). vm_compute. reflexivity.
Defined.

Lemma addScript_run (s : Editor) (object : nat) (obj : Object3D) (script : string) :
  objects s !! object = Some obj →
  addScript object script s
  = match scripts_read (scripts s) (uuid obj) with
    | InheritedMember => Throw TypeError s
    | _ =>
        Ok [scriptAdded script]
           (set_scripts (<[uuid obj := default [] (scripts s !! uuid obj) ++ [script]]>
                           (scripts s)) s)
    end.
Proof.
  intros Ho. unfold addScript. rewrite bind_eq. unfold get_object at 1. rewrite Ho.
  rewrite bind_eq. unfold gets at 1.
  destruct (scripts_read (scripts s) (uuid obj)) as [l| |] eqn:Hread.
  - apply scripts_read_own in Hread as Hl.
    rewrite bind_eq. unfold mret at 1, M_ret at 1.
    rewrite bind_eq. unfold gets at 1. rewrite Hread.
    rewrite bind_eq. unfold modify at 1.
    rewrite <- (insert_as_alter_gen _ _ _ _ Hl), Hl. reflexivity.
  - rewrite bind_eq. unfold mret at 1, M_ret at 1.
    rewrite bind_eq. unfold gets at 1. rewrite Hread. reflexivity.
  - apply scripts_read_undefined in Hread as [Hl Hkey].
    rewrite bind_eq. unfold modify at 1.
    rewrite bind_eq. unfold gets at 1. simpl.
    rewrite (proj2 (scripts_read_own _ _ [])) by apply lookup_insert_eq.
    rewrite bind_eq. unfold modify at 1. simpl.
    rewrite <- (insert_as_alter_gen _ _ [] _ (lookup_insert_eq _ _ _)).
    rewrite insert_insert_eq, Hl. reflexivity.
Qed.

(** [addScript] followed by [removeScript] of the same script.  On an
    object that had a list without the script, the editor is back where it
    was.  On an object that had no list, an empty list stays behind in the
    table.  When the script was already listed, it is the earlier occurrence
    that goes: the script has moved to the end of the list.  The one object
    [addScript] fails on is an object without list whose [uuid] names a
    member of [Object.prototype]: no list is created for it, [push] is
    called on the inherited member and throws a [TypeError], with the editor
    as it was. *)
Theorem addScript_removeScript (s : Editor) (object : nat) (obj : Object3D)
    (script : string) :
  objects s !! object = Some obj →
  (scripts s !! uuid obj = None → uuid obj ∈ Object_prototype_keys →
     addScript object script s = Throw TypeError s) ∧
  (is_Some (scripts s !! uuid obj) ∨ uuid obj ∉ Object_prototype_keys →
   ∃ s1,
    addScript object script s = Ok [scriptAdded script] s1 ∧
    (∀ l, scripts s !! uuid obj = Some l → script ∉ l →
          removeScript object script s1 = Ok [scriptRemoved script] s) ∧
    (scripts s !! uuid obj = None →
          removeScript object script s1
          = Ok [scriptRemoved script]
               (set_scripts (<[uuid obj := []]> (scripts s)) s)) ∧
    (∀ l1 l2, scripts s !! uuid obj = Some (l1 ++ script :: l2) → script ∉ l1 →
          removeScript object script s1
          = Ok [scriptRemoved script]
               (set_scripts (<[uuid obj := l1 ++ l2 ++ [script]]> (scripts s)) s))).
Proof.
  intros Ho. split.
  { intros Hnone Hkey. rewrite (addScript_run s object obj script Ho).
    rewrite (proj2 (scripts_read_inherited _ _) (conj Hnone Hkey)). reflexivity. }
  intros Hdom.
  exists (set_scripts (<[uuid obj := default [] (scripts s !! uuid obj) ++ [script]]>
                         (scripts s)) s).
  split.
  { rewrite (addScript_run s object obj script Ho).
    destruct (scripts_read (scripts s) (uuid obj)) as [l| |] eqn:Hread;
      [reflexivity| |reflexivity].
    apply scripts_read_inherited in Hread as [Hnone Hkey].
    destruct Hdom as [[l Hl]|Hout]; [congruence|contradiction]. }
  assert (Hgen : ∀ k1 k2,
             default [] (scripts s !! uuid obj) ++ [script] = k1 ++ script :: k2 →
             script ∉ k1 →
             removeScript object script
               (set_scripts (<[uuid obj := default [] (scripts s !! uuid obj) ++ [script]]>
                               (scripts s)) s)
             = Ok [scriptRemoved script]
                  (set_scripts (<[uuid obj := k1 ++ k2]> (scripts s)) s)).
  { intros k1 k2 Heq Hk1.
    rewrite (removeScript_run _ object obj script) by exact Ho.
    simpl. rewrite (proj2 (scripts_read_own _ _ _) (lookup_insert_eq _ _ _)).
    rewrite Heq, remove_child_first by exact Hk1.
    rewrite insert_insert_eq. reflexivity. }
  split; [|split].
  - intros l Hl Hn. rewrite (Hgen l []).
    + rewrite app_nil_r, insert_id by exact Hl. rewrite set_scripts_same. reflexivity.
    + rewrite Hl. reflexivity.
    + exact Hn.
  - intros Hnone. rewrite (Hgen [] []).
    + reflexivity.
    + rewrite Hnone. reflexivity.
    + apply not_elem_of_nil.
  - intros l1 l2 Hl Hn. rewrite (Hgen l1 (l2 ++ [script])).
    + reflexivity.
    + rewrite Hl. simpl. rewrite <- app_assoc. reflexivity.
    + exact Hn.
Qed.

Lemma addScript_removeScript_witness :
  (∃ s1, addScript 4 "jump" editor_with_script = Ok [scriptAdded "jump"] s1 ∧
         removeScript 4 "jump" s1 = Ok [scriptRemoved "jump"] editor_with_script) ∧
  addScript 4 "jump" editor_with_constructor = Throw TypeError editor_with_constructor.
Proof.
  assert (Ho : objects editor_with_script !! 4 = Some (object_of editor_with_script 4))
    by (vm_compute; reflexivity).
  assert (Hc : objects editor_with_constructor !! 4
               = Some (object_of editor_with_constructor 4))
    by (vm_compute; reflexivity).
  split.
  - destruct (proj2 (addScript_removeScript editor_with_script 4 _ "jump" Ho))
      as (s1 & Hadd & Hback & _).
    + left. vm_compute. eauto.
    + exists s1. split; [exact Hadd|]. apply (Hback ["spin"]).
      * vm_compute. reflexivity.
      * apply not_elem_of_cons. split; [discriminate|apply not_elem_of_nil].
  - apply (proj1 (addScript_removeScript editor_with_constructor 4 _ "jump" Hc)).
    + vm_compute. reflexivity.
    + apply (bool_decide_unpack _). vm_compute. reflexivity.
Defined.

(** ** toJSON *)

Lemma clean_step_objects h l s k : objects (clean_step h l s k) = objects s.
Proof. unfold clean_step. repeat case_match; reflexivity. Qed.

Lemma clean_step_lookup h l s (k0 k : string) (v : list string) :
  scripts (clean_step h l s k0) !! k = Some v ↔
  scripts s !! k = Some v ∧ (k = k0 → script_in_use h l (k, v)).
Proof.
  unfold clean_step. destruct (scripts s !! k0) as [script|] eqn:Hk0.
  - destruct (decide (script_in_use h l (k0, script))) as [Hin|Hout].
    + split; [|tauto]. intros Hk. split; [exact Hk|]. intros ->.
      rewrite Hk0 in Hk. injection Hk as <-. exact Hin.
    + simpl. rewrite lookup_delete_Some. split.
      * intros [Hne Hk]. split; [exact Hk|]. congruence.
      * intros [Hk Hin]. split; [|exact Hk]. intros <-. apply Hout.
        rewrite Hk0 in Hk. injection Hk as ->. apply Hin. reflexivity.
  - split; [|tauto]. intros Hk. split; [exact Hk|]. intros ->. congruence.
Qed.

Lemma clean_steps_lookup h l (ks : list string) :
  ∀ s (k : string) (v : list string),
    scripts (foldl (clean_step h l) s ks) !! k = Some v ↔
    scripts s !! k = Some v ∧ (k ∈ ks → script_in_use h l (k, v)).
Proof.
  induction ks as [|k0 ks IH]; intros s k v; simpl.
  - split; [|tauto]. intros Hk. split; [exact Hk|]. intros H. inversion H.
  - rewrite IH, clean_step_lookup. rewrite elem_of_cons. tauto.
Qed.

Lemma set_scripts_clean_step h l s k m :
  set_scripts m (clean_step h l s k) = set_scripts m s.
Proof. unfold clean_step. repeat case_match; reflexivity. Qed.

Lemma clean_steps_frame h l (ks : list string) :
  ∀ s, foldl (clean_step h l) s ks
       = set_scripts (scripts (foldl (clean_step h l) s ks)) s.
Proof.
  induction ks as [|k0 ks IH]; intros s; simpl.
  - symmetry. apply set_scripts_same.
  - etransitivity; [apply IH|]. apply set_scripts_clean_step.
Qed.

(** Visiting all keys of the table leaves the entries in use. *)
Lemma clean_steps_filter h l (s : Editor) :
  foldl (clean_step h l) s (map_to_list (scripts s)).*1
  = set_scripts (filter (script_in_use h l) (scripts s)) s.
Proof.
  rewrite clean_steps_frame. f_equal. apply map_eq. intros k. apply option_eq. intros v.
  rewrite clean_steps_lookup, map_lookup_filter_Some. split.
  - intros [Hk Hin]. split; [exact Hk|]. apply Hin.
    apply list_elem_of_fmap. exists (k, v). split; [reflexivity|].
    apply elem_of_map_to_list. exact Hk.
  - tauto.
Qed.

Lemma find_None_Exists (h : gmap nat Object3D) (value : string) (l : list nat) :
  find (has_uuid h value) l = None ↔ ¬ Exists (λ d, uuid <$> h !! d = Some value) l.
Proof.
  rewrite find_None, <- Forall_Exists_neg. apply Forall_iff. intros d.
  unfold has_uuid. rewrite bool_decide_eq_false. reflexivity.
Qed.

Lemma clean_script_step (fuel : nat) (s : Editor) (l : list nat) (key : string) :
  subtree fuel (objects s) (scene s) = Some l →
  ∀ s', objects s' = objects s →
        is_Some (scripts s' !! key) →
        clean_script fuel (scene s) key s' = Ok tt (clean_step (objects s) l s' key).
Proof.
  intros Hl s' Hobj [script Hk]. unfold clean_script, clean_step.
  rewrite bind_eq. unfold gets at 1. rewrite Hk.
  destruct (decide (script = [])) as [->|Hne].
  - rewrite decide_False; [reflexivity|]. intros [H _]. apply H. reflexivity.
  - rewrite bind_eq, bind_eq.
    rewrite (getObjectByProperty_uuid_find key fuel (scene s) s' l)
      by (rewrite Hobj; exact Hl).
    unfold mret at 1, M_ret at 1. rewrite Hobj.
    destruct (find (has_uuid (objects s) key) l) as [d|] eqn:Hfind.
    + rewrite bool_decide_false by discriminate.
      rewrite decide_True; [reflexivity|]. split; [exact Hne|].
      destruct (decide (Exists (λ d, uuid <$> objects s !! d = Some key) l)) as [H|H];
        [exact H|].
      apply find_None_Exists in H. congruence.
    + rewrite bool_decide_true by reflexivity.
      rewrite decide_False; [reflexivity|]. intros [_ H].
      apply find_None_Exists in Hfind. exact (Hfind H).
Qed.

Lemma toJSON_loop (fuel : nat) (s : Editor) (l : list nat) :
  subtree fuel (objects s) (scene s) = Some l →
  ∀ (ks : list string) (s' : Editor),
    NoDup ks →
    objects s' = objects s →
    (∀ k, k ∈ ks → is_Some (scripts s' !! k)) →
    forM_ ks (clean_script fuel (scene s)) s'
    = Ok tt (foldl (clean_step (objects s) l) s' ks).
Proof.
  intros Hl. induction ks as [|k0 ks IH]; intros s' Hnd Hobj Hks; simpl.
  - reflexivity.
  - apply NoDup_cons in Hnd as [Hk0 Hnd].
    rewrite bind_eq, (clean_script_step fuel s l k0 Hl s' Hobj) by (apply Hks; left).
    apply IH.
    + exact Hnd.
    + rewrite clean_step_objects. exact Hobj.
    + intros k Hk. destruct (Hks k) as [v Hv]; [right; exact Hk|].
      exists v. apply clean_step_lookup. split; [exact Hv|].
      intros ->. contradiction.
Qed.

(** [toJSON] never returns a document: the class assigns no [config], and
    reading it throws a [TypeError].  Before that, the scripts table has
    been cleaned: an entry stays exactly when its list is not empty and its
    key is the [uuid] of an object of the scene graph; nothing else in the
    editor has changed when the exception is raised. *)
Theorem toJSON_throws_after_cleaning (fuel : nat) (s : Editor) (l : list nat) :
  subtree fuel (objects s) (scene s) = Some l →
  toJSON fuel s
  = Throw TypeError
      (set_scripts (filter (script_in_use (objects s) l) (scripts s)) s).
Proof.
  intros Hl. unfold toJSON. rewrite bind_eq. unfold gets at 1.
  rewrite bind_eq. unfold gets at 1. rewrite bind_eq.
  rewrite (toJSON_loop fuel s l Hl).
  - rewrite clean_steps_filter. reflexivity.
  - apply NoDup_fst_map_to_list.
  - reflexivity.
  - intros k Hk. apply list_elem_of_fmap in Hk as ([k' v] & -> & Hk).
    apply elem_of_map_to_list in Hk. eauto.
Qed.

Lemma toJSON_throws_after_cleaning_witness :
  toJSON 3 editor_with_script = Throw TypeError (set_scripts ∅ editor_with_script) ∧
  scripts editor_with_script = {[ "meshA" := ["spin"] ]}.
Proof.
  split; [|vm_compute; reflexivity].
  rewrite (toJSON_throws_after_cleaning 3 editor_with_script [2])
    by (vm_compute; reflexivity).
  vm_compute. reflexivity.
Defined.

(** ** Helpers *)

Lemma remove_child_snoc_fresh {A} `{EqDecision A} (x : A) (l : list A) :
  x ∉ l → remove_child x (l ++ [x]) = l.
Proof.
  intros Hx. rewrite (remove_child_first x l []) by exact Hx. apply app_nil_r.
Qed.

(** [addHelper] for an object that is its own selection root, followed by
    [removeHelper]: when the overlay scene only holds helpers with ids
    handed out so far, both return, the helper map and the overlay scene are
    back as they were, the store is untouched, and [helperAdded] then
    [helperRemoved] were dispatched for the same helper. *)
Theorem addHelper_removeHelper (s : Editor) (object : nat) (obj : Object3D)
    (hk : HelperKind) :
  objects s !! object = Some obj →
  helper_for (kind obj) = Some hk →
  helpers s !! object = None →
  (∀ h, h ∈ sceneHelpers s → helper_id h < nextId s) →
  ∃ s1 s2 h,
    addHelper object object s = Ok tt s1 ∧
    helpers s1 !! object = Some h ∧
    helper_kind h = hk ∧ helper_object h = object ∧
    removeHelper object s1 = Ok tt s2 ∧
    helpers s2 = helpers s ∧
    sceneHelpers s2 = sceneHelpers s ∧
    objects s2 = objects s ∧
    dispatched s2 =
      dispatched s ++ [mkNotification (helperAdded h) true;
                       mkNotification (helperRemoved h) true].
Proof.
  intros Ho Hk Hh Hfresh.
  set (h := mkHelper (nextId s) hk object (S (nextId s)) object).
  assert (Hadd : add_helper object object s
                 = notify (helperAdded h)
                     (set_helpers (<[object := h]> (helpers s))
                        (set_sceneHelpers (sceneHelpers s ++ [h])
                           (set_nextId (S (S (nextId s))) s)))).
  { unfold add_helper. rewrite Hh, Ho, Hk. reflexivity. }
  exists (add_helper object object s), (drop_helper object (add_helper object object s)), h.
  split; [apply addHelper_add; eauto|].
  rewrite Hadd. simpl. rewrite lookup_insert_eq.
  split; [reflexivity|]. split; [reflexivity|]. split; [reflexivity|].
  split; [rewrite <- Hadd; apply removeHelper_drop|].
  unfold drop_helper. simpl. rewrite lookup_insert_eq. simpl.
  rewrite delete_insert_eq, delete_id by exact Hh.
  rewrite remove_child_snoc_fresh.
  - rewrite <- app_assoc. auto.
  - intros Hin. apply Hfresh in Hin. simpl in Hin. lia.
Qed.

Lemma addHelper_removeHelper_witness :
  ∃ s1 s2, addHelper 5 5 group_of_two_lights = Ok tt s1 ∧
           removeHelper 5 s1 = Ok tt s2 ∧
           helpers s2 = helpers group_of_two_lights ∧
           sceneHelpers s2 = sceneHelpers group_of_two_lights.
Proof.
  destruct (addHelper_removeHelper group_of_two_lights 5
              (object_of group_of_two_lights 5) PointLightHelper)
    as (s1 & s2 & h & Hadd & _ & _ & _ & Hrem & Hh & Hsh & _).
  - vm_compute. reflexivity.
  - vm_compute. reflexivity.
  - vm_compute. reflexivity.
  - intros h Hh. vm_compute in Hh. inversion Hh.
  - exists s1, s2. auto.
Defined.

(** A helper made for an object inside a selection root is filed under the
    root, not under the object: [removeHelper] of the object finds nothing
    and leaves the editor as it is, helper included; it is [removeHelper] of
    the root that takes the object's helper away. *)
Theorem helper_is_filed_under_selection_root (s : Editor) (object root : nat)
    (obj : Object3D) (hk : HelperKind) :
  object ≠ root →
  objects s !! object = Some obj →
  helper_for (kind obj) = Some hk →
  helpers s !! object = None →
  ∃ s1 s2 h,
    addHelper object root s = Ok tt s1 ∧
    helper_object h = object ∧ picker_selectionRoot h = root ∧
    helpers s1 !! root = Some h ∧
    helpers s1 !! object = None ∧
    h ∈ sceneHelpers s1 ∧
    removeHelper object s1 = Ok tt s1 ∧
    removeHelper root s1 = Ok tt s2 ∧
    helpers s2 !! root = None ∧
    dispatched s2 = dispatched s1 ++ [mkNotification (helperRemoved h) true].
Proof.
  intros Hne Ho Hk Hh.
  set (h := mkHelper (nextId s) hk object (S (nextId s)) root).
  assert (Hadd : add_helper object root s
                 = notify (helperAdded h)
                     (set_helpers (<[root := h]> (helpers s))
                        (set_sceneHelpers (sceneHelpers s ++ [h])
                           (set_nextId (S (S (nextId s))) s)))).
  { unfold add_helper. rewrite Hh, Ho, Hk. reflexivity. }
  exists (add_helper object root s), (drop_helper root (add_helper object root s)), h.
  split; [apply addHelper_add; eauto|].
  split; [reflexivity|]. split; [reflexivity|].
  rewrite !removeHelper_drop. rewrite Hadd. unfold drop_helper. simpl.
  rewrite lookup_insert_eq, lookup_insert_ne, Hh by congruence. simpl.
  rewrite lookup_delete_eq.
  split; [reflexivity|]. split; [reflexivity|].
  split; [apply elem_of_app; right; left|]. auto.
Qed.

Lemma helper_is_filed_under_selection_root_witness :
  ∃ s1, addHelper 5 4 group_of_two_lights = Ok tt s1 ∧
        removeHelper 5 s1 = Ok tt s1 ∧
        is_Some (helpers s1 !! 4).
Proof.
  destruct (helper_is_filed_under_selection_root group_of_two_lights 5 4
              (object_of group_of_two_lights 5) PointLightHelper)
    as (s1 & s2 & h & Hadd & _ & _ & Hroot & _ & _ & Hnoop & _).
  - lia.
  - vm_compute. reflexivity.
  - vm_compute. reflexivity.
  - vm_compute. reflexivity.
  - exists s1. eauto.
Defined.

(** ** Generic components *)

Lemma addComponent_generic (s : Editor) (object : nat) (obj : Object3D) (T : string)
    (props : option Props) (skipSave : bool) :
  objects s !! object = Some obj →
  components s !! T = None →
  addComponent object T props skipSave s
  = Ok (GenericComponentRef (mkGenericComponent T props (negb skipSave)))
       (set_objects
          (<[object := set_userData
                         (set_ud_components
                            (Some (default [] (ud_components (userData obj))
                                   ++ [mkGenericComponent T props (negb skipSave)]))
                            (userData obj)) obj]> (objects s)) s).
Proof.
  intros Ho Hreg. unfold addComponent. munfold. rewrite Hreg, Ho. reflexivity.
Qed.

Lemma find_name_absent (T : string) (l : list GenericComponent) (c : GenericComponent) :
  Forall (λ x, gc_name x ≠ T) l → gc_name c = T →
  find (λ x, bool_decide (gc_name x = T)) (l ++ [c]) = Some c.
Proof.
  intros Hl Hc. apply find_Some. exists l, []. split; [reflexivity|].
  split; [apply bool_decide_eq_true; exact Hc|].
  eapply Forall_impl; [exact Hl|]. intros x Hx. apply bool_decide_eq_false. exact Hx.
Qed.

Lemma find_name_present (T : string) (l1 l2 l3 : list GenericComponent)
    (c0 : GenericComponent) :
  Forall (λ x, gc_name x ≠ T) l1 → gc_name c0 = T →
  find (λ x, bool_decide (gc_name x = T)) ((l1 ++ c0 :: l2) ++ l3) = Some c0.
Proof.
  intros Hl Hc. apply find_Some. exists l1, (l2 ++ l3).
  split; [rewrite <- app_assoc; reflexivity|].
  split; [apply bool_decide_eq_true; exact Hc|].
  eapply Forall_impl; [exact Hl|]. intros x Hx. apply bool_decide_eq_false. exact Hx.
Qed.

(** [addComponent] with an unregistered type name always appends a record,
    creating the list when the object has none and whether or not a record
    of that name is there already; [shouldSave] is the negation of
    [skipSave].  [getComponent] then answers with the first record of that
    name: the new one only when the name was not in the list before. *)
Theorem addComponent_generic_then_getComponent (s : Editor) (object : nat)
    (obj : Object3D) (T : string) (props : option Props) (skipSave : bool) :
  objects s !! object = Some obj →
  components s !! T = None →
  let c := mkGenericComponent T props (negb skipSave) in
  let old := default [] (ud_components (userData obj)) in
  ∃ s1,
    addComponent object T props skipSave s = Ok (GenericComponentRef c) s1 ∧
    component_list s1 object = Some (old ++ [c]) ∧
    (Forall (λ x, gc_name x ≠ T) old →
     getComponent object T s1 = Ok (Some (GenericComponentRef c)) s1) ∧
    (∀ l1 c0 l2, old = l1 ++ c0 :: l2 → Forall (λ x, gc_name x ≠ T) l1 → gc_name c0 = T →
     getComponent object T s1 = Ok (Some (GenericComponentRef c0)) s1).
Proof.
  intros Ho Hreg c old.
  pose proof (addComponent_generic s object obj T props skipSave Ho Hreg) as Hadd.
  fold c in Hadd. fold old in Hadd.
  set (s1 := set_objects _ s) in Hadd.
  assert (Ho1 : objects s1 !! object
                = Some (set_userData (set_ud_components (Some (old ++ [c])) (userData obj)) obj))
    by (unfold s1; simpl; apply lookup_insert_eq).
  pose proof (getComponent_generic_with_list s1 object _ T (old ++ [c]) Ho1 Hreg eq_refl)
    as Hget.
  exists s1. split; [exact Hadd|].
  split; [unfold component_list; rewrite Ho1; reflexivity|].
  split.
  - intros Hold. rewrite Hget, find_name_absent; [reflexivity|exact Hold|reflexivity].
  - intros l1 c0 l2 Hold Hl1 Hc0.
    rewrite Hget, Hold, find_name_present; [reflexivity|exact Hl1|exact Hc0].
Qed.

Lemma addComponent_generic_then_getComponent_witness :
  ∃ s1 c, addComponent 4 "b" None false (with_generic_components ["a"])
          = Ok (GenericComponentRef c) s1 ∧
          getComponent 4 "b" s1 = Ok (Some (GenericComponentRef c)) s1.
Proof.
  destruct (addComponent_generic_then_getComponent (with_generic_components ["a"]) 4
              (object_of (with_generic_components ["a"]) 4) "b" None false)
    as (s1 & Hadd & _ & Hget & _).
  - vm_compute. reflexivity.
  - vm_compute. reflexivity.
  - exists s1. eexists. split; [exact Hadd|]. apply Hget.
    vm_compute. constructor; [discriminate|constructor].
Defined.

(** [addComponent] with an unregistered type name followed by
    [removeComponent] of that name.  When the list had no record of the
    name, it is back as it was, except that an object without list now has
    an empty one.  When it had one, the earlier record is the one removed
    and the new record stays at the end. *)
Theorem addComponent_generic_then_removeComponent (s : Editor) (object : nat)
    (obj : Object3D) (T : string) (props : option Props) (skipSave : bool) :
  objects s !! object = Some obj →
  components s !! T = None →
  let c := mkGenericComponent T props (negb skipSave) in
  let old := default [] (ud_components (userData obj)) in
  ∃ s1 s2,
    addComponent object T props skipSave s = Ok (GenericComponentRef c) s1 ∧
    removeComponent object T s1 = Ok tt s2 ∧
    (Forall (λ x, gc_name x ≠ T) old → component_list s2 object = Some old) ∧
    (∀ l1 c0 l2, old = l1 ++ c0 :: l2 → Forall (λ x, gc_name x ≠ T) l1 → gc_name c0 = T →
     component_list s2 object = Some (l1 ++ l2 ++ [c])).
Proof.
  intros Ho Hreg c old.
  pose proof (addComponent_generic s object obj T props skipSave Ho Hreg) as Hadd.
  fold c in Hadd. fold old in Hadd.
  set (s1 := set_objects _ s) in Hadd.
  assert (Ho1 : objects s1 !! object
                = Some (set_userData (set_ud_components (Some (old ++ [c])) (userData obj)) obj))
    by (unfold s1; simpl; apply lookup_insert_eq).
  destruct (removeComponent_generic s1 object _ T (old ++ [c]) Ho1 Hreg eq_refl)
    as (s2 & Hrem & Hlist).
  exists s1, s2. split; [exact Hadd|]. split; [exact Hrem|]. split.
  - intros Hold. rewrite Hlist. f_equal.
    rewrite (findIndex_first _ old []).
    + rewrite splice_middle. apply app_nil_r.
    + eapply Forall_impl; [exact Hold|]. intros x Hx. apply bool_decide_eq_false. exact Hx.
    + apply bool_decide_eq_true. reflexivity.
  - intros l1 c0 l2 Hold Hl1 Hc0. rewrite Hlist, Hold. f_equal.
    rewrite <- app_assoc. simpl. rewrite findIndex_first.
    + apply splice_middle.
    + eapply Forall_impl; [exact Hl1|]. intros x Hx. apply bool_decide_eq_false. exact Hx.
    + apply bool_decide_eq_true. exact Hc0.
Qed.

Lemma addComponent_generic_then_removeComponent_witness :
  ∃ s1 s2 c, addComponent 4 "b" None false (with_generic_components ["a"])
             = Ok (GenericComponentRef c) s1 ∧
             removeComponent 4 "b" s1 = Ok tt s2 ∧
             component_list s2 4 = component_list (with_generic_components ["a"]) 4.
Proof.
  destruct (addComponent_generic_then_removeComponent (with_generic_components ["a"]) 4
              (object_of (with_generic_components ["a"]) 4) "b" None false)
    as (s1 & s2 & Hadd & Hrem & Hback & _).
  - vm_compute. reflexivity.
  - vm_compute. reflexivity.
  - exists s1, s2. eexists. split; [exact Hadd|]. split; [exact Hrem|].
    rewrite Hback; [vm_compute; reflexivity|].
    vm_compute. constructor; [discriminate|constructor].
Defined.

(** ** Components of registered classes *)

Lemma addComponent_scene_reference_run (s : Editor) (object : nat) (obj : Object3D)
    (cls : ComponentClass) (p : Props) (skipSave : bool) :
  components s !! SceneReferenceComponent_componentName = Some cls →
  componentName cls = SceneReferenceComponent_componentName →
  objects s !! object = Some obj →
  truthy (prop p "src") = true →
  ∃ s', addComponent object SceneReferenceComponent_componentName (Some p) skipSave s
        = Ok (RegisteredComponent (mkComponentInstance p (negb skipSave))) s' ∧
        tasks s' = tasks s ++ [(LoadSceneReferenceTask (prop p "src") object, Pending)] ∧
        fileDependencies s' =
          match fileDependencies s !! prop p "src" with
          | Some D => <[prop p "src" := set_delete object D]> (fileDependencies s)
          | None => fileDependencies s
          end.
Proof.
  intros Hreg Hname Ho Hsrc.
  unfold addComponent. rewrite bind_eq. unfold gets at 1. rewrite Hreg.
  rewrite bind_eq. unfold inflate at 1. rewrite bind_eq.
  unfold modify_object at 1. rewrite Ho. unfold mret at 1, M_ret at 1.
  rewrite decide_True by reflexivity. rewrite Hsrc.
  rewrite bind_eq. unfold loadSceneReference, async.
  erewrite removeSceneRefDependency_release.
  2:{ simpl. exact Hreg. }
  2:{ simpl. rewrite lookup_insert_eq. eauto. }
  set (s1 := set_objects _ s).
  rewrite bind_eq, modify_object_alter.
  2:{ simpl. rewrite release_objects. unfold s1. simpl. rewrite lookup_insert_eq. eauto. }
  eexists. split; [reflexivity|]. simpl. rewrite release_tasks.
  split; [reflexivity|].
  unfold release, carried, s1. simpl. rewrite lookup_insert_eq. simpl.
  rewrite lookup_insert_eq. simpl. unfold getProperty. simpl.
  destruct (fileDependencies s !! prop p "src"); reflexivity.
Qed.

(** [addComponent] of a scene reference whose [src] is truthy starts one
    reference load for that [src] and the object, and returns the instance
    with [shouldSave] the negation of [skipSave].  The only dependency set
    that may lose the object before the load is the one filed under the new
    [src]: its membership in the set of any other url, such as the [src] of
    a scene reference it carried before, is kept.  With a falsy [src] no
    load is started and the dependencies are untouched. *)
Theorem addComponent_scene_reference_load (s : Editor) (object : nat) (obj : Object3D)
    (cls : ComponentClass) (p : Props) (skipSave : bool) :
  components s !! SceneReferenceComponent_componentName = Some cls →
  componentName cls = SceneReferenceComponent_componentName →
  objects s !! object = Some obj →
  ∃ s',
    addComponent object SceneReferenceComponent_componentName (Some p) skipSave s
    = Ok (RegisteredComponent (mkComponentInstance p (negb skipSave))) s' ∧
    (truthy (prop p "src") = true →
     tasks s' = tasks s ++ [(LoadSceneReferenceTask (prop p "src") object, Pending)] ∧
     (∀ u, u ≠ prop p "src" → fileDependencies s' !! u = fileDependencies s !! u) ∧
     (∀ D, fileDependencies s !! prop p "src" = Some D →
           fileDependencies s' !! prop p "src" = Some (set_delete object D))) ∧
    (truthy (prop p "src") = false →
     tasks s' = tasks s ∧ fileDependencies s' = fileDependencies s).
Proof.
  intros Hreg Hname Ho. destruct (truthy (prop p "src")) eqn:Hsrc.
  - destruct (addComponent_scene_reference_run s object obj cls p skipSave
                Hreg Hname Ho Hsrc) as (s' & Hrun & Htasks & Hfd).
    exists s'. split; [exact Hrun|]. split; [|discriminate].
    intros _. split; [exact Htasks|]. rewrite Hfd. split.
    + intros u Hu. destruct (fileDependencies s !! prop p "src"); [|reflexivity].
      apply lookup_insert_ne. congruence.
    + intros D HD. rewrite HD. apply lookup_insert_eq.
  - unfold addComponent. rewrite bind_eq. unfold gets at 1. rewrite Hreg.
    rewrite bind_eq. unfold inflate at 1. rewrite bind_eq.
    unfold modify_object at 1. rewrite Ho. unfold mret at 1, M_ret at 1.
    rewrite decide_True by reflexivity. rewrite Hsrc.
    rewrite bind_eq. unfold mret at 1, M_ret at 1.
    rewrite bind_eq, modify_object_alter by (simpl; rewrite lookup_insert_eq; eauto).
    eexists. split; [reflexivity|]. split; [discriminate|]. intros _. auto.
Qed.

Lemma addComponent_scene_reference_load_witness :
  ∃ s', addComponent 2 SceneReferenceComponent_componentName
          (Some {[ "src" := VStr "scene_c" ]}) false document_with_reference
        = Ok (RegisteredComponent
                (mkComponentInstance {[ "src" := VStr "scene_c" ]} true)) s' ∧
        fileDependencies s' !! VStr "scene_a"
        = fileDependencies document_with_reference !! VStr "scene_a".
Proof.
  destruct (addComponent_scene_reference_load document_with_reference 2
              (object_of document_with_reference 2) SceneReferenceComponent
              {[ "src" := VStr "scene_c" ]} false)
    as (s' & Hrun & Hload & _).
  - vm_compute. reflexivity.
  - reflexivity.
  - vm_compute. reflexivity.
  - exists s'. split; [exact Hrun|].
    destruct Hload as (_ & Hother & _); [vm_compute; reflexivity|].
    apply Hother. vm_compute. discriminate.
Defined.

(** [addComponent] reads [props.src] of a scene reference without testing
    [props]: called without [props] it throws a [TypeError], starting no
    load and leaving the dependencies alone.  For every other registered
    type a call without [props] returns, which is how [initNewScene] adds
    the directional light. *)
Theorem addComponent_scene_reference_needs_props (s : Editor) (object : nat)
    (obj : Object3D) (T : string) (cls : ComponentClass) (skipSave : bool) :
  components s !! T = Some cls →
  objects s !! object = Some obj →
  ∃ s',
    tasks s' = tasks s ∧ fileDependencies s' = fileDependencies s ∧
    (T = SceneReferenceComponent_componentName →
     addComponent object T None skipSave s = Throw TypeError s') ∧
    (T ≠ SceneReferenceComponent_componentName →
     addComponent object T None skipSave s
     = Ok (RegisteredComponent (mkComponentInstance ∅ (negb skipSave))) s').
Proof.
  intros Hreg Ho.
  destruct (decide (T = SceneReferenceComponent_componentName)) as [HT|HT].
  - assert (Hrun : ∃ s', addComponent object T None skipSave s = Throw TypeError s' ∧
                         tasks s' = tasks s ∧ fileDependencies s' = fileDependencies s).
    { unfold addComponent. rewrite bind_eq. unfold gets at 1. rewrite Hreg.
      rewrite bind_eq. unfold inflate at 1. rewrite bind_eq.
      unfold modify_object at 1. rewrite Ho. unfold mret at 1, M_ret at 1.
      rewrite decide_True by exact HT. eexists. split; [reflexivity|]. auto. }
    destruct Hrun as (s' & Hrun & Htasks & Hfd). exists s'. tauto.
  - assert (Hrun : ∃ s', addComponent object T None skipSave s
                         = Ok (RegisteredComponent
                                 (mkComponentInstance ∅ (negb skipSave))) s' ∧
                         tasks s' = tasks s ∧ fileDependencies s' = fileDependencies s).
    { unfold addComponent. rewrite bind_eq. unfold gets at 1. rewrite Hreg.
      rewrite bind_eq. unfold inflate at 1. rewrite bind_eq.
      unfold modify_object at 1. rewrite Ho. unfold mret at 1, M_ret at 1.
      rewrite decide_False by exact HT.
      rewrite bind_eq. unfold mret at 1, M_ret at 1.
      rewrite bind_eq, modify_object_alter by (simpl; rewrite lookup_insert_eq; eauto).
      eexists. split; [reflexivity|]. auto. }
    destruct Hrun as (s' & Hrun & Htasks & Hfd). exists s'. tauto.
Qed.

Lemma addComponent_scene_reference_needs_props_witness :
  ∃ s', addComponent 2 SceneReferenceComponent_componentName None false fresh_editor
        = Throw TypeError s'.
Proof.
  destruct (addComponent_scene_reference_needs_props fresh_editor 2
              (object_of fresh_editor 2) SceneReferenceComponent_componentName
              SceneReferenceComponent false)
    as (s' & _ & _ & Hthrow & _).
  - vm_compute. reflexivity.
  - vm_compute. reflexivity.
  - exists s'. apply Hthrow. reflexivity.
Defined.

(** ** The constructor *)

Lemma registerComponent_run (cls : ComponentClass) (s : Editor) :
  registerComponent cls s =
  match components s !! componentName cls with
  | Some _ => Throw (Error (componentName cls +:+ " already registered")) s
  | None => Ok tt (set_components (<[componentName cls := cls]> (components s)) s)
  end.
Proof.
  unfold registerComponent. rewrite bind_eq. unfold gets at 1.
  destruct (components s !! componentName cls); reflexivity.
Qed.

Lemma set_components_twice m1 m2 s :
  set_components m2 (set_components m1 s) = set_components m2 s.
Proof. reflexivity. Qed.

(** Registering classes with distinct names, none of them taken. *)
Lemma register_classes_ok (cs : list ComponentClass) :
  ∀ s, NoDup (componentName <$> cs) →
       (∀ c, c ∈ cs → components s !! componentName c = None) →
       ∃ m, forM_ cs registerComponent s = Ok tt (set_components m s) ∧
            (∀ c, c ∈ cs → m !! componentName c = Some c) ∧
            (∀ k, k ∉ componentName <$> cs → m !! k = components s !! k).
Proof.
  induction cs as [|c cs IH]; intros s Hnd Hfree; simpl.
  - exists (components s). split; [destruct s; reflexivity|].
    split; [intros c Hc; inversion Hc|reflexivity].
  - rewrite fmap_cons in Hnd. apply NoDup_cons in Hnd as [Hc Hnd].
    rewrite bind_eq, registerComponent_run, (Hfree c) by left.
    destruct (IH (set_components (<[componentName c := c]> (components s)) s) Hnd)
      as (m & Hrun & Hin & Hout).
    { intros c' Hc'. simpl. rewrite lookup_insert_ne.
      - apply Hfree. right. exact Hc'.
      - intros Heq. apply Hc. rewrite Heq. apply list_elem_of_fmap. eauto. }
    exists m. split; [exact Hrun|]. split.
    + intros c' Hc'. apply elem_of_cons in Hc' as [->|Hc']; [|apply Hin; exact Hc'].
      rewrite Hout by exact Hc. simpl. apply lookup_insert_eq.
    + intros k Hk. rewrite not_elem_of_cons in Hk. destruct Hk as [Hk1 Hk2].
      rewrite Hout by exact Hk2. simpl. apply lookup_insert_ne. congruence.
Qed.

(** A class whose name is taken makes the registrations stop with an
    error. *)
Lemma register_classes_clash (cs : list ComponentClass) :
  ∀ s, (∃ c, c ∈ cs ∧ is_Some (components s !! componentName c)) →
       ∃ msg m, forM_ cs registerComponent s = Throw (Error msg) (set_components m s).
Proof.
  induction cs as [|c cs IH]; intros s (c' & Hc' & Htaken); simpl.
  - inversion Hc'.
  - rewrite bind_eq, registerComponent_run.
    destruct (components s !! componentName c) as [x|] eqn:Hc.
    + eexists _, (components s). destruct s; reflexivity.
    + apply elem_of_cons in Hc' as [->|Hc']; [destruct Htaken; congruence|].
      destruct (IH (set_components (<[componentName c := c]> (components s)) s))
        as (msg & m & Hrun).
      * exists c'. split; [exact Hc'|]. simpl.
        destruct (decide (componentName c = componentName c')) as [Heq|Hne].
        -- rewrite Heq, lookup_insert_eq. eauto.
        -- rewrite lookup_insert_ne by exact Hne. exact Htaken.
      * exists msg, m. exact Hrun.
Qed.

Lemma register_classes_dup (cs : list ComponentClass) :
  ∀ s, ¬ NoDup (componentName <$> cs) →
       ∃ msg m, forM_ cs registerComponent s = Throw (Error msg) (set_components m s).
Proof.
  induction cs as [|c cs IH]; intros s Hdup; simpl.
  - exfalso. apply Hdup. constructor.
  - rewrite bind_eq, registerComponent_run.
    destruct (components s !! componentName c) as [x|] eqn:Hc.
    + eexists _, (components s). destruct s; reflexivity.
    + destruct (decide (componentName c ∈ componentName <$> cs)) as [Hin|Hnin].
      * apply list_elem_of_fmap in Hin as (c' & Heq & Hc').
        destruct (register_classes_clash cs
                    (set_components (<[componentName c := c]> (components s)) s))
          as (msg & m & Hrun).
        { exists c'. split; [exact Hc'|]. simpl. rewrite <- Heq, lookup_insert_eq. eauto. }
        exists msg, m. exact Hrun.
      * destruct (IH (set_components (<[componentName c := c]> (components s)) s))
          as (msg & m & Hrun).
        { intros Hnd. apply Hdup. rewrite fmap_cons. apply NoDup_cons. auto. }
        exists msg, m. exact Hrun.
Qed.

Lemma addComponent_registered_plain (s : Editor) (object : nat) (obj : Object3D)
    (T : string) (cls : ComponentClass) (props : option Props) (skipSave : bool) :
  components s !! T = Some cls →
  T ≠ SceneReferenceComponent_componentName →
  objects s !! object = Some obj →
  addComponent object T props skipSave s
  = Ok (RegisteredComponent (mkComponentInstance (default ∅ props) (negb skipSave)))
       (set_objects
          (alter (λ x, set_registered
                         (alter (λ i, mkComponentInstance (ci_props i) (negb skipSave))
                            (componentName cls) (registered x)) x) object
             (<[object := set_registered
                            (<[componentName cls :=
                                 mkComponentInstance (default ∅ props) false]>
                               (registered obj)) obj]> (objects s))) s).
Proof.
  intros Hreg HT Ho.
  unfold addComponent. rewrite bind_eq. unfold gets at 1. rewrite Hreg.
  rewrite bind_eq. unfold inflate at 1. rewrite bind_eq.
  unfold modify_object at 1. rewrite Ho. unfold mret at 1, M_ret at 1.
  rewrite decide_False by exact HT.
  rewrite bind_eq. unfold mret at 1, M_ret at 1.
  rewrite bind_eq, modify_object_alter by (simpl; rewrite lookup_insert_eq; eauto).
  reflexivity.
Qed.

(** The traversal of [initNewScene] and [addObject] on an object without
    children for which [addHelper] has no helper. *)
Lemma traverse_addHelper_leaf (fuel : nat) (o root : nat) (obj : Object3D) (s : Editor) :
  objects s !! o = Some obj →
  children obj = [] →
  helper_for (kind obj) = None →
  traverse (S fuel) (λ child, addHelper child root) o s = Ok tt s.
Proof.
  intros Ho Hc Hk. simpl. rewrite bind_eq, addHelper_add by eauto.
  assert (Hadd : add_helper o root s = s).
  { unfold add_helper. destruct (helpers s !! o); [reflexivity|]. rewrite Ho, Hk.
    reflexivity. }
  rewrite Hadd, bind_eq. unfold get_object at 1. rewrite Ho, Hc. reflexivity.
Qed.

(** [initNewScene] on the fields the constructor has set, whatever classes
    are registered. *)
Lemma initNewScene_returns (fuel : nat) (m : gmap string ComponentClass) :
  0 < fuel →
  ∃ s, initNewScene fuel (set_components m constructor_fields) = Ok tt s ∧
       components s = m.
Proof.
  intros Hfuel. destruct fuel as [|fuel]; [lia|].
  assert (Hsc : objects (set_components m constructor_fields) !! 2
                = Some (mkObject3D (generateUUID 2) "Scene" SceneKind None [] None None
                          empty_userData (Some 0xaaaaaa%Z) None ∅))
    by reflexivity.
  unfold initNewScene. rewrite bind_eq. unfold gets at 1.
  change (scene (set_components m constructor_fields)) with 2.
  rewrite bind_eq.
  destruct (m !! DirectionalLightComponent_componentName) as [cls|] eqn:Hm.
  - rewrite (addComponent_registered_plain (set_components m constructor_fields) 2 _
               DirectionalLightComponent_componentName cls None false Hm) by
      (discriminate || exact Hsc).
    erewrite traverse_addHelper_leaf.
    + eexists. split; reflexivity.
    + simpl. rewrite lookup_alter_eq, lookup_insert_eq. reflexivity.
    + reflexivity.
    + reflexivity.
  - rewrite (addComponent_generic (set_components m constructor_fields) 2 _
               DirectionalLightComponent_componentName None false Hsc Hm).
    erewrite traverse_addHelper_leaf.
    + eexists. split; reflexivity.
    + simpl. rewrite lookup_insert_eq. reflexivity.
    + reflexivity.
    + reflexivity.
Qed.

(** [new Editor()] succeeds exactly when the classes of [Components] have
    pairwise distinct names.  It then has every one of them in the registry
    under its name.  When two classes share a name, the constructor throws
    the error of [registerComponent], so no editor is built. *)
Theorem constructor_returns_iff_distinct_names (fuel : nat)
    (Components : list ComponentClass) :
  0 < fuel →
  (NoDup (componentName <$> Components) →
   ∃ s, constructor fuel Components = Ok tt s ∧
        ∀ cls, cls ∈ Components → components s !! componentName cls = Some cls) ∧
  (¬ NoDup (componentName <$> Components) →
   ∃ msg s, constructor fuel Components = Throw (Error msg) s).
Proof.
  intros Hfuel. unfold constructor. split.
  - intros Hnd.
    destruct (register_classes_ok Components constructor_fields Hnd)
      as (m & Hrun & Hin & _); [intros c _; reflexivity|].
    destruct (initNewScene_returns fuel m Hfuel) as (s & Hinit & Hcs).
    exists s. rewrite bind_eq, Hrun. split; [exact Hinit|].
    intros cls Hcls. rewrite Hcs. apply Hin. exact Hcls.
  - intros Hdup.
    destruct (register_classes_dup Components constructor_fields Hdup)
      as (msg & m & Hrun).
    exists msg, (set_components m constructor_fields). rewrite bind_eq, Hrun. reflexivity.
Qed.

Lemma constructor_returns_iff_distinct_names_witness :
  (∃ s, constructor 3 [SceneReferenceComponent; DirectionalLightComponent] = Ok tt s) ∧
  (∃ msg s, constructor 3 [SceneReferenceComponent; mkComponentClass "SceneReference" 7]
            = Throw (Error msg) s).
Proof.
  split.
  - destruct (proj1 (constructor_returns_iff_distinct_names 3
                       [SceneReferenceComponent; DirectionalLightComponent] ltac:(lia)))
      as (s & Hrun & _).
    + vm_compute. apply NoDup_cons. split; [|apply NoDup_singleton].
      intros H. apply list_elem_of_singleton in H. discriminate H.
    + exists s. exact Hrun.
  - apply (proj2 (constructor_returns_iff_distinct_names 3
                    [SceneReferenceComponent; mkComponentClass "SceneReference" 7]
                    ltac:(lia))).
    intros Hnd. vm_compute in Hnd. apply NoDup_cons in Hnd as [Hnd _].
    apply Hnd. left.
Defined.

(** ** Duplicating *)

(** [_cloneAndInflate] on an object without children and without generic
    components: the clone is all it makes. *)
Lemma cloneAndInflate_leaf (fuel : nat) (s : Editor) (object : nat) (obj : Object3D)
    (root : option nat) :
  objects s !! object = Some obj →
  objects s !! nextId s = None →
  default [] (ud_components (userData obj)) = [] →
  children obj = [] →
  1 < fuel →
  _cloneAndInflate fuel object root s
  = Ok (nextId s)
       (set_objects
          (<[nextId s := mkObject3D (generateUUID (nextId s)) (name obj) (kind obj)
                           None [] (geometry obj) (material obj)
                           (json_userData (userData obj))
                           (background obj) (fog obj) ∅]> (objects s))
          (set_nextId (S (nextId s)) s)).
Proof.
  intros Ho Hfresh Hnone Hleaf Hfuel.
  destruct fuel as [|fuel]; [lia|].
  assert (Hne : object ≠ nextId s) by congruence.
  simpl.
  rewrite bind_eq. unfold Object3D_clone_shallow.
  rewrite bind_eq. unfold get_object at 1. rewrite Ho.
  rewrite bind_eq. unfold fresh_id at 1.
  rewrite bind_eq. unfold modify at 1. unfold mret at 1, M_ret at 1.
  set (clone := mkObject3D _ _ _ _ _ _ _ _ _ _ _).
  set (s1 := set_objects _ _).
  assert (Hc1 : objects s1 !! nextId s = Some clone)
    by (unfold s1; simpl; apply lookup_insert_eq).
  assert (Ho1 : objects s1 !! object = Some obj)
    by (unfold s1; simpl; rewrite lookup_insert_ne by congruence; exact Ho).
  rewrite bind_eq. unfold get_object at 1. rewrite Hc1.
  assert (Hcomp : (match ud_components (userData clone) with
                   | Some _ =>
                       for_of fuel (components_array (nextId s)) 0 (λ component,
                         _ ← addComponent (nextId s) (gc_name component)
                               (gc_props component) false;
                         mret tt)
                   | None => mret tt
                   end) s1 = Ok tt s1).
  { destruct (ud_components (userData obj)) as [l|] eqn:Hl.
    - simpl in Hnone. subst l.
      assert (Hcl : ud_components (userData clone) = Some [])
        by (unfold clone; simpl; rewrite Hl; reflexivity).
      rewrite Hcl. destruct fuel as [|fuel]; [lia|]. simpl.
      rewrite bind_eq. unfold components_array. rewrite bind_eq.
      unfold get_object at 1. rewrite Hc1, Hcl. reflexivity.
    - assert (Hcl : ud_components (userData clone) = None)
        by (unfold clone; simpl; rewrite Hl; reflexivity).
      rewrite Hcl. reflexivity. }
  rewrite bind_eq, Hcomp.
  rewrite bind_eq. destruct fuel as [|fuel]; [lia|]. simpl.
  rewrite bind_eq. unfold children_array at 1. rewrite bind_eq.
  unfold get_object at 1. rewrite Ho1, Hleaf. reflexivity.
Qed.

(** Duplicating the selection.  With nothing selected it throws a
    [TypeError] and the editor is as before.  With an object selected that
    has no children and no generic components, [_cloneAndInflate] returns a
    new object without parent or children, with an uuid of its own, the
    name, kind, geometry and material of the original and a JSON copy of its
    [userData]; it touches no other object and no helper, and dispatches
    nothing.  [duplicateObject] then hands an add-object command for this
    clone and the parent of the original to the history, whose part is not
    covered here. *)
Theorem duplicateSelectedObject_spec (fuel : nat) (s : Editor) :
  (selected s = None → duplicateSelectedObject fuel s = Throw TypeError s) ∧
  (∀ object obj,
     selected s = Some object →
     objects s !! object = Some obj →
     objects s !! nextId s = None →
     default [] (ud_components (userData obj)) = [] →
     children obj = [] →
     1 < fuel →
     ∃ s1 s' clone,
       _cloneAndInflate fuel object None s = Ok (nextId s) s1 ∧
       objects s1 !! nextId s = Some clone ∧
       uuid clone = generateUUID (nextId s) ∧
       parent clone = None ∧ children clone = [] ∧
       name clone = name obj ∧ kind clone = kind obj ∧
       geometry clone = geometry obj ∧ material clone = material obj ∧
       userData clone = json_userData (userData obj) ∧
       (∀ x, x ≠ nextId s → objects s1 !! x = objects s !! x) ∧
       dispatched s1 = dispatched s ∧
       helpers s1 = helpers s ∧
       calls s1 = calls s ∧
       duplicateSelectedObject fuel s = Ok tt s' ∧
       calls s' = calls s ++ [HistoryExecuteAddObject (nextId s) (parent obj)]).
Proof.
  split.
  - intros Hsel. unfold duplicateSelectedObject. rewrite bind_eq. unfold gets at 1.
    rewrite Hsel. reflexivity.
  - intros object obj Hsel Ho Hfresh Hnone Hleaf Hfuel.
    pose proof (cloneAndInflate_leaf fuel s object obj None Ho Hfresh Hnone Hleaf Hfuel)
      as Hclone.
    assert (Hne : object ≠ nextId s) by congruence.
    eexists _, _, _. split; [exact Hclone|]. simpl.
    split; [apply lookup_insert_eq|].
    repeat (split; [reflexivity|]).
    split; [intros x Hx; apply lookup_insert_ne; congruence|].
    repeat (split; [reflexivity|]).
    split.
    + unfold duplicateSelectedObject. rewrite bind_eq. unfold gets at 1. rewrite Hsel.
      unfold duplicateObject. rewrite bind_eq, Hclone.
      rewrite bind_eq. unfold get_object at 1. simpl.
      rewrite lookup_insert_ne by congruence. rewrite Ho. reflexivity.
    + reflexivity.
Qed.

Lemma duplicateSelectedObject_spec_witness :
  duplicateSelectedObject 3 editor_with_mesh = Throw TypeError editor_with_mesh ∧
  ∃ s1 s', _cloneAndInflate 3 4 None (state_of (select (Some 4) editor_with_mesh))
           = Ok 5 s1 ∧
           parent <$> objects s1 !! 5 = Some None ∧
           duplicateSelectedObject 3 (state_of (select (Some 4) editor_with_mesh))
           = Ok tt s' ∧
           calls s' = calls editor_with_mesh ++ [HistoryExecuteAddObject 5 None].
Proof.
  split.
  - apply (proj1 (duplicateSelectedObject_spec 3 editor_with_mesh)). vm_compute. reflexivity.
  - destruct (proj2 (duplicateSelectedObject_spec 3 (state_of (select (Some 4) editor_with_mesh)))
                4 (object_of editor_with_mesh 4))
      as (s1 & s' & clone & Hclone & Hobj & _ & Hpar & _ & _ & _ & _ & _ & _ & _ & _ & _ & _
          & Hrun & Hcalls).
    + vm_compute. reflexivity.
    + vm_compute. reflexivity.
    + vm_compute. reflexivity.
    + vm_compute. reflexivity.
    + vm_compute. reflexivity.
    + vm_compute. lia.
    + exists s1, s'. split; [exact Hclone|]. split; [|split; [exact Hrun|]].
      * change (nextId (state_of (select (Some 4) editor_with_mesh))) with 5 in Hobj.
        rewrite Hobj. simpl. rewrite Hpar. reflexivity.
      * rewrite Hcalls. vm_compute. reflexivity.
Defined.

(** ** Loading *)

Lemma set_add_member (x : nat) (D : JsSet) : x ∈ set_members (set_add x D).
Proof.
  apply elem_of_set_members. unfold set_add, set_has.
  destruct (bool_decide (Some x ∈ D)) eqn:Hin.
  - apply bool_decide_eq_true in Hin. exact Hin.
  - apply elem_of_app. right. left.
Qed.

Lemma set_add_present (x : nat) (D : JsSet) : Some x ∈ D → set_add x D = D.
Proof.
  intros Hin. unfold set_add, set_has. rewrite bool_decide_true by exact Hin. reflexivity.
Qed.

(** The continuation of [loadSceneReference], run when the loader has
    delivered a scene without parent: the scene is flagged as hidden and as
    a reference to [url], appended to the children of the object, which
    keeps all the children it had (a scene loaded for the same reference
    before is still there); [sceneGraphChanged] is dispatched; the object is
    a member of the dependency set of [url], which is unchanged when it
    already was one, and no other dependency set changes. *)
Theorem loadSceneReference_resume_spec (s : Editor) (url : Value)
    (parentNode loaded : nat) (pobj lobj : Object3D) :
  loaded ≠ parentNode →
  objects s !! parentNode = Some pobj →
  objects s !! loaded = Some lobj →
  parent lobj = None →
  ∃ s' lobj',
    loadSceneReference_resume url parentNode loaded s = Ok loaded s' ∧
    children <$> objects s' !! parentNode = Some (children pobj ++ [loaded]) ∧
    objects s' !! loaded = Some lobj' ∧
    parent lobj' = Some parentNode ∧
    ud_dontShowInHierarchy (userData lobj') = true ∧
    ud_sceneReference (userData lobj') = url ∧
    dispatched s' =
      dispatched s ++ [mkNotification sceneGraphChanged (sceneGraphChanged_active s)] ∧
    fileDependencies s' !! url
      = Some (set_add parentNode (default [] (fileDependencies s !! url))) ∧
    parentNode ∈ set_members (default [] (fileDependencies s' !! url)) ∧
    (∀ D, fileDependencies s !! url = Some D → Some parentNode ∈ D →
          fileDependencies s' !! url = Some D) ∧
    (∀ u, u ≠ url → fileDependencies s' !! u = fileDependencies s !! u).
Proof.
  intros Hne Hp Hl Hpar. unfold loadSceneReference_resume.
  rewrite step_modify by eauto.
  set (flag := λ x : Object3D,
         set_userData (set_ud_sceneReference url
                         (set_ud_dontShowInHierarchy true (userData x))) x).
  set (s1 := set_objects (alter flag loaded (objects s)) s).
  assert (Hl1 : objects s1 !! loaded = Some (flag lobj))
    by (unfold s1; simpl; rewrite lookup_alter_eq, Hl; reflexivity).
  assert (Hp1 : objects s1 !! parentNode = Some pobj)
    by (unfold s1; simpl; rewrite lookup_alter_ne by exact Hne; exact Hp).
  rewrite (bind_Ok _ _ _ tt (set_objects (link parentNode loaded (objects s1)) s1)).
  2:{ apply Object3D_add_link with (flag lobj); [eauto|exact Hl1|].
      intros q Hq. simpl in Hq. congruence. }
  pose proof (link_children_target parentNode loaded (objects s1) (flag lobj) pobj
                Hne Hp1 Hl1) as Hch.
  unfold siblings in Hch. rewrite decide_False in Hch by (simpl; congruence).
  assert (Hl2 : link parentNode loaded (objects s1) !! loaded
                = Some (set_parent (Some parentNode) (flag lobj))).
  { unfold link. rewrite decide_False by exact Hne.
    rewrite Hl1. change (parent (flag lobj)) with (parent lobj). rewrite Hpar.
    rewrite lookup_alter_ne by congruence. rewrite lookup_alter_eq, Hl1.
    reflexivity. }
  eexists _, _. split; [reflexivity|]. simpl.
  split; [exact Hch|]. split; [exact Hl2|].
  split; [reflexivity|]. split; [reflexivity|]. split; [reflexivity|].
  split; [reflexivity|]. rewrite lookup_insert_eq.
  split; [reflexivity|]. split; [apply set_add_member|]. split.
  - intros D HD Hin. rewrite HD. simpl. rewrite set_add_present by exact Hin. reflexivity.
  - intros u Hu. apply lookup_insert_ne. congruence.
Qed.

Lemma loadSceneReference_resume_spec_witness :
  let st := state_of (new_Object3D (plain SceneKind "again") populated_editor) in
  ∃ s', loadSceneReference_resume (VStr "scene_a") 5 7 st = Ok 7 s' ∧
        children <$> objects s' !! 5 = Some [6; 7] ∧
        fileDependencies s' !! VStr "scene_a" = fileDependencies st !! VStr "scene_a".
Proof.
  intros st.
  destruct (loadSceneReference_resume_spec st (VStr "scene_a") 5 7
              (object_of st 5) (object_of st 7))
    as (s' & lobj' & Hrun & Hch & _ & _ & _ & _ & _ & _ & _ & Hsame & _).
  - lia.
  - vm_compute. reflexivity.
  - vm_compute. reflexivity.
  - vm_compute. reflexivity.
  - exists s'. split; [exact Hrun|]. split; [exact Hch|].
    rewrite (Hsame [Some 5]); vm_compute; [reflexivity|reflexivity|left].
Defined.

(** ** setScene and the continuation of loadScene *)

Lemma step_modify_insert {B} (o : nat) (f : Object3D → Object3D) (k : unit → M B)
    (s : Editor) (x : Object3D) :
  objects s !! o = Some x →
  (modify_object o f ≫= k) s = k tt (set_objects (<[o := f x]> (objects s)) s).
Proof. intros H. rewrite bind_eq. unfold modify_object. rewrite H. reflexivity. Qed.

Lemma shape_adopt (src x : Object3D) : shape (adopt src x) = shape x.
Proof. unfold adopt. destruct (background src), (fog src); reflexivity. Qed.

(** The assignments that open [setScene], for a source other than the live
    root. *)
Lemma setScene_prefix_exact (fuel : nat) (source : nat) (s : Editor)
    (lobj sobj : Object3D) :
  source ≠ scene s →
  objects s !! scene s = Some lobj →
  objects s !! source = Some sobj →
  setScene fuel source s =
    (while_first_child fuel (scene s) (removeObject fuel);;
     while_first_child fuel source (λ child, addObject fuel child None);;
     modify (set_sceneGraphChanged_active true);;
     dispatch sceneSet)
      (set_sceneGraphChanged_active false
         (set_objects (<[scene s := adopt sobj lobj]> (objects s)) s)).
Proof.
  intros Hne Hlive Hsrc. unfold setScene.
  rewrite bind_eq. unfold gets at 1.
  rewrite (step_get _ _ _ _ Hsrc).
  rewrite (step_modify_insert _ _ _ _ _ Hlive).
  rewrite (step_get source sobj) by (simpl; rewrite lookup_insert_ne by congruence; exact Hsrc).
  rewrite (step_modify_insert _ _ _ _ (set_uuid (uuid sobj) lobj))
    by (simpl; apply lookup_insert_eq).
  simpl. rewrite insert_insert_eq.
  rewrite (step_get source sobj) by (simpl; rewrite lookup_insert_ne by congruence; exact Hsrc).
  change (set_objects ?h (set_objects ?h' s)) with (set_objects h s).
  set (x1 := set_name (name sobj) (set_uuid (uuid sobj) lobj)).
  assert (Hbg : ∀ k : unit → M unit,
            (match background sobj with
             | Some b => modify_object (scene s) (set_background (Some b))
             | None => mret tt
             end ≫= k) (set_objects (<[scene s := x1]> (objects s)) s)
            = k tt (set_objects
                      (<[scene s := match background sobj with
                                    | Some b => set_background (Some b) x1
                                    | None => x1
                                    end]> (objects s)) s)).
  { intros k. destruct (background sobj) as [b|]; [|reflexivity].
    rewrite (step_modify_insert _ _ _ _ x1) by (simpl; apply lookup_insert_eq).
    simpl. rewrite insert_insert_eq. reflexivity. }
  rewrite Hbg. clear Hbg.
  set (x2 := match background sobj with
             | Some b => set_background (Some b) x1
             | None => x1
             end).
  rewrite (step_get source sobj) by (simpl; rewrite lookup_insert_ne by congruence; exact Hsrc).
  assert (Hfog : ∀ k : unit → M unit,
            (match fog sobj with
             | Some f => modify_object (scene s) (set_fog (Some f))
             | None => mret tt
             end ≫= k) (set_objects (<[scene s := x2]> (objects s)) s)
            = k tt (set_objects
                      (<[scene s := match fog sobj with
                                    | Some f => set_fog (Some f) x2
                                    | None => x2
                                    end]> (objects s)) s)).
  { intros k. destruct (fog sobj) as [f|]; [|reflexivity].
    rewrite (step_modify_insert _ _ _ _ x2) by (simpl; apply lookup_insert_eq).
    simpl. rewrite insert_insert_eq. reflexivity. }
  rewrite Hfog. clear Hfog.
  set (x3 := match fog sobj with
             | Some f => set_fog (Some f) x2
             | None => x2
             end).
  rewrite (step_get source sobj) by (simpl; rewrite lookup_insert_ne by congruence; exact Hsrc).
  rewrite (step_modify_insert _ _ _ _ x3) by (simpl; apply lookup_insert_eq).
  simpl. rewrite insert_insert_eq. reflexivity.
Qed.

(** [setScene] for a source other than the live root, where the children of
    both are consistent with the store: the state it returns. *)
Lemma setScene_run (fuel : nat) (s : Editor) (source : nat)
    (lobj sobj : Object3D) (cls : ComponentClass) (lcs1 lcs2 : list (list nat)) :
  source ≠ scene s →
  objects s !! scene s = Some lobj →
  objects s !! source = Some sobj →
  components s !! SceneReferenceComponent_componentName = Some cls →
  NoDup (children lobj) → length (children lobj) < fuel →
  Forall2 (λ c lc, ∃ oc, objects s !! c = Some oc ∧ parent oc = Some (scene s) ∧
                         subtree fuel (objects s) c = Some lc ∧
                         Forall (λ a, a ∉ lc) [scene s]) (children lobj) lcs1 →
  NoDup (children sobj) → length (children sobj) < fuel →
  Forall2 (λ c lc, ∃ oc, objects s !! c = Some oc ∧ parent oc = Some source ∧
                         subtree fuel (objects s) c = Some lc ∧
                         Forall (λ a, a ∉ lc) [scene s; source]) (children sobj) lcs2 →
  ∃ s',
    setScene fuel source s = Ok tt s' ∧
    objects s' !! scene s = Some (set_children (children sobj) (adopt sobj lobj)) ∧
    scene s' = scene s ∧
    components s' = components s ∧
    sceneGraphChanged_active s' = true.
Proof.
  intros Hne Hlive Hsrc Hreg Hnd1 Hlen1 Hall1 Hnd2 Hlen2 Hall2.
  rewrite (setScene_prefix_exact fuel source s lobj sobj Hne Hlive Hsrc).
  set (h0 := <[scene s := adopt sobj lobj]> (objects s)).
  assert (Hshape : same_shape (objects s) h0).
  { unfold h0. rewrite (insert_as_alter _ _ _ (adopt sobj) Hlive).
    apply same_shape_alter. intros o. apply shape_adopt. }
  set (s0 := set_sceneGraphChanged_active false (set_objects h0 s)).
  assert (Hlive0 : h0 !! scene s = Some (adopt sobj lobj)) by apply lookup_insert_eq.
  assert (Hlch0 : children (adopt sobj lobj) = children lobj).
  { pose proof (shape_adopt sobj lobj) as H. unfold shape in H. congruence. }
  assert (Hsrc0 : h0 !! source = Some sobj)
    by (unfold h0; rewrite lookup_insert_ne by congruence; exact Hsrc).
  pose proof (children_ready_transfer _ _ _ _ _ _ _ Hshape Hall1) as Hall1_0.
  pose proof (children_ready_transfer _ _ _ _ _ _ _ Hshape Hall2) as Hall2_0.
  destruct (remove_children_loop cls fuel (scene s) (children lobj) lcs1 s0
              (adopt sobj lobj) fuel)
    as (s1 & Hloop1 & Hrem & (Hcomp1 & Hscene1 & Hact1) & _ & _);
    try assumption.
  { apply Forall2_avoid_head with []. exact Hall1_0. }
  rewrite (bind_Ok _ _ _ _ _ Hloop1).
  change (objects s0) with h0 in Hrem.
  change (scene s0) with (scene s) in Hscene1.
  change (components s0) with (components s) in Hcomp1.
  pose proof Hrem as (Hrem_r & Hrem_c & Hrem_o).
  assert (Hsrc1 : ∃ sobj1, objects s1 !! source = Some sobj1 ∧
                           children sobj1 = children sobj).
  { pose proof (children_removed_children _ _ _ _ source Hrem Hne) as Hch.
    rewrite Hsrc0 in Hch. destruct (objects s1 !! source) as [sobj1|]; [|discriminate].
    simpl in Hch. injection Hch as Hch. exists sobj1. split; [reflexivity|congruence]. }
  destruct Hsrc1 as (sobj1 & Hsrc1 & Hsch1).
  assert (Hlive1 : objects s1 !! scene s = Some (set_children [] (adopt sobj lobj))).
  { rewrite Hrem_r, Hlive0. reflexivity. }
  assert (Hparent1 : ∀ c, c ∈ children lobj →
                       ∃ oc, h0 !! c = Some oc ∧ parent oc = Some (scene s) ∧ c ≠ scene s).
  { intros c Hc. apply list_elem_of_lookup in Hc as [j Hj].
    destruct (Forall2_lookup_l _ _ _ _ _ Hall1_0 Hj)
      as (lc & _ & oc & Hoc & Hpar & Hsub & Hav).
    exists oc. repeat split; try assumption.
    intros ->. inversion Hav as [|? ? H1 _]; subst. apply H1. eapply subtree_root, Hsub. }
  assert (Hall2_1 : Forall2 (λ c lc, ∃ oc, objects s1 !! c = Some oc ∧
                       parent oc = Some source ∧
                       subtree fuel (objects s1) c = Some lc ∧
                       Forall (λ a, a ∉ lc) [scene s; source]) (children sobj) lcs2).
  { eapply Forall2_impl; [exact Hall2_0|].
    intros c lc (oc & Hoc & Hpar & Hsub & Hav).
    assert (Hcl : c ≠ scene s).
    { intros ->. inversion Hav as [|? ? H1 _]; subst. apply H1. eapply subtree_root, Hsub. }
    assert (Hc1 : c ∉ children lobj).
    { intros Hin. destruct (Hparent1 c Hin) as (oc' & Hoc' & Hpar' & _).
      rewrite Hoc in Hoc'. injection Hoc' as <-. congruence. }
    exists oc. rewrite (Hrem_o c Hcl Hc1). repeat split; try assumption.
    apply subtree_ext with h0; [exact Hsub|].
    intros x Hx. apply (children_removed_children _ _ _ _ x Hrem).
    intros ->. inversion Hav as [|? ? H1 _]; subst. exact (H1 Hx). }
  destruct (add_children_loop fuel source (scene s) Hne (children sobj) lcs2 s1 sobj1 fuel)
    as (s2 & Hloop2 & (Hm_src & Hm_live & Hm_c & Hm_o) & (Hcomp2 & Hscene2 & Hact2) & _);
    try assumption; [eauto|].
  rewrite (bind_Ok _ _ _ _ _ Hloop2).
  exists (notify sceneSet (set_sceneGraphChanged_active true s2)).
  split; [reflexivity|]. simpl.
  split; [rewrite Hm_live, Hlive1; reflexivity|].
  split; [congruence|]. split; [congruence|reflexivity].
Qed.

(** [setScene] gives the live root the identity of the source: its [uuid],
    its [name] and a JSON copy of its [userData] (so whatever the live root
    had there, its [_url] included, is gone), and its [background] and
    [fog] where the source has them, the live root keeping its own
    otherwise. *)
Theorem setScene_adopts_source (fuel : nat) (s : Editor) (source : nat)
    (lobj sobj : Object3D) (cls : ComponentClass) :
  source ≠ scene s →
  objects s !! scene s = Some lobj →
  objects s !! source = Some sobj →
  components s !! SceneReferenceComponent_componentName = Some cls →
  children_ready fuel (objects s) (scene s) [scene s] = true →
  children_ready fuel (objects s) source [scene s; source] = true →
  ∃ s' live,
    setScene fuel source s = Ok tt s' ∧
    objects s' !! scene s = Some live ∧
    uuid live = uuid sobj ∧
    name live = name sobj ∧
    userData live = json_userData (userData sobj) ∧
    background live = match background sobj with
                      | Some b => Some b
                      | None => background lobj
                      end ∧
    fog live = match fog sobj with
               | Some f => Some f
               | None => fog lobj
               end ∧
    kind live = kind lobj ∧ parent live = parent lobj.
Proof.
  intros Hne Hlive Hsrc Hreg Hready1 Hready2.
  apply children_ready_spec in Hready1 as (lobj' & lcs1 & Hr1 & Hnd1 & Hlen1 & Hall1).
  rewrite Hlive in Hr1. injection Hr1 as <-.
  apply children_ready_spec in Hready2 as (sobj' & lcs2 & Hr2 & Hnd2 & Hlen2 & Hall2).
  rewrite Hsrc in Hr2. injection Hr2 as <-.
  destruct (setScene_run fuel s source lobj sobj cls lcs1 lcs2)
    as (s' & Hrun & Hroot & _); try assumption.
  exists s', (set_children (children sobj) (adopt sobj lobj)).
  split; [exact Hrun|]. split; [exact Hroot|].
  unfold adopt. destruct (background sobj), (fog sobj); simpl; auto 10.
Qed.

Lemma setScene_adopts_source_witness :
  ∃ s', setScene 3 11 scene_and_source = Ok tt s' ∧
        name <$> objects s' !! 2 = Some "source" ∧
        background <$> objects s' !! 2 = Some (Some 0xaaaaaa%Z).
Proof.
  destruct (setScene_adopts_source 3 scene_and_source 11 (object_of scene_and_source 2)
              (object_of scene_and_source 11) SceneReferenceComponent)
    as (s' & live & Hrun & Hroot & _ & Hname & _ & Hbg & _).
  - vm_compute. intros H. discriminate H.
  - vm_compute. reflexivity.
  - vm_compute. reflexivity.
  - vm_compute. reflexivity.
  - vm_compute. reflexivity.
  - vm_compute. reflexivity.
  - exists s'. split; [exact Hrun|]. change (scene scene_and_source) with 2 in Hroot.
    rewrite Hroot. simpl. rewrite Hname, Hbg. vm_compute. auto.
Defined.

(** The continuation of [loadScene], run when the loader has delivered a
    scene: it returns that scene; the live root has the children and a JSON
    copy of the [userData] of the loaded scene, so its [_url] is the one the
    loaded scene carries and not the [url] assigned just before [setScene];
    the live root is a member of the dependency set of [url]; the
    [sceneGraphChanged] channel is active again. *)
Theorem loadScene_resume_spec (fuel : nat) (s : Editor) (url : Value) (loaded : nat)
    (lobj sobj : Object3D) (cls : ComponentClass) :
  loaded ≠ scene s →
  objects s !! scene s = Some lobj →
  objects s !! loaded = Some sobj →
  components s !! SceneReferenceComponent_componentName = Some cls →
  children_ready fuel (objects s) (scene s) [scene s] = true →
  children_ready fuel (objects s) loaded [scene s; loaded] = true →
  ∃ s' live,
    loadScene_resume fuel url loaded s = Ok loaded s' ∧
    objects s' !! scene s = Some live ∧
    children live = children sobj ∧
    userData live = json_userData (userData sobj) ∧
    ud_url (userData live) = ud_url (userData sobj) ∧
    scene s ∈ set_members (default [] (fileDependencies s' !! url)) ∧
    sceneGraphChanged_active s' = true.
Proof.
  intros Hne Hlive Hsrc Hreg Hready1 Hready2.
  apply children_ready_spec in Hready1 as (lobj' & lcs1 & Hr1 & Hnd1 & Hlen1 & Hall1).
  rewrite Hlive in Hr1. injection Hr1 as <-.
  apply children_ready_spec in Hready2 as (sobj' & lcs2 & Hr2 & Hnd2 & Hlen2 & Hall2).
  rewrite Hsrc in Hr2. injection Hr2 as <-.
  unfold loadScene_resume. rewrite bind_eq. unfold gets at 1.
  rewrite step_modify by eauto.
  set (mark := λ x : Object3D, set_userData (set_ud_url url (userData x)) x).
  set (sa := set_objects (alter mark (scene s) (objects s)) s).
  assert (Hshape : same_shape (objects s) (objects sa))
    by (apply same_shape_alter; reflexivity).
  destruct (setScene_run fuel sa loaded (mark lobj) sobj cls lcs1 lcs2)
    as (s' & Hrun & Hroot & Hscene & _ & Hact).
  - exact Hne.
  - unfold sa. simpl. rewrite lookup_alter_eq, Hlive. reflexivity.
  - unfold sa. simpl. rewrite lookup_alter_ne by congruence. exact Hsrc.
  - exact Hreg.
  - exact Hnd1.
  - exact Hlen1.
  - exact (children_ready_transfer _ _ _ _ _ _ _ Hshape Hall1).
  - exact Hnd2.
  - exact Hlen2.
  - exact (children_ready_transfer _ _ _ _ _ _ _ Hshape Hall2).
  - rewrite (bind_Ok _ _ _ _ _ Hrun).
    eexists _, _. split; [reflexivity|]. simpl.
    change (scene sa) with (scene s) in Hroot.
    split; [exact Hroot|]. split; [reflexivity|]. split; [reflexivity|].
    split; [reflexivity|]. rewrite lookup_insert_eq. simpl.
    split; [apply set_add_member|exact Hact].
Qed.

Lemma loadScene_resume_spec_witness :
  ∃ s', loadScene_resume 3 (VStr "scene_b") 11 scene_and_source = Ok 11 s' ∧
        (λ o, ud_url (userData o)) <$> objects s' !! 2 = Some VUndefined ∧
        fileDependencies s' !! VStr "scene_b" = Some [Some 2].
Proof.
  destruct (loadScene_resume_spec 3 scene_and_source (VStr "scene_b") 11
              (object_of scene_and_source 2) (object_of scene_and_source 11)
              SceneReferenceComponent)
    as (s' & live & Hrun & Hroot & _ & _ & Hurl & _).
  - vm_compute. intros H. discriminate H.
  - vm_compute. reflexivity.
  - vm_compute. reflexivity.
  - vm_compute. reflexivity.
  - vm_compute. reflexivity.
  - vm_compute. reflexivity.
  - exists s'. split; [exact Hrun|]. change (scene scene_and_source) with 2 in Hroot.
    rewrite Hroot. simpl. rewrite Hurl. split; [vm_compute; reflexivity|].
    assert (Hs' : s' = state_of (loadScene_resume 3 (VStr "scene_b") 11 scene_and_source))
      by (rewrite Hrun; reflexivity).
    rewrite Hs'. vm_compute. reflexivity.
Defined.

(** ** The first part of loadScene *)

Lemma active_clear_frame : clear_frame sceneGraphChanged_active.
Proof. constructor; reflexivity. Qed.

Lemma tasks_clear_frame : clear_frame tasks.
Proof. constructor; reflexivity. Qed.

(** [clear] on an editor whose scene root, cameras and root children are
    consistent with the store. *)
Lemma clear_run (fuel : nat) (s : Editor) (cls : ComponentClass) (scobj : Object3D) :
  components s !! SceneReferenceComponent_componentName = Some cls →
  objects s !! scene s = Some scobj →
  is_Some (background scobj) →
  is_Some (objects s !! camera s) →
  is_Some (objects s !! DEFAULT_CAMERA s) →
  children_ready fuel (objects s) (scene s) [scene s] = true →
  ∃ s',
    clear fuel s = Ok tt s' ∧
    children <$> objects s' !! scene s = Some [] ∧
    scene s' = scene s ∧
    selected s' = None ∧
    fd_shrunk (λ _ _, True) (fileDependencies s) (fileDependencies s') ∧
    geometries s' = ∅ ∧ materials s' = ∅ ∧ textures s' = ∅ ∧ scripts s' = ∅.
Proof.
  intros Hreg Hsc [bg Hbg] Hcam [dcobj Hdc] Hready.
  apply children_ready_spec in Hready as (robj & lcs & Hr & Hnd & Hlen & Hall).
  rewrite Hsc in Hr. injection Hr as <-.
  unfold clear.
  rewrite bind_eq. unfold modify at 1.
  rewrite bind_eq. unfold modify at 1.
  rewrite bind_eq. unfold gets at 1.
  rewrite bind_eq. unfold gets at 1.
  set (sa := set_calls _ _).
  change (camera sa) with (camera s). change (DEFAULT_CAMERA sa) with (DEFAULT_CAMERA s).
  rewrite (bind_Ok _ _ _ _ _ (Object3D_copy_alter (camera s) (DEFAULT_CAMERA s) sa dcobj Hdc Hcam)).
  set (copyf := λ x : Object3D, set_userData (json_userData (userData dcobj))
                                  (set_name (name dcobj) x)).
  set (sb := set_objects (alter copyf (camera s) (objects sa)) sa).
  rewrite bind_eq. unfold gets at 1. change (scene sb) with (scene s).
  destruct (lookup_alter_background copyf (camera s) (scene s) (objects s) scobj
              (λ _, eq_refl) Hsc) as (scobj1 & Hsc1 & Hbg1).
  rewrite bind_eq. unfold get_object at 1.
  change (objects sb) with (alter copyf (camera s) (objects s)).
  rewrite Hsc1, Hbg1, Hbg.
  rewrite (bind_Ok _ _ _ _ _ (modify_object_alter (scene s) _ sb (ex_intro _ scobj1 Hsc1))).
  set (sc := set_objects _ sb).
  rewrite (bind_Ok _ _ _ tt (set_objects (alter (set_fog None) (scene s) (objects sc)) sc)).
  2:{ apply modify_object_alter. unfold sc. simpl. rewrite lookup_alter_eq.
      change (objects sb) with (alter copyf (camera s) (objects s)).
      rewrite Hsc1. eauto. }
  set (sd := set_objects _ sc).
  assert (Hshape : same_shape (objects s) (objects sd)).
  { unfold sd, sc. simpl. change (objects sb) with (alter copyf (camera s) (objects s)).
    eapply same_shape_trans; [|apply same_shape_alter; intros; reflexivity].
    eapply same_shape_trans; [|apply same_shape_alter; intros; reflexivity].
    apply same_shape_alter. intros; reflexivity. }
  destruct (same_shape_lookup _ _ _ _ Hshape Hsc) as (scobjd & Hscd & _ & Hchd & _).
  destruct (remove_children_loop cls fuel (scene s) (children scobj) lcs sd scobjd fuel)
    as (se & Hloop & (Hroot & _) & (_ & Hscene & _) & _ & Hfd).
  - exact Hreg.
  - exact Hscd.
  - exact Hchd.
  - exact Hnd.
  - apply Forall2_avoid_head with [].
    eapply children_ready_transfer; [exact Hshape|exact Hall].
  - exact Hlen.
  - rewrite (bind_Ok _ _ _ _ _ Hloop).
    change (scene sd) with (scene s) in Hscene.
    unfold deselect, select. munfold. simpl.
    assert (Hch : children <$> objects se !! scene s = Some [])
      by (rewrite Hroot, Hscd; reflexivity).
    assert (Hfd' : fd_shrunk (λ _ _, True) (fileDependencies s) (fileDependencies se))
      by (eapply fd_shrunk_weaken; [|exact Hfd]; auto).
    destruct (decide (selected se = None)); simpl;
      (eexists; split; [reflexivity|]; simpl; auto 10).
Qed.

Lemma shrunk_not_member (P : nat → Prop) (x : nat) (D D' : JsSet) :
  Forall2 (λ e e', e' = e ∨ (e' = None ∧ ∃ d, e = Some d ∧ P d)) D D' →
  Some x ∉ D → Some x ∉ D'.
Proof.
  induction 1 as [|e e' D D' He _ IH]; intros Hx Hin; [inversion Hin|].
  apply not_elem_of_cons in Hx as [Hxe Hx].
  apply elem_of_cons in Hin as [Heq|Hin]; [|exact (IH Hx Hin)].
  destruct He as [->|[-> _]]; congruence.
Qed.

(** [loadScene] up to its [await].  Whatever the editor, it never throws
    to its caller, and when it returns a load of [url] has been recorded and
    the [sceneGraphChanged] channel is switched off: it stays off until the
    continuation runs [setScene], so until the loader delivers, and for good
    if it never does.  On an editor whose scene root, cameras and root
    children are consistent with the store it returns with the load pending:
    the scene root has no children, it is in no dependency set filed under
    its former [_url], and the resource tables are empty. *)
Theorem loadScene_suspends_graph_changes (fuel : nat) (url : Value) :
  settles (loadScene fuel url)
    (λ s s', sceneGraphChanged_active s' = false ∧
             ∃ status, tasks s' = tasks s ++ [(LoadSceneTask url, status)]) ∧
  ∀ (s : Editor) (cls : ComponentClass) (scobj : Object3D),
    components s !! SceneReferenceComponent_componentName = Some cls →
    objects s !! scene s = Some scobj →
    is_Some (background scobj) →
    is_Some (objects s !! camera s) →
    is_Some (objects s !! DEFAULT_CAMERA s) →
    children_ready fuel (objects s) (scene s) [scene s] = true →
    ∃ s',
      loadScene fuel url s = Ok tt s' ∧
      tasks s' = tasks s ++ [(LoadSceneTask url, Pending)] ∧
      sceneGraphChanged_active s' = false ∧
      children <$> objects s' !! scene s = Some [] ∧
      (∀ D, fileDependencies s' !! ud_url (userData scobj) = Some D →
            scene s ∉ set_members D) ∧
      geometries s' = ∅ ∧ materials s' = ∅ ∧ textures s' = ∅ ∧ scripts s' = ∅.
Proof.
  split.
  - intros s. unfold loadScene, async.
    rewrite bind_eq. unfold gets at 1.
    rewrite bind_eq. unfold get_object at 1.
    destruct (objects s !! scene s) as [scobj|]; [|exact I].
    rewrite bind_eq. unfold gets at 1.
    assert (Hstep : ∃ sb,
               (match fileDependencies s !! ud_url (userData scobj) with
                | Some prevDependencies =>
                    modify (λ s0, set_fileDependencies
                                    (<[ud_url (userData scobj) :=
                                         set_delete (scene s) prevDependencies]>
                                       (fileDependencies s0)) s0)
                | None => mret tt
                end) s = Ok tt sb ∧ tasks sb = tasks s).
    { destruct (fileDependencies s !! ud_url (userData scobj));
        eexists; split; reflexivity. }
    destruct Hstep as (sb & Hstep & Htasks).
    rewrite bind_eq, Hstep. rewrite bind_eq. unfold modify at 1.
    pose proof (keeps_clear _ active_clear_frame fuel
                  (set_sceneGraphChanged_active false sb)) as Hact.
    pose proof (keeps_clear _ tasks_clear_frame fuel
                  (set_sceneGraphChanged_active false sb)) as Htk.
    destruct (clear fuel (set_sceneGraphChanged_active false sb)) as [[] s'|e s'| |];
      try exact I; simpl in *; rewrite Hact, Htk, Htasks; eauto.
  - intros s cls scobj Hreg Hsc Hbg Hcam Hdc Hready.
    unfold loadScene, async.
    rewrite bind_eq. unfold gets at 1.
    rewrite bind_eq. unfold get_object at 1. rewrite Hsc.
    rewrite bind_eq. unfold gets at 1.
    assert (Hstep : ∃ fd0,
               (match fileDependencies s !! ud_url (userData scobj) with
                | Some prevDependencies =>
                    modify (λ s0, set_fileDependencies
                                    (<[ud_url (userData scobj) :=
                                         set_delete (scene s) prevDependencies]>
                                       (fileDependencies s0)) s0)
                | None => mret tt
                end) s = Ok tt (set_fileDependencies fd0 s) ∧
               ∀ D, fd0 !! ud_url (userData scobj) = Some D → Some (scene s) ∉ D).
    { destruct (fileDependencies s !! ud_url (userData scobj)) as [D0|] eqn:HD0.
      - eexists. split; [reflexivity|]. intros D. rewrite lookup_insert_eq.
        intros [= <-]. apply set_delete_not_member.
      - exists (fileDependencies s). split; [destruct s; reflexivity|].
        intros D HD. congruence. }
    destruct Hstep as (fd0 & Hstep & Hgone).
    rewrite bind_eq, Hstep. rewrite bind_eq. unfold modify at 1.
    set (sb := set_sceneGraphChanged_active false (set_fileDependencies fd0 s)).
    destruct (clear_run fuel sb cls scobj Hreg Hsc Hbg Hcam Hdc Hready)
      as (s' & Hrun & Hch & _ & _ & Hfd & Hg & Hm & Ht & Hs).
    pose proof (keeps_clear _ active_clear_frame fuel sb) as Hact.
    pose proof (keeps_clear _ tasks_clear_frame fuel sb) as Htk.
    rewrite Hrun in Hact, Htk |- *. simpl in Hact, Htk.
    eexists. split; [reflexivity|]. simpl. rewrite Htk.
    split; [reflexivity|]. split; [exact Hact|]. split; [exact Hch|].
    split; [|auto].
    intros D HD Hin. apply elem_of_set_members in Hin. revert Hin.
    specialize (Hfd (ud_url (userData scobj))). simpl in Hfd. rewrite HD in Hfd.
    destruct (fd0 !! ud_url (userData scobj)) as [D0|] eqn:HD0; [|contradiction].
    eapply (shrunk_not_member (λ _, True)); [|apply Hgone; reflexivity].
    eapply Forall2_impl; [exact Hfd|]. simpl. intros e e' [->|[-> (d & -> & _)]]; eauto.
Qed.

Lemma loadScene_suspends_graph_changes_witness :
  ∃ s', loadScene 4 (VStr "scene_b") populated_editor = Ok tt s' ∧
        sceneGraphChanged_active s' = false ∧
        children <$> objects s' !! 2 = Some [].
Proof.
  pose proof (proj2 (loadScene_suspends_graph_changes 4 (VStr "scene_b"))) as H.
  specialize (H populated_editor SceneReferenceComponent (object_of populated_editor 2)).
  assert (H1 : components populated_editor !! SceneReferenceComponent_componentName
               = Some SceneReferenceComponent) by (vm_compute; reflexivity).
  assert (H2 : objects populated_editor !! scene populated_editor
               = Some (object_of populated_editor 2)) by (vm_compute; reflexivity).
  assert (H3 : is_Some (background (object_of populated_editor 2))) by (vm_compute; eauto).
  assert (H4 : is_Some (objects populated_editor !! camera populated_editor))
    by (vm_compute; eauto).
  assert (H5 : is_Some (objects populated_editor !! DEFAULT_CAMERA populated_editor))
    by (vm_compute; eauto).
  assert (H6 : children_ready 4 (objects populated_editor) (scene populated_editor)
                 [scene populated_editor] = true) by (vm_compute; reflexivity).
  specialize (H H1 H2 H3 H4 H5 H6).
  destruct H as (s' & Hrun & _ & Hact & Hch & _).
  exists s'. auto.
Defined.

Lemma setScene_live_root_witness :
  ∃ s', setScene 3 2 scene_with_group = Ok tt s' ∧
        children <$> objects scene_with_group !! 2 = Some [4] ∧
        children <$> objects s' !! 2 = Some [].
Proof.
  destruct (setScene_live_root 3 scene_with_group (object_of scene_with_group 2)
              SceneReferenceComponent)
    as (s' & evs & Hrun & _ & Hch & _).
  - vm_compute. reflexivity.
  - vm_compute. reflexivity.
  - vm_compute. reflexivity.
  - exists s'. split; [exact Hrun|]. split; [vm_compute; reflexivity|exact Hch].
Defined.

(** ** getComponentProperty *)

Lemma find_name (T : string) (l : list GenericComponent) (c : GenericComponent) :
  find (λ x, bool_decide (gc_name x = T)) l = Some c → gc_name c = T.
Proof.
  intros H. apply find_Some in H as (_ & _ & _ & H & _).
  apply bool_decide_eq_true in H. exact H.
Qed.

(** For an unregistered type name, [getComponentProperty] reads the record
    [{ name, props, shouldSave }] itself, not its [props]: ["name"] reads as
    the type name, ["shouldSave"] as the flag, ["props"] as the whole
    [props] object, and any other key that is not inherited from
    [Object.prototype] reads as [undefined], whatever [props] holds under
    it.  When the list has no record of the name a [TypeError] is thrown. *)
Theorem getComponentProperty_generic_reads_record (s : Editor) (object : nat)
    (obj : Object3D) (T : string) (l : list GenericComponent) :
  objects s !! object = Some obj →
  components s !! T = None →
  ud_components (userData obj) = Some l →
  (∀ c, find (λ x, bool_decide (gc_name x = T)) l = Some c →
        getComponentProperty object T "name" s = Ok (ReadValue (VStr T)) s ∧
        getComponentProperty object T "shouldSave" s
        = Ok (ReadValue (VBool (gc_shouldSave c))) s ∧
        (∀ p, gc_props c = Some p →
              getComponentProperty object T "props" s = Ok (ReadProps p) s) ∧
        (∀ key, key ∉ ["name"; "props"; "shouldSave"] → key ∉ Object_prototype_keys →
                getComponentProperty object T key s = Ok (ReadValue VUndefined) s)) ∧
  (find (λ x, bool_decide (gc_name x = T)) l = None →
   ∀ key, getComponentProperty object T key s = Throw TypeError s).
Proof.
  intros Ho Hreg Hl.
  assert (Hrun : ∀ key, getComponentProperty object T key s =
                        match find (λ x, bool_decide (gc_name x = T)) l with
                        | Some c => Ok (generic_field c key) s
                        | None => Throw TypeError s
                        end).
  { intros key. unfold getComponentProperty. rewrite bind_eq. unfold gets at 1.
    rewrite Hreg, bind_eq.
    rewrite (getComponent_generic_with_list s object obj T l Ho Hreg Hl).
    destruct (find _ l); reflexivity. }
  split.
  - intros c Hc. rewrite !Hrun, Hc. split; [|split; [|split]].
    + unfold generic_field. simpl. rewrite (find_name T l c Hc). reflexivity.
    + reflexivity.
    + intros p Hp. unfold generic_field. simpl. rewrite Hp.
      reflexivity.
    + intros key Hkey Hproto. rewrite Hrun, Hc. unfold generic_field.
      rewrite !not_elem_of_cons in Hkey. destruct Hkey as (H1 & H2 & H3 & _).
      rewrite !decide_False by assumption. reflexivity.
  - intros Hnone key. rewrite Hrun, Hnone. reflexivity.
Qed.

Lemma getComponentProperty_generic_reads_record_witness :
  getComponentProperty 4 "tag" "color" editor_with_tag
  = Ok (ReadValue VUndefined) editor_with_tag ∧
  getComponentProperty 4 "tag" "name" editor_with_tag
  = Ok (ReadValue (VStr "tag")) editor_with_tag.
Proof.
  destruct (getComponentProperty_generic_reads_record editor_with_tag 4
              (object_of editor_with_tag 4) "tag"
              [mkGenericComponent "tag" (Some {[ "color" := VStr "red" ]}) true])
    as [Hread _].
  - vm_compute. reflexivity.
  - vm_compute. reflexivity.
  - vm_compute. reflexivity.
  - destruct (Hread (mkGenericComponent "tag" (Some {[ "color" := VStr "red" ]}) true))
      as (Hname & _ & _ & Hother); [vm_compute; reflexivity|].
    split; [|exact Hname]. apply Hother.
    + apply (bool_decide_unpack _). vm_compute. reflexivity.
    + apply (bool_decide_unpack _). vm_compute. reflexivity.
Defined.

(** ** Removing an object and adding it again *)

(** [removeObject] followed by [addObject] under the same parent, as undoing
    a deletion does: the object is back under its parent, now as its last
    child, but the dependencies that [removeObject] released are not
    registered again: a descendant that carries a scene reference is in no
    dependency set filed under its [src], so a later change of that file no
    longer reaches it. *)
Theorem removeObject_addObject_forgets_dependencies (fuel : nat) (s : Editor)
    (object p : nat) (obj pobj : Object3D) (cls : ComponentClass) (l : list nat) :
  objects s !! object = Some obj →
  parent obj = Some p →
  objects s !! p = Some pobj →
  object ∈ children pobj →
  components s !! SceneReferenceComponent_componentName = Some cls →
  subtree fuel (objects s) object = Some l →
  p ∉ l →
  ∃ s1 s2,
    removeObject fuel object s = Ok tt s1 ∧
    addObject fuel object (Some p) s1 = Ok tt s2 ∧
    parent <$> objects s2 !! object = Some (Some p) ∧
    children <$> objects s2 !! p = Some (remove_child object (children pobj) ++ [object]) ∧
    ∀ d c, d ∈ l → carried (objects s) cls d = Some c →
           released d c (fileDependencies s2).
Proof.
  intros Ho Hpar Hp Hchild Hreg Hl Hpl.
  assert (Hne : object ≠ p).
  { intros ->. apply Hpl. eapply subtree_root, Hl. }
  pose proof (removeObject_run cls fuel object p s obj l Hreg Ho Hpar (mk_is_Some _ _ Hp) Hl)
    as Hrun1.
  set (s1 := removeObject_result cls l p object s) in *.
  assert (Hobjs1 : objects s1
                   = alter (λ x, set_children (remove_child object (children pobj)) x) p
                       (alter (set_parent None) object (objects s))).
  { unfold s1, removeObject_result. simpl. rewrite detach_all_objects.
    apply unlink_child; assumption. }
  assert (Ho1 : objects s1 !! object = Some (set_parent None obj)).
  { rewrite Hobjs1, lookup_alter_ne by congruence. rewrite lookup_alter_eq, Ho.
    reflexivity. }
  assert (Hp1 : objects s1 !! p
                = Some (set_children (remove_child object (children pobj)) pobj)).
  { rewrite Hobjs1, lookup_alter_eq, lookup_alter_ne by exact Hne. rewrite Hp.
    reflexivity. }
  assert (Hl1 : subtree fuel (objects s1) object = Some l).
  { apply subtree_ext with (objects s); [exact Hl|].
    intros x Hx. rewrite Hobjs1. rewrite lookup_alter_ne by (intros ->; exact (Hpl Hx)).
    rewrite lookup_alter. case_decide; [subst x|reflexivity].
    apply children_set_parent. }
  pose proof (addObject_run fuel object (Some p) s1 _ l Ho1 (mk_is_Some _ _ Hp1)
                ltac:(intros q Hq; discriminate Hq) Hl1) as Hrun2.
  simpl in Hrun2.
  exists s1, (addObject_result l p object s1).
  split; [exact Hrun1|]. split; [exact Hrun2|].
  unfold addObject_result. simpl. rewrite register_all_objects.
  split; [apply link_parent; [exact Hne|rewrite Ho1; eauto]|].
  split.
  - rewrite (link_children_target p object (objects s1) _ _ Hne Hp1 Ho1).
    unfold siblings. rewrite decide_False by discriminate. reflexivity.
  - intros d c Hd Hc. rewrite register_all_fileDependencies.
    unfold s1, removeObject_result. simpl. apply detach_all_releases; assumption.
Qed.

Lemma removeObject_addObject_forgets_dependencies_witness :
  5 ∈ set_members (default [] (fileDependencies populated_editor !! VStr "scene_a")) ∧
  ∃ s1 s2,
    removeObject 3 5 populated_editor = Ok tt s1 ∧
    addObject 3 5 (Some 2) s1 = Ok tt s2 ∧
    children <$> objects s2 !! 2 = Some [4; 5] ∧
    5 ∉ set_members (default [] (fileDependencies s2 !! VStr "scene_a")).
Proof.
  split; [vm_compute; left|].
  destruct (removeObject_addObject_forgets_dependencies 3 populated_editor 5 2
              (object_of populated_editor 5) (object_of populated_editor 2)
              SceneReferenceComponent [5; 6])
    as (s1 & s2 & Hrun1 & Hrun2 & _ & Hch & Hrel).
  - vm_compute. reflexivity.
  - vm_compute. reflexivity.
  - vm_compute. reflexivity.
  - vm_compute. right. left.
  - vm_compute. reflexivity.
  - vm_compute. reflexivity.
  - intros Hin. apply elem_of_cons in Hin as [Hin|Hin]; [discriminate Hin|].
    apply list_elem_of_singleton in Hin. discriminate Hin.
  - exists s1, s2. split; [exact Hrun1|]. split; [exact Hrun2|]. split; [exact Hch|].
    specialize (Hrel 5 (mkComponentInstance {[ "src" := VStr "scene_a" ]} true)
                  ltac:(left) ltac:(vm_compute; reflexivity)).
    unfold released in Hrel.
    change (getProperty _ "src") with (VStr "scene_a") in Hrel.
    destruct (fileDependencies s2 !! VStr "scene_a") as [D|]; simpl.
    + apply Hrel. reflexivity.
    + apply not_elem_of_nil.
Defined.

(** ** addObject *)

Lemma register_step_helper_events root s d :
  dispatched_between (λ n, ∃ h, n = mkNotification (helperAdded h) true)
    s (register_step root s d).
Proof.
  unfold dispatched_between, register_step, add_helper, notify.
  repeat (case_match; simpl);
    first [ exists []; split; [rewrite app_nil_r; reflexivity|constructor]
          | eexists [_]; split; [reflexivity|];
            constructor; [eauto|constructor] ].
Qed.

Lemma register_all_helper_events root (l : list nat) :
  ∀ s, dispatched_between (λ n, ∃ h, n = mkNotification (helperAdded h) true)
         s (register_all root l s).
Proof.
  unfold register_all. induction l as [|d l IH]; intros s; simpl.
  - apply dispatched_between_refl.
  - eapply dispatched_between_trans; [apply register_step_helper_events|]. apply IH.
Qed.

Lemma unlink_children_parent (q o : nat) (h : gmap nat Object3D) (qobj : Object3D) :
  h !! q = Some qobj →
  children <$> unlink q o h !! q = Some (remove_child o (children qobj)).
Proof.
  intros Hq. unfold unlink, remove_child. rewrite Hq.
  destruct (indexOf o (children qobj) =? -1)%Z.
  - rewrite Hq. reflexivity.
  - rewrite lookup_alter_eq. rewrite lookup_alter.
    case_decide; [subst o|]; rewrite Hq; reflexivity.
Qed.

Lemma link_children_former (p o q : nat) (h : gmap nat Object3D) (obj qobj : Object3D) :
  o ≠ p → q ≠ p →
  h !! o = Some obj → parent obj = Some q → h !! q = Some qobj →
  children <$> link p o h !! q = Some (remove_child o (children qobj)).
Proof.
  intros Hop Hqp Ho Hpar Hq. unfold link. rewrite decide_False by exact Hop.
  rewrite lookup_alter_ne by congruence. rewrite Ho, Hpar.
  rewrite lookup_alter. case_decide.
  - subst q. rewrite children_set_parent. apply unlink_children_parent. exact Hq.
  - apply unlink_children_parent. exact Hq.
Qed.

(** [addObject] on an object with a finite subtree, under a parent other
    than the object itself (the scene when none is given): it returns; the
    object is the last child of the parent and has it as [parent]; a former
    parent no longer lists it; [helperAdded] notifications come first, then
    [objectAdded] and last [sceneGraphChanged]; no dependency is registered
    and no load is started, whatever scene references the subtree
    carries. *)
Theorem addObject_spec (fuel : nat) (s : Editor) (object : nat)
    (parentNode : option nat) (p : nat) (obj pobj : Object3D) (l : list nat) :
  default (scene s) parentNode = p →
  object ≠ p →
  objects s !! object = Some obj →
  objects s !! p = Some pobj →
  (∀ q, parent obj = Some q → is_Some (objects s !! q)) →
  subtree fuel (objects s) object = Some l →
  ∃ s' evs,
    addObject fuel object parentNode s = Ok tt s' ∧
    children <$> objects s' !! p = Some (siblings obj pobj object p ++ [object]) ∧
    parent <$> objects s' !! object = Some (Some p) ∧
    (∀ q qobj, parent obj = Some q → q ≠ p → objects s !! q = Some qobj →
               children <$> objects s' !! q = Some (remove_child object (children qobj))) ∧
    Forall (λ n, ∃ h, n = mkNotification (helperAdded h) true) evs ∧
    dispatched s' =
      dispatched s ++ evs ++
      [mkNotification (objectAdded object) true;
       mkNotification sceneGraphChanged (sceneGraphChanged_active s)] ∧
    fileDependencies s' = fileDependencies s ∧
    tasks s' = tasks s.
Proof.
  intros Hdef Hne Ho Hp Hq Hl.
  pose proof (addObject_run fuel object parentNode s obj l Ho) as Hrun.
  rewrite Hdef in Hrun. specialize (Hrun (mk_is_Some _ _ Hp) Hq Hl).
  destruct (register_all_helper_events object l s) as (evs & Hd & Hevs).
  exists (addObject_result l p object s), evs. split; [exact Hrun|].
  unfold addObject_result. simpl.
  rewrite register_all_objects, register_all_active, register_all_fileDependencies, Hd.
  split; [apply link_children_target; assumption|].
  split; [apply link_parent; [exact Hne|eauto]|].
  split; [intros q qobj Hpar Hqp Hqobj; eapply link_children_former; eassumption|].
  split; [exact Hevs|]. split; [rewrite <- !app_assoc; reflexivity|].
  split; [reflexivity|].
  apply (foldl_frame tasks). intros s0 d. unfold register_step, add_helper, notify.
  repeat (case_match; simpl); reflexivity.
Qed.

Lemma addObject_spec_witness :
  ∃ s', addObject 3 5 None scene_with_group = Ok tt s' ∧
        children <$> objects s' !! 2 = Some [4; 5] ∧
        children <$> objects s' !! 4 = Some [6].
Proof.
  destruct (addObject_spec 3 scene_with_group 5 None 2
              (object_of scene_with_group 5) (object_of scene_with_group 2) [5])
    as (s' & evs & Hrun & Hch & _ & Hold & _).
  - reflexivity.
  - lia.
  - vm_compute. reflexivity.
  - vm_compute. reflexivity.
  - intros q Hq. vm_compute in Hq. injection Hq as <-. vm_compute. eauto.
  - vm_compute. reflexivity.
  - exists s'. split; [exact Hrun|]. split; [exact Hch|].
    apply (Hold 4 (object_of scene_with_group 4)).
    + vm_compute. reflexivity.
    + lia.
    + vm_compute. reflexivity.
Defined.

(** ** Removing a scene reference *)

(** [removeComponent] of the scene-reference type releases the dependency
    before it detaches the component, so the [src] is still there to be
    read: afterwards the object is in no dependency set filed under that
    [src], the sets of the other urls are unchanged, and the object carries
    no scene reference any more. *)
Theorem removeComponent_scene_reference_releases (s : Editor) (object : nat)
    (cls : ComponentClass) (c : ComponentInstance) :
  components s !! SceneReferenceComponent_componentName = Some cls →
  carried (objects s) cls object = Some c →
  ∃ s',
    removeComponent object SceneReferenceComponent_componentName s = Ok tt s' ∧
    released object c (fileDependencies s') ∧
    (∀ u, u ≠ getProperty c "src" → fileDependencies s' !! u = fileDependencies s !! u) ∧
    carried (objects s') cls object = None ∧
    tasks s' = tasks s.
Proof.
  intros Hreg Hc.
  assert (Ho : is_Some (objects s !! object)).
  { unfold carried in Hc. destruct (objects s !! object); [eauto|discriminate]. }
  unfold removeComponent. rewrite bind_eq. unfold gets at 1. rewrite Hreg.
  rewrite decide_True by reflexivity.
  rewrite bind_eq, (removeSceneRefDependency_release s object cls Hreg Ho).
  unfold deflate. rewrite modify_object_alter by (rewrite release_objects; exact Ho).
  eexists. split; [reflexivity|]. simpl. rewrite release_objects, release_tasks.
  split; [apply release_establishes; exact Hc|].
  split; [|split; [|reflexivity]].
  - intros u Hu. unfold release. rewrite Hc.
    destruct (fileDependencies s !! getProperty c "src"); [|reflexivity].
    simpl. apply lookup_insert_ne. congruence.
  - unfold carried. rewrite lookup_alter_eq.
    destruct (objects s !! object) as [obj|]; [|reflexivity].
    simpl. apply lookup_delete_eq.
Qed.

Lemma removeComponent_scene_reference_releases_witness :
  5 ∈ set_members (default [] (fileDependencies populated_editor !! VStr "scene_a")) ∧
  ∃ s', removeComponent 5 SceneReferenceComponent_componentName populated_editor = Ok tt s' ∧
        5 ∉ set_members (default [] (fileDependencies s' !! VStr "scene_a")).
Proof.
  split; [vm_compute; left|].
  destruct (removeComponent_scene_reference_releases populated_editor 5
              SceneReferenceComponent
              (mkComponentInstance {[ "src" := VStr "scene_a" ]} true))
    as (s' & Hrun & Hrel & _).
  - vm_compute. reflexivity.
  - vm_compute. reflexivity.
  - exists s'. split; [exact Hrun|]. unfold released in Hrel.
    change (getProperty _ "src") with (VStr "scene_a") in Hrel.
    destruct (fileDependencies s' !! VStr "scene_a") as [D|]; simpl.
    + apply Hrel. reflexivity.
    + apply not_elem_of_nil.
Defined.
